(** * KGAT (knowledge-graph attention network): a shallow embedding of
    [model/KGAT.py] and the properties of its specification.

    Conventions of the embedding.
    - Python exceptions are values of [exn]; a call that may raise returns
      a [result].
    - A tensor element is a [float]: an exact real number, or one of the
      three IEEE-754 special values.  Finite arithmetic is exact (no
      rounding, no overflow, no signed zero); the special values follow the
      IEEE rules torch implements (x/0, inf-inf, 0*inf, ...).
    - Where rounding or overflow decides a question, the module [Binary32]
      replays the arithmetic of the code in IEEE-754 binary32.
    - A 1-D tensor is a [list float], a 2-D tensor a list of rows.
    - Python dicts are [gmap]s, Python sets are [gset]s. *)

From Stdlib Require Import Reals Lra String.
From Stdlib Require SpecFloat.
From stdpp Require Import base option list gmap strings pretty.

(** ** Exceptions and the error monad *)

Inductive exn : Type :=
  | KeyError
  | IndexError
  | ZeroDivisionError
  | NotImplementedError
  | ValueError
  | TypeError
  | AttributeError
  | RuntimeError
  | DGLError.

(** The error vocabulary of the specification (section 7).  [LookupError]
    and [ArithmeticError] are the Python base classes of the same name;
    [ConfigurationError] is the specification's name for the failure of a
    constructor on an unknown aggregation scheme; everything else is what
    the specification calls a programmer error. *)
Inductive error_class : Type :=
  | ConfigurationError
  | LookupError
  | ArithmeticError
  | ProgrammerError.

Definition classify (e : exn) : error_class :=
  match e with
  | KeyError | IndexError => LookupError
  | ZeroDivisionError => ArithmeticError
  | NotImplementedError => ConfigurationError
  | ValueError | TypeError | AttributeError | RuntimeError | DGLError => ProgrammerError
  end.

Inductive result (A : Type) : Type :=
  | Ok (a : A)
  | Err (e : exn).
Arguments Ok {A} a.
Arguments Err {A} e.

#[global] Instance result_ret : MRet result := fun A a => Ok a.
#[global] Instance result_bind : MBind result := fun A B f c =>
  match c with
  | Ok a => f a
  | Err e => Err e
  end.

Definition is_ok {A} (c : result A) : bool :=
  match c with Ok _ => true | Err _ => false end.

(** [mapM]: run [f] on every element, left to right, stop at the first
    exception. *)
Fixpoint mapM_result {A B} (f : A → result B) (l : list A) : result (list B) :=
  match l with
  | [] => Ok []
  | x :: l' => y ← f x; ys ← mapM_result f l'; Ok (y :: ys)
  end.

(** [of_option e o]: an indexing operation that raises [e] when the key or
    index is missing. *)
Definition of_option {A} (e : exn) (o : option A) : result A :=
  match o with
  | Some a => Ok a
  | None => Err e
  end.

(** ** Tensor elements *)

Module Float.
#[local] Open Scope R_scope.

Inductive float : Type :=
  | Fin (x : R)
  | PInf
  | NInf
  | NaN.

Definition is_finite (a : float) : Prop :=
  match a with Fin _ => True | _ => False end.

Definition zero : float := Fin 0.
Definition of_nat (n : nat) : float := Fin (INR n).

Definition fneg (a : float) : float :=
  match a with
  | Fin x => Fin (- x)
  | PInf => NInf
  | NInf => PInf
  | NaN => NaN
  end.

Definition fadd (a b : float) : float :=
  match a, b with
  | NaN, _ | _, NaN => NaN
  | Fin x, Fin y => Fin (x + y)
  | PInf, NInf | NInf, PInf => NaN
  | PInf, _ | _, PInf => PInf
  | NInf, _ | _, NInf => NInf
  end.

Definition fsub (a b : float) : float := fadd a (fneg b).

(** Sign of a real number, as a three-way test. *)
Inductive sign : Type := Neg | Zero | Pos.

Definition sgn (x : R) : sign :=
  if Rlt_dec 0 x then Pos else if Rlt_dec x 0 then Neg else Zero.

(** An infinity scaled by a value of the given sign. *)
Definition scale_inf (positive : bool) (s : sign) : float :=
  match s with
  | Zero => NaN
  | Pos => if positive then PInf else NInf
  | Neg => if positive then NInf else PInf
  end.

Definition fmul (a b : float) : float :=
  match a, b with
  | NaN, _ | _, NaN => NaN
  | Fin x, Fin y => Fin (x * y)
  | PInf, Fin y => scale_inf true (sgn y)
  | NInf, Fin y => scale_inf false (sgn y)
  | Fin x, PInf => scale_inf true (sgn x)
  | Fin x, NInf => scale_inf false (sgn x)
  | PInf, PInf | NInf, NInf => PInf
  | PInf, NInf | NInf, PInf => NInf
  end.

(** Division as torch performs it on tensors: no exception, a zero divisor
    gives an infinity or, for 0/0, NaN. *)
Definition fdiv (a b : float) : float :=
  match a, b with
  | NaN, _ | _, NaN => NaN
  | Fin x, Fin y =>
      match sgn y with
      | Zero => match sgn x with Zero => NaN | Pos => PInf | Neg => NInf end
      | _ => Fin (x / y)
      end
  | Fin _, (PInf | NInf) => Fin 0
  | (PInf | NInf), (PInf | NInf) => NaN
  | PInf, Fin y => match sgn y with Neg => NInf | _ => PInf end
  | NInf, Fin y => match sgn y with Neg => PInf | _ => NInf end
  end.

(** [torch.pow(x, 2)] *)
Definition fsquare (a : float) : float := fmul a a.

Definition fexp (a : float) : float :=
  match a with
  | Fin x => Fin (exp x)
  | PInf => PInf
  | NInf => Fin 0
  | NaN => NaN
  end.

Definition ftanh (a : float) : float :=
  match a with
  | Fin x => Fin (tanh x)
  | PInf => Fin 1
  | NInf => Fin (-1)
  | NaN => NaN
  end.

(** [F.logsigmoid(x) = log (1 / (1 + exp (-x)))] *)
Definition logsigmoid (x : R) : R := - ln (1 + exp (- x)).

Definition flogsigmoid (a : float) : float :=
  match a with
  | Fin x => Fin (logsigmoid x)
  | PInf => Fin 0
  | NInf => NInf
  | NaN => NaN
  end.

Definition fsqrt (a : float) : float :=
  match a with
  | Fin x => if Rlt_dec x 0 then NaN else Fin (sqrt x)
  | PInf => PInf
  | NInf => NaN
  | NaN => NaN
  end.

(** [nn.ReLU] *)
Definition frelu (a : float) : float :=
  match a with
  | Fin x => Fin (Rmax 0 x)
  | PInf => PInf
  | NInf => Fin 0
  | NaN => NaN
  end.

(** [nn.LeakyReLU()], negative slope 0.01 *)
Definition fleaky_relu (a : float) : float :=
  match a with
  | Fin x => if Rlt_dec x 0 then Fin (0.01 * x) else Fin x
  | PInf => PInf
  | NInf => NInf
  | NaN => NaN
  end.

(** [torch.clamp_min(a, m)] for a finite bound [m] *)
Definition fclamp_min (a : float) (m : R) : float :=
  match a with
  | Fin x => Fin (Rmax x m)
  | PInf => PInf
  | NInf => Fin m
  | NaN => NaN
  end.


End Float.
Export Float.

(** ** Tensors *)

Abbreviation vec := (list float).
Abbreviation mat := (list (list float)).

Definition vzeros (n : nat) : vec := replicate n zero.

(** Elementwise operations on equal-shaped 1-D and 2-D tensors. *)
Definition vadd (u v : vec) : vec := zip_with fadd u v.
Definition vsub (u v : vec) : vec := zip_with fsub u v.
Definition vmul (u v : vec) : vec := zip_with fmul u v.
Definition vscale (c : float) (v : vec) : vec := fmap (fmul c) v.
Definition vdivs (v : vec) (c : float) : vec := fmap (fun x => fdiv x c) v.

Definition madd (a b : mat) : mat := zip_with vadd a b.
Definition mmul (a b : mat) : mat := zip_with vmul a b.
Definition mscale (c : float) (a : mat) : mat := fmap (vscale c) a.
Definition mdivs (a : mat) (c : float) : mat := fmap (fun v => vdivs v c) a.

(** [torch.sum] of a 1-D tensor *)
Definition vsum (v : vec) : float := foldr fadd zero v.

(** inner product of two 1-D tensors *)
Definition dot (u v : vec) : float := vsum (vmul u v).

(** [torch.sum(m, dim=0)] of an (n, d) tensor: the sum of its rows *)
Definition sum_rows (d : nat) (m : mat) : vec := foldr vadd (vzeros d) m.

(** [torch.matmul(x, M)] of a row vector [x] of length n and an (n, d)
    matrix [M]: sum over i of x_i * M_i *)
Definition vecmat (d : nat) (x : vec) (M : mat) : vec :=
  sum_rows d (zip_with vscale x M).

(** [torch.mean] of a 1-D tensor; NaN on an empty one *)
Definition vmean (v : vec) : float := fdiv (vsum v) (of_nat (length v)).

(** ** torch.nn building blocks *)

(** [nn.Linear]: [weight] has [out_features] rows of [in_features]
    entries. *)
Record Linear : Type := mkLinear {
  in_features : nat;
  out_features : nat;
  weight : mat;
  bias : option vec
}.

(** The values a freshly constructed parameter receives from torch's random
    initialisers; the embedding takes them as given, one value per
    parameter name and shape. *)
Record initializer : Type := mkInit {
  init_weight : string → nat → nat → mat;
  init_bias : string → nat → vec;
  init_weight3 : string → nat → nat → nat → list mat
}.

(** The initialiser as a sub-module sees it: its parameter names are
    prefixed with the name of the sub-module. *)
Definition scope (prefix : string) (rng : initializer) : initializer :=
  {| init_weight := fun name => init_weight rng (String.append prefix name);
     init_bias := fun name => init_bias rng (String.append prefix name);
     init_weight3 := fun name => init_weight3 rng (String.append prefix name) |}.

Definition nn_Linear (rng : initializer) (name : string) (inf outf : nat)
    (with_bias : bool) : Linear :=
  {| in_features := inf;
     out_features := outf;
     weight := init_weight rng (String.append name ".weight") outf inf;
     bias := if with_bias then Some (init_bias rng (String.append name ".bias") outf)
             else None |}.

(** [F.linear] on one row; a row of the wrong width is a shape error. *)
Definition Linear_row (L : Linear) (x : vec) : result vec :=
  if decide (length x = in_features L) then
    let y := fmap (fun w => dot x w) (weight L) in
    Ok (match bias L with Some b => vadd y b | None => y end)
  else Err RuntimeError.

Definition Linear_forward (L : Linear) (x : mat) : result mat :=
  mapM_result (Linear_row L) x.

(** [nn.Dropout(p)]: the constructor rejects a rate outside [0, 1]. *)
Record Dropout : Type := mkDropout { rate : R }.

Definition nn_Dropout (p : R) : result Dropout :=
  if Rlt_dec p 0 then Err ValueError
  else if Rlt_dec 1 p then Err ValueError
  else Ok {| rate := p |}.

(** ** class Aggregator *)

(** The attributes [W], [W1], [W2] exist only for the schemes that create
    them. *)
Record Aggregator : Type := mkAggregator {
  in_dim : nat;
  out_dim : nat;
  dropout : R;
  aggregator_type : string;
  message_dropout : Dropout;
  W : option Linear;
  W1 : option Linear;
  W2 : option Linear
}.

(** [Aggregator.__init__] *)
Definition Aggregator_init (rng : initializer) (in_dim out_dim : nat) (dropout : R)
    (aggregator_type : string) : result Aggregator :=
  message_dropout ← nn_Dropout dropout;
  if String.eqb aggregator_type "gcn" then
    Ok (mkAggregator in_dim out_dim dropout aggregator_type message_dropout
          (Some (nn_Linear rng "W" in_dim out_dim true)) None None)
  else if String.eqb aggregator_type "graphsage" then
    Ok (mkAggregator in_dim out_dim dropout aggregator_type message_dropout
          (Some (nn_Linear rng "W" (in_dim * 2) out_dim true)) None None)
  else if String.eqb aggregator_type "bi-interaction" then
    Ok (mkAggregator in_dim out_dim dropout aggregator_type message_dropout
          None
          (Some (nn_Linear rng "W1" in_dim out_dim true))
          (Some (nn_Linear rng "W2" in_dim out_dim true)))
  else Err NotImplementedError.

(** [nn.Sequential] of linear layers and ReLUs *)
Inductive layer : Type :=
  | LinearLayer (L : Linear)
  | ReLULayer.

Definition vrelu (v : vec) : vec := fmap frelu v.

Definition layer_forward (l : layer) (x : mat) : result mat :=
  match l with
  | LinearLayer L => Linear_forward L x
  | ReLULayer => Ok (fmap vrelu x)
  end.

Fixpoint Sequential_forward (layers : list layer) (x : mat) : result mat :=
  match layers with
  | [] => Ok x
  | l :: layers' => y ← layer_forward l x; Sequential_forward layers' y
  end.

(** ** The graph (the part of a DGLGraph the model uses) *)

Record edge : Type := mkEdge {
  src : nat;      (* source node: the "tail" entity *)
  dst : nat;      (* destination node: the "head" entity *)
  etype : nat     (* edges.data['type'] *)
}.

Record DGLGraph : Type := mkGraph {
  ndata_id : list nat;            (* g.ndata['id'], one entry per node *)
  edges : list edge;              (* edge k is the k-th entry *)
  edata_att : option (list float) (* g.edata['att'], when the field exists *)
}.

Definition number_of_nodes (g : DGLGraph) : nat := length (ndata_id g).

(** [g.filter_edges(pred)]: the ids of the edges that satisfy [pred], in
    increasing order; [k] is the id of the first edge of [es]. *)
Fixpoint filter_edges_from (pred : edge → bool) (k : nat) (es : list edge) : list nat :=
  match es with
  | [] => []
  | e :: es' =>
      if pred e then k :: filter_edges_from pred (S k) es'
      else filter_edges_from pred (S k) es'
  end.

Definition filter_edges (g : DGLGraph) (pred : edge → bool) : list nat :=
  filter_edges_from pred 0 (edges g).

(** Writing rows [idxs] of an edge field. *)
Definition scatter (idxs : list nat) (vals : list float) (col : list float) : list float :=
  foldl (fun c kv => <[kv.1 := kv.2]> c) col (zip idxs vals).

(** [g.apply_edges(func, edge_idxs)] for a function that returns the field
    'att'.  A field that does not exist yet is created filled with zeros
    (DGL's default initialiser) before the selected rows are written, also
    when no edge is selected. *)
Definition apply_edges (g : DGLGraph) (func : list edge → result (list float))
    (edge_idxs : list nat) : result DGLGraph :=
  batch ← mapM_result (fun k => of_option IndexError (edges g !! k)) edge_idxs;
  att ← func batch;
  let col := default (replicate (length (edges g)) zero) (edata_att g) in
  Ok (mkGraph (ndata_id g) (edges g) (Some (scatter edge_idxs att col))).

(** The ids of the edges that enter node [v]. *)
Definition in_edges (g : DGLGraph) (v : nat) : list nat :=
  filter_edges g (fun e => Nat.eqb (dst e) v).

(** ** class KGAT *)

Record KGAT : Type := mkKGAT {
  use_pretrain : nat;
  n_users : nat;
  n_entities : nat;
  n_relations : nat;
  entity_dim : nat;
  relation_dim : nat;
  aggregation_type : string;
  conv_dim_list : list nat;
  mess_dropout : list R;
  n_layers : nat;
  kg_l2loss_lambda : float;
  cf_l2loss_lambda : float;
  relation_embed : mat;        (* (n_relations, relation_dim) *)
  entity_embed : mat;          (* (n_entities, entity_dim) *)
  W_R : list mat;              (* (n_relations, entity_dim, relation_dim) *)
  aggregator_layers : list Aggregator;
  user_encoder : list layer;
  item_encoder : list layer;
  W_r : option mat;            (* self.W_r, set by compute_attention *)
  training : bool              (* nn.Module.training *)
}.

(** The command-line arguments [KGAT.__init__] reads; the two list-valued
    ones are given as the lists [eval] parses them to. *)
Record Args : Type := mkArgs {
  args_use_pretrain : nat;
  args_entity_dim : nat;
  args_relation_dim : nat;
  args_aggregation_type : string;
  args_conv_dim_list : list nat;
  args_mess_dropout : list R;
  args_kg_l2loss_lambda : float;
  args_cf_l2loss_lambda : float
}.

(** The loop of [__init__] that builds the aggregator layers, for
    [k = start, ..., start + count - 1]; layer [k] is the sub-module named
    [k] of the module list. *)
Fixpoint build_aggregators (rng : initializer) (dims : list nat) (drops : list R)
    (scheme : string) (start count : nat) : result (list Aggregator) :=
  match count with
  | O => Ok []
  | S count' =>
      d_in ← of_option IndexError (dims !! start);
      d_out ← of_option IndexError (dims !! S start);
      p ← of_option IndexError (drops !! start);
      a ← Aggregator_init (scope (String.append (pretty start) ".") rng) d_in d_out p scheme;
      rest ← build_aggregators rng dims drops scheme (S start) count';
      Ok (a :: rest)
  end.

(** The two fusion encoders of [__init__]:
    Linear(176*2, 176), ReLU, Linear(176, 176), ReLU, without bias. *)
Definition make_encoder (rng : initializer) : list layer :=
  [ LinearLayer (nn_Linear rng "0" (176 * 2) 176 false); ReLULayer;
    LinearLayer (nn_Linear rng "2" 176 176 false); ReLULayer ].

(** [nn.init.xavier_uniform_] on a tensor with the given fans: the bound of
    its uniform distribution divides by [fan_in + fan_out]. *)
Definition xavier_uniform_ (fan_in fan_out : nat) : result unit :=
  if decide (fan_in + fan_out = 0) then Err ZeroDivisionError else Ok ().

(** [KGAT.__init__] *)
Definition KGAT_init (rng : initializer) (args : Args)
    (n_users n_entities n_relations : nat)
    (user_pre_embed item_pre_embed : option mat) : result KGAT :=
  let entity_dim := args_entity_dim args in
  let relation_dim := args_relation_dim args in
  let conv_dim_list := entity_dim :: args_conv_dim_list args in
  let n_layers := length (args_conv_dim_list args) in
  let relation_embed := init_weight rng "relation_embed.weight" n_relations relation_dim in
  entity_embed ←
    match user_pre_embed, item_pre_embed with
    | Some _, Some item_pre =>
        if decide (args_use_pretrain args = 1) then
          if decide (length item_pre ≤ n_entities) then
            _ ← xavier_uniform_ entity_dim (n_entities - length item_pre);
            if decide (Forall (fun row => length row = entity_dim) item_pre)
            then Ok (item_pre ++ init_weight rng "other_entity_embed"
                                     (n_entities - length item_pre) entity_dim)
            else Err RuntimeError
          else Err RuntimeError
        else Ok (init_weight rng "entity_embed.weight" n_entities entity_dim)
    | _, _ => Ok (init_weight rng "entity_embed.weight" n_entities entity_dim)
    end;
  _ ← xavier_uniform_ (entity_dim * relation_dim) (n_relations * relation_dim);
  let W_R := init_weight3 rng "W_R" n_relations entity_dim relation_dim in
  aggregator_layers ←
    build_aggregators (scope "aggregator_layers." rng) conv_dim_list
      (args_mess_dropout args) (args_aggregation_type args) 0 n_layers;
  Ok {| use_pretrain := args_use_pretrain args;
        n_users := n_users;
        n_entities := n_entities;
        n_relations := n_relations;
        entity_dim := entity_dim;
        relation_dim := relation_dim;
        aggregation_type := args_aggregation_type args;
        conv_dim_list := conv_dim_list;
        mess_dropout := args_mess_dropout args;
        n_layers := n_layers;
        kg_l2loss_lambda := args_kg_l2loss_lambda args;
        cf_l2loss_lambda := args_cf_l2loss_lambda args;
        relation_embed := relation_embed;
        entity_embed := entity_embed;
        W_R := W_R;
        aggregator_layers := aggregator_layers;
        user_encoder := make_encoder (scope "user_encoder." rng);
        item_encoder := make_encoder (scope "item_encoder." rng);
        W_r := None;
        training := true |}.

(** *** Attention (Equations 4 and 5) *)

Definition entity_embed_lookup (m : KGAT) (id : nat) : result vec :=
  of_option IndexError (entity_embed m !! id).

Definition relation_embed_lookup (m : KGAT) (r : nat) : result vec :=
  of_option IndexError (relation_embed m !! r).

Definition node_id (g : DGLGraph) (v : nat) : result nat :=
  of_option IndexError (ndata_id g !! v).

(** [KGAT.att_score] on the batch [es] of edges *)
Definition att_score (m : KGAT) (g : DGLGraph) (es : list edge) : result (list float) :=
  W_r ← of_option AttributeError (W_r m);
  src_embed ← mapM_result (fun e => id ← node_id g (src e); entity_embed_lookup m id) es;
  let r_mul_t := fmap (fun x => vecmat (relation_dim m) x W_r) src_embed in
  dst_embed ← mapM_result (fun e => id ← node_id g (dst e); entity_embed_lookup m id) es;
  let r_mul_h := fmap (fun x => vecmat (relation_dim m) x W_r) dst_embed in
  r_embed ← mapM_result (fun e => relation_embed_lookup m (etype e)) es;
  let att := zip_with (fun t hr => dot t (fmap ftanh hr)) r_mul_t (zip_with vadd r_mul_h r_embed) in
  Ok att.

Definition set_W_r (m : KGAT) (w : option mat) : KGAT :=
  mkKGAT (use_pretrain m) (n_users m) (n_entities m) (n_relations m)
    (entity_dim m) (relation_dim m) (aggregation_type m) (conv_dim_list m)
    (mess_dropout m) (n_layers m) (kg_l2loss_lambda m) (cf_l2loss_lambda m)
    (relation_embed m) (entity_embed m) (W_R m) (aggregator_layers m)
    (user_encoder m) (item_encoder m) w (training m).

(** The loop of [compute_attention] over the relations [i = start, ...,
    start + count - 1].  It threads the model, whose attribute [W_r] each
    round overwrites, and the local copy of the graph; an exception leaves
    the model as it was when raised. *)
Fixpoint attention_loop (m : KGAT) (g : DGLGraph) (start count : nat)
    : result DGLGraph * KGAT :=
  match count with
  | O => (Ok g, m)
  | S count' =>
      let edge_idxs := filter_edges g (fun e => Nat.eqb (etype e) start) in
      match W_R m !! start with
      | None => (Err IndexError, m)
      | Some w =>
          let m' := set_W_r m (Some w) in
          match apply_edges g (att_score m' g) edge_idxs with
          | Err e => (Err e, m')
          | Ok g' => attention_loop m' g' (S start) count'
          end
      end
  end.

(** The edge field 'att' before normalisation: the state of the local graph
    at [g.edata.pop('att')]. *)
Definition raw_attention (m : KGAT) (g : DGLGraph) : result (list float) * KGAT :=
  match attention_loop m g 0 (n_relations m) with
  | (Err e, m') => (Err e, m')
  | (Ok g', m') => (of_option KeyError (edata_att g'), m')
  end.

(** Modelled from the spec: [utility.helper.edge_softmax_fix], which is not
    among the sources.  Section 4.1: "apply softmax over each destination
    node's incoming edge scores (grouped by destination), yielding a
    probability distribution per destination over its in-edges". *)
Definition edge_softmax_fix (g : DGLGraph) (score : list float) : list float :=
  let e := fmap fexp score in
  let out_sum (v : nat) : float :=
    vsum (omap (fun k => e !! k) (in_edges g v)) in
  zip_with (fun ed x => fdiv x (out_sum (dst ed))) (edges g) e.

(** [KGAT.compute_attention] *)
Definition compute_attention (m : KGAT) (g : DGLGraph) : result (list float) * KGAT :=
  match raw_attention m g with
  | (Err e, m') => (Err e, m')
  | (Ok att, m') => (Ok (edge_softmax_fix g att), m')
  end.

(** *** Knowledge-graph loss (Equations 1 and 2) *)

(** [_L2_loss_mean] *)
Definition _L2_loss_mean (x : mat) : float :=
  vmean (fmap (fun row => fdiv (vsum (fmap fsquare row)) (Fin 2)) x).

(** [torch.bmm(x.unsqueeze(1), W).squeeze(1)]: row k of [x] times matrix k
    of [W]; the two batch sizes must agree. *)
Definition bmm_rows (d : nat) (x : mat) (W : list mat) : result mat :=
  if decide (length x = length W) then Ok (zip_with (vecmat d) x W)
  else Err RuntimeError.

(** Equation (1) on rows: sum of the squares of [h W_r + r - t W_r]. *)
Definition transr_score (r_mul_h r_embed r_mul_t : mat) : vec :=
  fmap (fun row => vsum (fmap fsquare row))
       (zip_with vsub (zip_with vadd r_mul_h r_embed) r_mul_t).

(** [KGAT.calc_kg_loss] *)
Definition calc_kg_loss (m : KGAT) (h r pos_t neg_t : list nat) : result float :=
  r_embed ← mapM_result (relation_embed_lookup m) r;
  W_r ← mapM_result (fun i => of_option IndexError (W_R m !! i)) r;
  h_embed ← mapM_result (entity_embed_lookup m) h;
  pos_t_embed ← mapM_result (entity_embed_lookup m) pos_t;
  neg_t_embed ← mapM_result (entity_embed_lookup m) neg_t;
  r_mul_h ← bmm_rows (relation_dim m) h_embed W_r;
  r_mul_pos_t ← bmm_rows (relation_dim m) pos_t_embed W_r;
  r_mul_neg_t ← bmm_rows (relation_dim m) neg_t_embed W_r;
  let pos_score := transr_score r_mul_h r_embed r_mul_pos_t in
  let neg_score := transr_score r_mul_h r_embed r_mul_neg_t in
  let kg_loss := fmap (fun x => fmul (Fin (-1)) (flogsigmoid x)) (zip_with fsub neg_score pos_score) in
  let kg_loss := vmean kg_loss in
  let l2_loss :=
    fadd (fadd (fadd (_L2_loss_mean r_mul_h) (_L2_loss_mean r_embed))
               (_L2_loss_mean r_mul_pos_t))
         (_L2_loss_mean r_mul_neg_t) in
  Ok (fadd kg_loss (fmul (kg_l2loss_lambda m) l2_loss)).

(** The translational score of Equation (1) that [calc_kg_loss] computes
    for the triples (h, r, t): its [pos_score] for [t = pos_t] and its
    [neg_score] for [t = neg_t]. *)
Definition kg_score (m : KGAT) (h r t : list nat) : result vec :=
  r_embed ← mapM_result (relation_embed_lookup m) r;
  W_r ← mapM_result (fun i => of_option IndexError (W_R m !! i)) r;
  h_embed ← mapM_result (entity_embed_lookup m) h;
  t_embed ← mapM_result (entity_embed_lookup m) t;
  r_mul_h ← bmm_rows (relation_dim m) h_embed W_r;
  r_mul_t ← bmm_rows (relation_dim m) t_embed W_r;
  Ok (transr_score r_mul_h r_embed r_mul_t).

(** *** Similarity-weighted fusion *)

(** [embed.shape[1]] of a 2-D tensor with at least one row *)
Definition width (embed : mat) : nat :=
  match embed with
  | [] => 0
  | row :: _ => length row
  end.

(** [embed[ids]]: the rows of [embed] at the given indices *)
Definition index_rows (embed : mat) (ids : list nat) : result mat :=
  mapM_result (fun i => of_option IndexError (embed !! i)) ids.

(** Cutting a flat tensor into [n] rows of [k] entries. *)
Fixpoint reshape (n k : nat) (flat : vec) : mat :=
  match n with
  | O => []
  | S n' => take k flat :: reshape n' k (drop k flat)
  end.

(** [flat.view(n, -1)]: the number of entries must be a multiple of [n];
    a tensor without entries becomes [n] empty rows.  With [n = 0] the size
    -1 cannot be inferred. *)
Definition view_rows (n : nat) (flat : vec) : result mat :=
  if decide (n = 0) then Err RuntimeError
  else if decide (n * (length flat / n) = length flat)
       then Ok (reshape n (length flat / n) flat)
       else Err RuntimeError.

(** [KGAT.calk_sim]: Jaccard similarity of two interaction lists, a Python
    float; dividing the int 0 by the int 0 raises. *)
Definition calk_sim (idx sim_idx : nat) (i_dict : gmap nat (list nat)) : result float :=
  staffs ← of_option KeyError (i_dict !! idx);
  staffs2 ← of_option KeyError (i_dict !! sim_idx);
  let all := size ((list_to_set staffs : gset nat) ∪ list_to_set staffs2) in
  let inter := size ((list_to_set staffs : gset nat) ∩ list_to_set staffs2) in
  if decide (all = 0) then Err ZeroDivisionError
  else Ok (Fin (INR inter / INR all)).

(** The argument [user_ids] of [get_user_kg_embed] is either one numpy
    scalar (a neighbour id taken from a similarity table) or a tensor of
    ids. *)
Inductive ids_arg : Type :=
  | ScalarId (uid : nat)
  | IdTensor (uids : list nat).

(** [torch.sum(embed[items], dim=0) / len(items)]: a tensor divided by an
    int, so an empty list gives 0/0 in every position and no exception. *)
Definition mean_of_items (embed : mat) (interacted_item_list : list nat) : result vec :=
  rows ← index_rows embed interacted_item_list;
  Ok (vdivs (sum_rows (width embed) rows) (of_nat (length interacted_item_list))).

(** The KG-context row of one user: the mean of the rows of the items the
    user interacted with. *)
Definition user_kg_row (embed : mat) (user_dict : gmap nat (list nat)) (uid : nat)
    : result vec :=
  interacted_item_list ← of_option KeyError (user_dict !! uid);
  mean_of_items embed interacted_item_list.

(** [KGAT.get_user_kg_embed] *)
Definition get_user_kg_embed (embed : mat) (user_ids : ids_arg)
    (user_dict : gmap nat (list nat)) : result mat :=
  match user_ids with
  | ScalarId uid =>
      v ← user_kg_row embed user_dict uid;
      view_rows 1 v
  | IdTensor uids =>
      rows ← mapM_result (user_kg_row embed user_dict) uids;
      match rows with
      | [] => Err AttributeError        (* kg_user_embed is still None *)
      | _ => view_rows (length uids) (concat rows)
      end
  end.

(** The two accumulators of the similarity loops.  Both start as the Python
    int 0 and are updated together: after the first neighbour the first is a
    tensor and the second a Python float. *)
Inductive accum (T : Type) : Type :=
  | Int0
  | Acc (sum : T) (norm : float).
Arguments Int0 {T}.
Arguments Acc {T} sum norm.

(** [0 + t] for the int 0 and a tensor [t] *)
Definition vadd0 (v : vec) : vec := fmap (fadd (Fin 0)) v.
Definition madd0 (a : mat) : mat := fmap vadd0 a.

(** [sim_embed += term; norm += sim] *)
Definition accumulate {T} (add : T → T → T) (add0 : T → T)
    (a : accum T) (term : T) (sim : float) : accum T :=
  match a with
  | Int0 => Acc (add0 term) (fadd (Fin 0) sim)
  | Acc s n => Acc (add s term) (fadd n sim)
  end.

(** [sim_embed / norm]: int by int before any neighbour was seen, tensor by
    float afterwards. *)
Definition normalise {T} (divs : T → float → T) (a : accum T) : result T :=
  match a with
  | Int0 => Err ZeroDivisionError
  | Acc s n => Ok (divs s n)
  end.

(** The inner loop of [get_user_cf_embed] over the neighbours of [uid]. *)
Fixpoint user_sim_loop (embed : mat) (uid : nat) (user_dict : gmap nat (list nat))
    (neighbours : list nat) (a : accum mat) : result (accum mat) :=
  match neighbours with
  | [] => Ok a
  | sim_user :: rest =>
      sim ← calk_sim uid sim_user user_dict;
      kg ← get_user_kg_embed embed (ScalarId sim_user) user_dict;
      user_sim_loop embed uid user_dict rest
        (accumulate madd madd0 a (mscale sim kg) sim)
  end.

(** One round of the outer loop of [get_user_cf_embed]:
    [sim_user_embed_final] for user [uid], a (1, d) tensor. *)
Definition user_cf_row (embed : mat) (uid : nat)
    (user_dict sim_user_dict : gmap nat (list nat)) : result mat :=
  neighbours ← of_option KeyError (sim_user_dict !! uid);
  a ← user_sim_loop embed uid user_dict neighbours Int0;
  normalise mdivs a.

(** [KGAT.get_user_cf_embed] *)
Definition get_user_cf_embed (embed : mat) (user_ids : list nat)
    (user_dict sim_user_dict : gmap nat (list nat)) : result mat :=
  rows ← mapM_result (fun uid => user_cf_row embed uid user_dict sim_user_dict) user_ids;
  match rows with
  | [] => Err AttributeError          (* cf_user_embed is still None *)
  | _ => view_rows (length user_ids) (concat (concat rows))
  end.

(** [torch.cat((a, b), dim=-1)] of two 2-D tensors with the same number of
    rows *)
Definition cat_cols (a b : mat) : result mat :=
  if decide (length a = length b) then Ok (zip_with app a b)
  else Err RuntimeError.

(** [KGAT.get_user_embed] *)
Definition get_user_embed (m : KGAT) (embed : mat) (user_ids : list nat)
    (user_dict sim_user_dict : gmap nat (list nat)) : result mat :=
  kg_embed ← get_user_kg_embed embed (IdTensor user_ids) user_dict;
  cf_embed ← get_user_cf_embed embed user_ids user_dict sim_user_dict;
  final_embed ← cat_cols kg_embed cf_embed;
  Sequential_forward (user_encoder m) final_embed.

(** The inner loop of [get_item_embed] over the neighbours of [iid]. *)
Fixpoint item_sim_loop (all_embed : mat) (iid : nat) (item_dict : gmap nat (list nat))
    (neighbours : list nat) (a : accum vec) : result (accum vec) :=
  match neighbours with
  | [] => Ok a
  | sim_item :: rest =>
      sim ← calk_sim iid sim_item item_dict;
      row ← of_option IndexError (all_embed !! sim_item);
      item_sim_loop all_embed iid item_dict rest
        (accumulate vadd vadd0 a (vscale sim row) sim)
  end.

(** One round of the outer loop of [get_item_embed]:
    [sim_item_embed_final] for item [iid], a 1-D tensor. *)
Definition item_cf_row (all_embed : mat) (iid : nat)
    (sim_item_dict item_dict : gmap nat (list nat)) : result vec :=
  neighbours ← of_option KeyError (sim_item_dict !! iid);
  a ← item_sim_loop all_embed iid item_dict neighbours Int0;
  normalise vdivs a.

(** [KGAT.get_item_embed] *)
Definition get_item_embed (m : KGAT) (all_embed : mat) (item_ids : list nat)
    (sim_item_dict item_dict : gmap nat (list nat)) : result mat :=
  item_kg_embed ← index_rows all_embed item_ids;
  rows ← mapM_result (fun iid => item_cf_row all_embed iid sim_item_dict item_dict) item_ids;
  cf_item_embed ←
    match rows with
    | [] => Err AttributeError        (* cf_item_embed is still None *)
    | _ => view_rows (length item_ids) (concat rows)
    end;
  item_embed_final ← cat_cols item_kg_embed cf_item_embed;
  Sequential_forward (item_encoder m) item_embed_final.

(** *** Propagation (Equations 3 and 6 to 11) *)

(** The message of edge [k]: [u_mul_e('node', 'att', 'side')], the row of
    the source node times the attention weight of the edge. *)
Definition u_mul_e (g : DGLGraph) (node : mat) (att : vec) (k : nat) : option vec :=
  match edges g !! k with
  | Some e =>
      match node !! src e, att !! k with
      | Some x, Some a => Some (fmap (fun xi => fmul xi a) x)
      | _, _ => None
      end
  | None => None
  end.

(** [g.update_all(u_mul_e(...), lambda nodes: {'N_h': torch.sum(nodes.mailbox['side'], 1)})]
    followed by the read of [g.ndata['N_h']], the reduction of mode
    'predict': for every node the sum, over its incoming edges in edge
    order, of the messages; the zero row for a node without incoming edges.
    On a graph without edges no message is sent and no reduction runs: the
    node field 'N_h' is not created and reading it raises [KeyError]. *)
Definition update_all_mailbox_sum (g : DGLGraph) (node : mat) : result mat :=
  att ← of_option KeyError (edata_att g);
  if decide (edges g = []) then Err KeyError
  else
    Ok (fmap (fun v => sum_rows (width node) (omap (u_mul_e g node att) (in_edges g v)))
             (seq 0 (number_of_nodes g))).

(** [g.update_all(u_mul_e(...), dgl.function.sum('side', 'N_h'))], the
    reduction of the other modes.  It differs from the one above only in
    the order and atomicity of the floating-point additions, which exact
    arithmetic does not see. *)
Definition update_all_builtin_sum (g : DGLGraph) (node : mat) : result mat :=
  update_all_mailbox_sum g node.

Definition activation (x : mat) : mat := fmap (fun row : vec => fmap fleaky_relu row) x.

(** [nn.Dropout.forward]: the identity in evaluation mode; in training mode
    every entry is multiplied by 1/(1-p) when its Bernoulli sample [keep]
    is true and by 0 otherwise. *)
Definition Dropout_forward (d : Dropout) (training : bool) (keep : nat → nat → bool)
    (x : mat) : mat :=
  if training then
    imap (fun i (row : vec) =>
      imap (fun j xij =>
        fmul xij (if keep i j then fdiv (Fin 1) (Fin (1 - rate d)) else Fin 0)) row) x
  else x.

(** [Aggregator.forward] *)
Definition Aggregator_forward (a : Aggregator) (training : bool) (keep : nat → nat → bool)
    (mode : string) (g : DGLGraph) (entity_embed : mat) : result mat :=
  node ← (if decide (length entity_embed = number_of_nodes g)
          then Ok entity_embed else Err DGLError);
  N_h ← (if String.eqb mode "predict" then update_all_mailbox_sum g node
         else update_all_builtin_sum g node);
  out ←
    (if String.eqb (aggregator_type a) "gcn" then
       W ← of_option AttributeError (W a);
       y ← Linear_forward W (madd node N_h);
       Ok (activation y)
     else if String.eqb (aggregator_type a) "graphsage" then
       W ← of_option AttributeError (W a);
       y ← Linear_forward W (zip_with app node N_h);
       Ok (activation y)
     else if String.eqb (aggregator_type a) "bi-interaction" then
       W1 ← of_option AttributeError (W1 a);
       y1 ← Linear_forward W1 (madd node N_h);
       let out1 := activation y1 in
       W2 ← of_option AttributeError (W2 a);
       y2 ← Linear_forward W2 (mmul node N_h);
       let out2 := activation y2 in
       Ok (madd out1 out2)
     else Err NotImplementedError);
  Ok (Dropout_forward (message_dropout a) training keep out).

(** [F.normalize(x, p=2, dim=1)]: every row divided by its Euclidean norm,
    the norm clamped from below by 1e-12. *)
Definition normalize_row (row : vec) : vec :=
  vdivs row (fclamp_min (fsqrt (vsum (fmap fsquare row))) (1 / 10 ^ 12)%R).

Definition F_normalize (x : mat) : mat := fmap normalize_row x.

(** [torch.cat(ms, dim=1)] of 2-D tensors with the same number of rows *)
Definition cat_dim1 (ms : list mat) : mat :=
  match ms with
  | [] => []
  | m0 :: rest => foldl (zip_with app) m0 rest
  end.

(** The loop of [cf_embedding] over the aggregator layers; [i] is the index
    of the first layer of [layers], [keep i] the dropout sample of layer
    [i]. *)
Fixpoint cf_layers (training : bool) (keep : nat → nat → nat → bool) (mode : string)
    (g : DGLGraph) (layers : list Aggregator) (i : nat) (ego_embed : mat)
    : result (list mat) :=
  match layers with
  | [] => Ok []
  | layer :: layers' =>
      ego_embed' ← Aggregator_forward layer training (keep i) mode g ego_embed;
      let norm_embed := F_normalize ego_embed' in
      rest ← cf_layers training keep mode g layers' (S i) ego_embed';
      Ok (norm_embed :: rest)
  end.

(** [KGAT.cf_embedding] *)
Definition cf_embedding (m : KGAT) (keep : nat → nat → nat → bool) (mode : string)
    (g : DGLGraph) : result mat :=
  ego_embed ← mapM_result (entity_embed_lookup m) (ndata_id g);
  layer_embeds ← cf_layers (training m) keep mode g (aggregator_layers m) 0 ego_embed;
  Ok (cat_dim1 (ego_embed :: layer_embeds)).

(** *** Scoring heads *)

(** Broadcasting of a binary operation along the first dimension: equal
    sizes, or one of them 1. *)
Definition broadcast {A B} (f : A → A → B) (a b : list A) : result (list B) :=
  if decide (length a = length b) then Ok (zip_with f a b)
  else match a, b with
       | [x], _ => Ok (fmap (f x) b)
       | _, [y] => Ok (fmap (fun x => f x y) a)
       | _, _ => Err RuntimeError
       end.

(** [torch.matmul(a, b.transpose(0, 1))]: all inner products of a row of
    [a] and a row of [b] *)
Definition matmul_transpose (a b : mat) : mat :=
  fmap (fun u : vec => fmap (fun i : vec => dot u i) b) a.

(** [KGAT.cf_score] *)
Definition cf_score (m : KGAT) (keep : nat → nat → nat → bool) (mode : string)
    (g : DGLGraph) (user_ids item_ids : list nat)
    (user_dict sim_user_dict sim_item_dict item_dict : gmap nat (list nat))
    : result mat :=
  all_embed ← cf_embedding m keep mode g;
  user_embed ← get_user_embed m all_embed user_ids user_dict sim_user_dict;
  item_embed ← get_item_embed m all_embed item_ids sim_item_dict item_dict;
  Ok (matmul_transpose user_embed item_embed).

(** [KGAT.calc_cf_loss] *)
Definition calc_cf_loss (m : KGAT) (keep : nat → nat → nat → bool) (mode : string)
    (g : DGLGraph) (user_ids item_pos_ids item_neg_ids : list nat)
    (user_dict sim_user_dict item_dict sim_item_dict : gmap nat (list nat))
    : result float :=
  all_embed ← cf_embedding m keep mode g;
  user_embed ← get_user_embed m all_embed user_ids user_dict sim_user_dict;
  item_pos_embed ← get_item_embed m all_embed item_pos_ids sim_item_dict item_dict;
  item_neg_embed ← get_item_embed m all_embed item_neg_ids sim_item_dict item_dict;
  pos_prod ← broadcast vmul user_embed item_pos_embed;
  let pos_score := fmap vsum pos_prod in
  neg_prod ← broadcast vmul user_embed item_neg_embed;
  let neg_score := fmap vsum neg_prod in
  diff ← broadcast fsub pos_score neg_score;
  let cf_loss := vmean (fmap (fun x => fmul (Fin (-1)) (flogsigmoid x)) diff) in
  let l2_loss :=
    fadd (fadd (_L2_loss_mean user_embed) (_L2_loss_mean item_pos_embed))
         (_L2_loss_mean item_neg_embed) in
  Ok (fadd cf_loss (fmul (cf_l2loss_lambda m) l2_loss)).

(** *** forward *)

(** The positional arguments [*input] of [forward]. *)
Inductive pyarg : Type :=
  | ArgGraph (g : DGLGraph)
  | ArgIds (ids : list nat)
  | ArgDict (d : gmap nat (list nat)).

(** What [forward] returns. *)
Inductive pyvalue : Type :=
  | PyNone
  | PyVector (v : vec)
  | PyMatrix (x : mat)
  | PyScalar (x : float).

(** The argument used as the graph: every callee starts with
    [g.local_var()], an attribute that a tensor or a dict does not have. *)
Definition graph_arg (input : list pyarg) (i : nat) : result DGLGraph :=
  match input !! i with
  | Some (ArgGraph g) => Ok g
  | Some _ => Err AttributeError
  | None => Err TypeError
  end.

Definition ids_at (input : list pyarg) (i : nat) : result (list nat) :=
  match input !! i with
  | Some (ArgIds ids) => Ok ids
  | _ => Err TypeError
  end.

Definition dict_arg (input : list pyarg) (i : nat) : result (gmap nat (list nat)) :=
  match input !! i with
  | Some (ArgDict d) => Ok d
  | _ => Err TypeError
  end.

Definition arity (n : nat) (input : list pyarg) : result unit :=
  if decide (length input = n) then Ok () else Err TypeError.

(** [KGAT.forward].  Unpacking [*input] into a callee whose number of
    parameters it does not fit raises [TypeError].  Only
    [compute_attention] changes the model (its attribute [W_r]). *)
Definition forward (m : KGAT) (keep : nat → nat → nat → bool) (mode : string)
    (input : list pyarg) : result pyvalue * KGAT :=
  if String.eqb mode "calc_att" then
    match arity 1 input with
    | Err e => (Err e, m)
    | Ok _ =>
        match graph_arg input 0 with
        | Err e => (Err e, m)
        | Ok g =>
            match compute_attention m g with
            | (Ok att, m') => (Ok (PyVector att), m')
            | (Err e, m') => (Err e, m')
            end
        end
    end
  else if String.eqb mode "calc_cf_loss" then
    (_ ← arity 8 input;
     g ← graph_arg input 0;
     user_ids ← ids_at input 1;
     item_pos_ids ← ids_at input 2;
     item_neg_ids ← ids_at input 3;
     user_dict ← dict_arg input 4;
     sim_user_dict ← dict_arg input 5;
     item_dict ← dict_arg input 6;
     sim_item_dict ← dict_arg input 7;
     loss ← calc_cf_loss m keep mode g user_ids item_pos_ids item_neg_ids
               user_dict sim_user_dict item_dict sim_item_dict;
     Ok (PyScalar loss), m)
  else if String.eqb mode "calc_kg_loss" then
    (_ ← arity 4 input;
     h ← ids_at input 0;
     r ← ids_at input 1;
     pos_t ← ids_at input 2;
     neg_t ← ids_at input 3;
     loss ← calc_kg_loss m h r pos_t neg_t;
     Ok (PyScalar loss), m)
  else if String.eqb mode "predict" then
    (_ ← arity 7 input;
     g ← graph_arg input 0;
     user_ids ← ids_at input 1;
     item_ids ← ids_at input 2;
     user_dict ← dict_arg input 3;
     sim_user_dict ← dict_arg input 4;
     sim_item_dict ← dict_arg input 5;
     item_dict ← dict_arg input 6;
     score ← cf_score m keep mode g user_ids item_ids
                user_dict sim_user_dict sim_item_dict item_dict;
     Ok (PyMatrix score), m)
  else (Ok PyNone, m).

(** ** Concrete inputs used by the examples below *)

(** An initialiser that fills every parameter with ones. *)
Definition ones_init : initializer :=
  {| init_weight := fun _ r c => replicate r (replicate c (Fin 1));
     init_bias := fun _ n => replicate n (Fin 1);
     init_weight3 := fun _ k r c => replicate k (replicate r (replicate c (Fin 1))) |}.

(** A configuration without propagation layers whose entity embeddings
    have width 176. *)
Definition example_args : Args :=
  {| args_use_pretrain := 0;
     args_entity_dim := 176;
     args_relation_dim := 2;
     args_aggregation_type := "bi-interaction";
     args_conv_dim_list := [];
     args_mess_dropout := [];
     args_kg_l2loss_lambda := Fin 0;
     args_cf_l2loss_lambda := Fin 0 |}.

(** The model [KGAT(example_args, n_users=1, n_entities=2, n_relations=1)]
    that [ones_init] produces. *)
Definition example_model : KGAT :=
  {| use_pretrain := 0;
     n_users := 1;
     n_entities := 2;
     n_relations := 1;
     entity_dim := 176;
     relation_dim := 2;
     aggregation_type := "bi-interaction";
     conv_dim_list := [176];
     mess_dropout := [];
     n_layers := 0;
     kg_l2loss_lambda := Fin 0;
     cf_l2loss_lambda := Fin 0;
     relation_embed := init_weight ones_init "relation_embed.weight" 1 2;
     entity_embed := init_weight ones_init "entity_embed.weight" 2 176;
     W_R := init_weight3 ones_init "W_R" 1 176 2;
     aggregator_layers := [];
     user_encoder := make_encoder (scope "user_encoder." ones_init);
     item_encoder := make_encoder (scope "item_encoder." ones_init);
     W_r := None;
     training := true |}.

(** ** The attention score in the words of the specification *)

(** Section 4.1: "project source ("tail") and destination ("head") entity
    embeddings through W_r; compute score = dot(projected_tail,
    tanh(projected_head + relation_embedding))". *)
Definition project (d : nat) (W_r : mat) (x : vec) : vec := vecmat d x W_r.

Definition spec_att_score (d : nat) (W_r : mat) (relation_embedding tail head : vec)
    : float :=
  dot (project d W_r tail)
      (fmap ftanh (vadd (project d W_r head) relation_embedding)).

(** The score of edge [e] of graph [g], from the tables of the model. *)
Definition edge_score (m : KGAT) (g : DGLGraph) (e : edge) : float :=
  spec_att_score (relation_dim m)
    (W_R m !!! etype e) (relation_embed m !!! etype e)
    (entity_embed m !!! (ndata_id g !!! src e))
    (entity_embed m !!! (ndata_id g !!! dst e)).

(** The edge field 'att' of a graph, as [apply_edges] sees it. *)
Definition col_of (g : DGLGraph) : list float :=
  default (replicate (length (edges g)) zero) (edata_att g).

(** Both end nodes of the edge exist and carry ids of embedded entities. *)
Definition edge_in_range (m : KGAT) (g : DGLGraph) (e : edge) : Prop :=
  ∃ tail_id head_id,
    ndata_id g !! src e = Some tail_id ∧ ndata_id g !! dst e = Some head_id
    ∧ tail_id < length (entity_embed m) ∧ head_id < length (entity_embed m).

(** What the constructor guarantees about the relation tables, and what a
    DGL graph guarantees about an existing edge field. *)
Record attention_input_ok (m : KGAT) (g : DGLGraph) : Prop := {
  W_R_length : length (W_R m) = n_relations m;
  relation_embed_length : length (relation_embed m) = n_relations m;
  edges_in_range :
    Forall (fun e => etype e < n_relations m → edge_in_range m g e) (edges g);
  att_length : ∀ col, edata_att g = Some col → length col = length (edges g)
}.

(** The graph of the specification's scenario: nodes A, B, C (entities 0, 1,
    2) and the edges A -> C and B -> C of relation 0. *)
Definition scenario_graph : DGLGraph :=
  {| ndata_id := [0; 1; 2];
     edges := [mkEdge 0 2 0; mkEdge 1 2 0];
     edata_att := None |}.

(** A model with three entities and one relation, all of dimension 2. *)
Definition scenario_model : KGAT :=
  {| use_pretrain := 0;
     n_users := 0;
     n_entities := 3;
     n_relations := 1;
     entity_dim := 2;
     relation_dim := 2;
     aggregation_type := "gcn";
     conv_dim_list := [2];
     mess_dropout := [];
     n_layers := 0;
     kg_l2loss_lambda := Fin 0;
     cf_l2loss_lambda := Fin 0;
     relation_embed := [[Fin 1; Fin 0]];
     entity_embed := [[Fin 1; Fin 0]; [Fin 0; Fin 1]; [Fin 1; Fin 1]];
     W_R := [[[Fin 1; Fin 0]; [Fin 0; Fin 1]]];
     aggregator_layers := [];
     user_encoder := make_encoder (scope "user_encoder." ones_init);
     item_encoder := make_encoder (scope "item_encoder." ones_init);
     W_r := None;
     training := false |}.

(** Every entry of every parameter of the attention scorer is a finite
    number. *)
Record finite_parameters (m : KGAT) : Prop := {
  entity_embed_finite : Forall (Forall is_finite) (entity_embed m);
  relation_embed_finite : Forall (Forall is_finite) (relation_embed m);
  W_R_finite : Forall (Forall (Forall is_finite)) (W_R m)
}.

(** The sum of the attention weights on the edges that enter node [v]. *)
Definition incoming_attention (g : DGLGraph) (att : list float) (v : nat) : float :=
  vsum (omap (fun k => att !! k) (in_edges g v)).

(** The sum of a list of real numbers. *)
Definition Rsum (l : list R) : R := foldr Rplus 0%R l.

(** The initialiser returns tensors of the shape it is asked for. *)
Record initializer_ok (rng : initializer) : Prop := {
  init_weight_rows : ∀ name r c, length (init_weight rng name r c) = r;
  init_weight_cols :
    ∀ name r c, Forall (fun row => length row = c) (init_weight rng name r c);
  init_bias_length : ∀ name n, length (init_bias rng name n) = n
}.

(** A 2-D tensor all of whose rows have width [d]. *)
Definition has_width (d : nat) (x : mat) : Prop := Forall (fun row => length row = d) x.

(** The shape of the accumulated sum: nothing yet, or a tensor of shape
    (1, d) for users and (d) for items. *)
Definition user_accum_shape (d : nat) (a : accum mat) : Prop :=
  match a with
  | Int0 => True
  | Acc s _ => has_width d s ∧ length s = 1
  end.

Definition item_accum_shape (d : nat) (a : accum vec) : Prop :=
  match a with
  | Int0 => True
  | Acc s _ => length s = d
  end.

(** A linear layer whose output has width [d]. *)
Definition linear_out_width (d : nat) (L : Linear) : Prop :=
  length (weight L) = d
  ∧ match bias L with Some b => length b = d | None => True end.

(** An aggregator all of whose linear layers have output width [d]. *)
Definition aggregator_out_width (a : Aggregator) (d : nat) : Prop :=
  match W a with Some L => linear_out_width d L | None => True end
  ∧ match W1 a with Some L => linear_out_width d L | None => True end
  ∧ match W2 a with Some L => linear_out_width d L | None => True end.

(** A configuration with one propagation layer: 175 + 1 = 176. *)
Definition layered_args : Args :=
  {| args_use_pretrain := 0;
     args_entity_dim := 175;
     args_relation_dim := 2;
     args_aggregation_type := "bi-interaction";
     args_conv_dim_list := [1];
     args_mess_dropout := [(1 / 10)%R];
     args_kg_l2loss_lambda := Fin 0;
     args_cf_l2loss_lambda := Fin 0 |}.

(** The model [KGAT(layered_args, n_users=1, n_entities=2, n_relations=1)]
    that [ones_init] produces. *)
Definition layered_model : KGAT :=
  {| use_pretrain := 0;
     n_users := 1;
     n_entities := 2;
     n_relations := 1;
     entity_dim := 175;
     relation_dim := 2;
     aggregation_type := "bi-interaction";
     conv_dim_list := [175; 1];
     mess_dropout := [(1 / 10)%R];
     n_layers := 1;
     kg_l2loss_lambda := Fin 0;
     cf_l2loss_lambda := Fin 0;
     relation_embed := init_weight ones_init "relation_embed.weight" 1 2;
     entity_embed := init_weight ones_init "entity_embed.weight" 2 175;
     W_R := init_weight3 ones_init "W_R" 1 175 2;
     aggregator_layers :=
       [ mkAggregator 175 1 (1 / 10)%R "bi-interaction" (mkDropout (1 / 10)%R)
           None
           (Some (nn_Linear (scope "0." (scope "aggregator_layers." ones_init))
                    "W1" 175 1 true))
           (Some (nn_Linear (scope "0." (scope "aggregator_layers." ones_init))
                    "W2" 175 1 true)) ];
     user_encoder := make_encoder (scope "user_encoder." ones_init);
     item_encoder := make_encoder (scope "item_encoder." ones_init);
     W_r := None;
     training := true |}.

(** Two nodes, one edge between them, with its attention weight. *)
Definition two_node_graph : DGLGraph :=
  {| ndata_id := [0; 1];
     edges := [mkEdge 0 1 0];
     edata_att := Some [Fin 1] |}.

(** The scenario graph with a third edge whose label is not a relation of
    the model, and an edge field left by an earlier pass. *)
Definition stale_graph : DGLGraph :=
  {| ndata_id := [0; 1; 2];
     edges := [mkEdge 0 2 0; mkEdge 1 2 0; mkEdge 0 1 5];
     edata_att := Some [Fin 3; Fin 4; Fin 5] |}.

(** The graph without its edge field 'att'. *)
Definition without_att (g : DGLGraph) : DGLGraph :=
  mkGraph (ndata_id g) (edges g) None.

(** The initialiser returns a stack of as many matrices as it is asked
    for. *)
Definition init_weight3_ok (rng : initializer) : Prop :=
  ∀ name k r c, length (init_weight3 rng name k r c) = k.

(** A dropout rate [nn.Dropout] accepts. *)
Definition valid_rate (p : R) : Prop := (0 <= p <= 1)%R.

(** The three aggregation schemes. *)
Definition valid_scheme (scheme : string) : Prop :=
  scheme ∈ ["gcn"; "graphsage"; "bi-interaction"].

(** Two ids of an interaction dictionary whose lists share an entry. *)
Definition common_entry (i_dict : gmap nat (list nat)) (a b : nat) : Prop :=
  ∃ la lb x, i_dict !! a = Some la ∧ i_dict !! b = Some lb ∧ x ∈ la ∧ x ∈ lb.

(** The state of the accumulators of [get_item_embed] between two rounds of
    the inner loop: still the int 0, or a finite sum of width [d] and a
    non-negative weight, the sum being zero while the weight is. *)
Definition accum_ok (d : nat) (a : accum vec) : Prop :=
  match a with
  | Int0 => True
  | Acc s n =>
      length s = d ∧ Forall is_finite s
      ∧ ∃ x : R, n = Fin x ∧ (0 <= x)%R ∧ (x = 0%R → s = replicate d (Fin 0))
  end.

Definition accum_pos {T} (a : accum T) : Prop :=
  match a with
  | Int0 => False
  | Acc _ n => ∃ x : R, n = Fin x ∧ (0 < x)%R
  end.

(** The accumulators of [get_user_cf_embed] hold a (1, d) tensor where those
    of [get_item_embed] hold a 1-D tensor. *)
Definition row_accum (a : accum vec) : accum mat :=
  match a with
  | Int0 => Int0
  | Acc s n => Acc [s] n
  end.

(** Two sizes that broadcast along a dimension: equal, or one of them 1. *)
Definition broadcastable (a b : nat) : Prop := a = b ∨ a = 1 ∨ b = 1.

(** A stack of aggregator layers as the loop of [__init__] builds it: layer
    k was constructed for the input width that is the output width of layer
    k - 1, the first one for [d_in]; [dims] are the output widths. *)
Fixpoint built_chain (d_in : nat) (layers : list Aggregator) (dims : list nat) : Prop :=
  match layers, dims with
  | [], [] => True
  | a :: layers', d :: dims' =>
      (∃ rng p scheme, initializer_ok rng ∧ Aggregator_init rng d_in d p scheme = Ok a)
      ∧ built_chain d layers' dims'
  | _, _ => False
  end.

(** ** The arithmetic of the code in IEEE-754 binary32

    The embedding above computes on exact real numbers.  This module
    replays the arithmetic of [get_user_cf_embed] and of [calc_kg_loss] as
    torch performs it: tensors hold binary32 numbers, Python floats are
    binary64 numbers, every operation rounds to nearest-even and overflows
    to an infinity, and a Python float that meets a tensor is first
    rounded to binary32.  Reductions accumulate from the left; on the
    inputs used below no reduction rounds a sum of two terms, so that their
    order does not matter.  [F.logsigmoid] is a function of the C library;
    the replay leaves it open. *)
Module Binary32.
Import SpecFloat.

Abbreviation f32 := spec_float.
Abbreviation f64 := spec_float.

Definition prec : Z := 24.
Definition emax : Z := 128.
Definition prec64 : Z := 53.
Definition emax64 : Z := 1024.

Definition add (x y : f32) : f32 := SFadd prec emax x y.
Definition sub (x y : f32) : f32 := SFsub prec emax x y.
Definition mul (x y : f32) : f32 := SFmul prec emax x y.
Definition div (x y : f32) : f32 := SFdiv prec emax x y.
Definition lt (x y : f32) : bool := SFltb x y.

(** The binary32 number nearest to [m * 2^e]. *)
Definition b32 (m e : Z) : f32 := binary_normalize prec emax m e false.
Definition of_nat (n : nat) : f32 := b32 (Z.of_nat n) 0.
Definition zero : f32 := S754_zero false.
Definition inf : f32 := S754_infinity false.

(** Python floats *)
Definition add64 (x y : f64) : f64 := SFadd prec64 emax64 x y.
Definition div64 (x y : f64) : f64 := SFdiv prec64 emax64 x y.
Definition of_int64 (n : Z) : f64 := binary_normalize prec64 emax64 n 0 false.
Definition of_nat64 (n : nat) : f64 := of_int64 (Z.of_nat n).

(** A Python float as the scalar operand of a binary32 tensor operation. *)
Definition to_f32 (x : f64) : f32 :=
  match x with
  | S754_finite s m e => binary_normalize prec emax (cond_Zopp s (Zpos m)) e s
  | _ => x
  end.

(** *** Tensors *)

Definition width (embed : list (list f32)) : nat :=
  match embed with
  | [] => 0
  | row :: _ => length row
  end.

Definition vscale (c : f32) (v : list f32) : list f32 := fmap (mul c) v.
Definition vdivs (v : list f32) (c : f32) : list f32 := fmap (fun x => div x c) v.
Definition vadd (u v : list f32) : list f32 := zip_with add u v.
Definition vsub (u v : list f32) : list f32 := zip_with sub u v.
Definition vadd0 (v : list f32) : list f32 := fmap (add zero) v.
Definition vsquare (v : list f32) : list f32 := fmap (fun a => mul a a) v.
Definition mscale (c : f32) (a : list (list f32)) : list (list f32) := fmap (vscale c) a.
Definition mdivs (a : list (list f32)) (c : f32) : list (list f32) :=
  fmap (fun v => vdivs v c) a.
Definition madd (a b : list (list f32)) : list (list f32) := zip_with vadd a b.
Definition madd0 (a : list (list f32)) : list (list f32) := fmap vadd0 a.

Definition vsum (v : list f32) : f32 := foldl add zero v.
Definition vmean (v : list f32) : f32 := div (vsum v) (of_nat (length v)).
Definition sum_rows (d : nat) (rows : list (list f32)) : list f32 :=
  foldl vadd (replicate d zero) rows.
Definition vecmat (d : nat) (x : list f32) (M : list (list f32)) : list f32 :=
  sum_rows d (zip_with vscale x M).

(** *** [calk_sim], [get_user_kg_embed], [get_user_cf_embed] *)

(** [inter/all] is the true division of two Python ints. *)
Definition calk_sim (idx sim_idx : nat) (i_dict : gmap nat (list nat)) : result f64 :=
  staffs ← of_option KeyError (i_dict !! idx);
  staffs2 ← of_option KeyError (i_dict !! sim_idx);
  let all := size ((list_to_set staffs : gset nat) ∪ list_to_set staffs2) in
  let inter := size ((list_to_set staffs : gset nat) ∩ list_to_set staffs2) in
  if decide (all = 0) then Err ZeroDivisionError
  else Ok (div64 (of_nat64 inter) (of_nat64 all)).

(** The scalar branch of [get_user_kg_embed]:
    [(torch.sum(embed[items], dim=0) / len(items)).view(1, -1)]. *)
Definition get_user_kg_embed (embed : list (list f32)) (uid : nat)
    (user_dict : gmap nat (list nat)) : result (list (list f32)) :=
  interacted_item_list ← of_option KeyError (user_dict !! uid);
  rows ← mapM_result (fun i => of_option IndexError (embed !! i)) interacted_item_list;
  Ok [vdivs (sum_rows (width embed) rows) (of_nat (length interacted_item_list))].

(** The two accumulators of the inner loop: the Python int 0, or a tensor
    and a Python float. *)
Inductive accum : Type :=
  | Int0
  | Acc (sum : list (list f32)) (norm : f64).

(** [sim_user_embed += sim * kg; norm += sim] *)
Definition accumulate (a : accum) (sim : f64) (kg : list (list f32)) : accum :=
  let term := mscale (to_f32 sim) kg in
  match a with
  | Int0 => Acc (madd0 term) (add64 (of_nat64 0) sim)
  | Acc s n => Acc (madd s term) (add64 n sim)
  end.

Fixpoint user_sim_loop (embed : list (list f32)) (uid : nat)
    (user_dict : gmap nat (list nat)) (neighbours : list nat) (a : accum)
    : result accum :=
  match neighbours with
  | [] => Ok a
  | sim_user :: rest =>
      sim ← calk_sim uid sim_user user_dict;
      kg ← get_user_kg_embed embed sim_user user_dict;
      user_sim_loop embed uid user_dict rest (accumulate a sim kg)
  end.

(** One round of the outer loop of [get_user_cf_embed]:
    [sim_user_embed / norm]. *)
Definition user_cf_row (embed : list (list f32)) (uid : nat)
    (user_dict sim_user_dict : gmap nat (list nat)) : result (list (list f32)) :=
  neighbours ← of_option KeyError (sim_user_dict !! uid);
  a ← user_sim_loop embed uid user_dict neighbours Int0;
  match a with
  | Int0 => Err ZeroDivisionError
  | Acc s n => Ok (mdivs s (to_f32 n))
  end.

(** *** [calc_kg_loss] *)

Record params : Type := mkParams {
  relation_embed : list (list f32);
  entity_embed : list (list f32);
  W_R : list (list (list f32));
  relation_dim : nat;
  kg_l2loss_lambda : f64
}.

Definition _L2_loss_mean (x : list (list f32)) : f32 :=
  vmean (fmap (fun row => div (vsum (vsquare row)) (of_nat 2)) x).

Definition bmm_rows (d : nat) (x : list (list f32)) (W : list (list (list f32)))
    : result (list (list f32)) :=
  if decide (length x = length W) then Ok (zip_with (vecmat d) x W)
  else Err RuntimeError.

Definition transr_score (r_mul_h r_embed r_mul_t : list (list f32)) : list f32 :=
  fmap (fun row => vsum (vsquare row))
       (zip_with vsub (zip_with vadd r_mul_h r_embed) r_mul_t).

(** The scores [pos_score] and [neg_score] of [calc_kg_loss], for the tails
    [t]. *)
Definition kg_score (p : params) (h r t : list nat) : result (list f32) :=
  r_embed ← mapM_result (fun i => of_option IndexError (relation_embed p !! i)) r;
  W_r ← mapM_result (fun i => of_option IndexError (W_R p !! i)) r;
  h_embed ← mapM_result (fun i => of_option IndexError (entity_embed p !! i)) h;
  t_embed ← mapM_result (fun i => of_option IndexError (entity_embed p !! i)) t;
  r_mul_h ← bmm_rows (relation_dim p) h_embed W_r;
  r_mul_t ← bmm_rows (relation_dim p) t_embed W_r;
  Ok (transr_score r_mul_h r_embed r_mul_t).

Definition calc_kg_loss (logsigmoid : f32 → f32) (p : params)
    (h r pos_t neg_t : list nat) : result f32 :=
  r_embed ← mapM_result (fun i => of_option IndexError (relation_embed p !! i)) r;
  W_r ← mapM_result (fun i => of_option IndexError (W_R p !! i)) r;
  h_embed ← mapM_result (fun i => of_option IndexError (entity_embed p !! i)) h;
  pos_t_embed ← mapM_result (fun i => of_option IndexError (entity_embed p !! i)) pos_t;
  neg_t_embed ← mapM_result (fun i => of_option IndexError (entity_embed p !! i)) neg_t;
  r_mul_h ← bmm_rows (relation_dim p) h_embed W_r;
  r_mul_pos_t ← bmm_rows (relation_dim p) pos_t_embed W_r;
  r_mul_neg_t ← bmm_rows (relation_dim p) neg_t_embed W_r;
  let pos_score := transr_score r_mul_h r_embed r_mul_pos_t in
  let neg_score := transr_score r_mul_h r_embed r_mul_neg_t in
  let kg_loss :=
    fmap (fun x => mul (b32 (-1) 0) (logsigmoid x)) (zip_with sub neg_score pos_score) in
  let kg_loss := vmean kg_loss in
  let l2_loss :=
    add (add (add (_L2_loss_mean r_mul_h) (_L2_loss_mean r_embed))
             (_L2_loss_mean r_mul_pos_t))
        (_L2_loss_mean r_mul_neg_t) in
  Ok (add kg_loss (mul (to_f32 (kg_l2loss_lambda p)) l2_loss)).

(** *** Inputs *)

(** Three items with one-dimensional embeddings 1, 7 and 1. *)
Definition three_items : list (list f32) := [[b32 1 0]; [b32 7 0]; [b32 1 0]].


End Binary32.

(** * Properties *)

(** ** The error monad *)

Lemma bind_Ok {A B} (f : A → result B) (c : result A) (b : B) :
  c ≫= f = Ok b ↔ ∃ a, c = Ok a ∧ f a = Ok b.
Proof.
  destruct c as [a|e]; simpl.
  - split; [eauto | intros (a' & [= <-] & H); exact H].
  - split; [discriminate | intros (a' & [=] & _)].
Qed.

Lemma mapM_result_Ok {A B} (f : A → result B) (g : A → B) (l : list A) :
  Forall (fun x => f x = Ok (g x)) l → mapM_result f l = Ok (g <$> l).
Proof.
  induction 1 as [|x l Hx _ IH]; simpl; [done|].
  by rewrite Hx; simpl; rewrite IH.
Qed.

Lemma mapM_result_length {A B} (f : A → result B) (l : list A) (ys : list B) :
  mapM_result f l = Ok ys → length ys = length l.
Proof.
  revert ys; induction l as [|x l IH]; simpl; intros ys H.
  - by injection H as <-.
  - destruct (f x) as [y|]; [simpl in H|done].
    destruct (mapM_result f l) as [ys'|]; [simpl in H|done].
    injection H as <-. simpl. by rewrite (IH ys').
Qed.

Lemma mapM_result_Forall2 {A B} (f : A → result B) (l : list A) (ys : list B) :
  mapM_result f l = Ok ys → Forall2 (fun x y => f x = Ok y) l ys.
Proof.
  revert ys; induction l as [|x l IH]; simpl; intros ys H.
  - injection H as <-. constructor.
  - destruct (f x) as [y|] eqn:Hy; [simpl in H|done].
    destruct (mapM_result f l) as [ys'|]; [simpl in H|done].
    injection H as <-. constructor; [done|by apply IH].
Qed.

(** The first failing element decides the exception. *)
Lemma mapM_result_Err {A B} (f : A → result B) (pre post : list A) (x : A) (e : exn) :
  Forall (fun y => is_ok (f y) = true) pre → f x = Err e →
  mapM_result f (pre ++ x :: post) = Err e.
Proof.
  induction 1 as [|y pre Hy _ IH]; simpl; intros Hx.
  - by rewrite Hx.
  - destruct (f y); [simpl|done]. by rewrite IH.
Qed.

(** ** C8: an unknown aggregation scheme *)

(** C8.  Constructing an aggregator with a scheme name outside
    gcn, graphsage, bi-interaction never yields an aggregator: the
    constructor raises, so no forward computation can follow.  The exception
    is [NotImplementedError], the failure the specification names
    ConfigurationError, unless the dropout rate is outside [0, 1], which
    makes [nn.Dropout] raise [ValueError] even before the scheme is
    looked at. *)
Theorem Aggregator_init_unknown_scheme (rng : initializer) (in_dim out_dim : nat)
    (p : R) (scheme : string) :
  scheme ∉ ["gcn"; "graphsage"; "bi-interaction"] →
  is_ok (Aggregator_init rng in_dim out_dim p scheme) = false
  ∧ (Aggregator_init rng in_dim out_dim p scheme = Err NotImplementedError
     ∨ (Aggregator_init rng in_dim out_dim p scheme = Err ValueError
        ∧ ¬ (0 <= p <= 1)%R))
  ∧ classify NotImplementedError = ConfigurationError.
Proof.
  intros Hs.
  assert (String.eqb scheme "gcn" = false
          ∧ String.eqb scheme "graphsage" = false
          ∧ String.eqb scheme "bi-interaction" = false) as (H1 & H2 & H3).
  { repeat split; apply String.eqb_neq; intros ->; apply Hs; set_solver. }
  unfold Aggregator_init, nn_Dropout.
  destruct (Rlt_dec p 0) as [Hlo|Hlo].
  { split; [done|]. split; [|done]. right. split; [done|lra]. }
  destruct (Rlt_dec 1 p) as [Hhi|Hhi].
  { split; [done|]. split; [|done]. right. split; [done|lra]. }
  simpl. rewrite H1, H2, H3. split; [done|]. split; [by left|done].
Qed.

Lemma Aggregator_init_unknown_scheme_witness :
  Aggregator_init ones_init 64 32 (1 / 10)%R "mean" = Err NotImplementedError
  ∧ classify NotImplementedError = ConfigurationError.
Proof.
  assert ("mean" ∉ ["gcn"; "graphsage"; "bi-interaction"]) as Hs.
  { rewrite !elem_of_cons, elem_of_nil. intros [H|[H|[H|[]]]]; discriminate H. }
  destruct (Aggregator_init_unknown_scheme ones_init 64 32 (1 / 10)%R "mean" Hs)
    as (_ & [H|[_ Hbad]] & Hc).
  - by split.
  - exfalso. apply Hbad. lra.
Defined.

(** ** C10: an unknown mode of [forward] *)

(** C10.  Called with a mode string outside calc_att, calc_cf_loss,
    calc_kg_loss, predict, [forward] returns None, raises nothing, calls
    none of the four computations and leaves the model unchanged, whatever
    the other arguments are. *)
Theorem forward_unknown_mode (m : KGAT) (keep : nat → nat → nat → bool)
    (mode : string) (input : list pyarg) :
  mode ∉ ["calc_att"; "calc_cf_loss"; "calc_kg_loss"; "predict"] →
  forward m keep mode input = (Ok PyNone, m).
Proof.
  intros Hs.
  assert (String.eqb mode "calc_att" = false
          ∧ String.eqb mode "calc_cf_loss" = false
          ∧ String.eqb mode "calc_kg_loss" = false
          ∧ String.eqb mode "predict" = false) as (H1 & H2 & H3 & H4).
  { repeat split; apply String.eqb_neq; intros ->; apply Hs; set_solver. }
  unfold forward. by rewrite H1, H2, H3, H4.
Qed.

Lemma forward_unknown_mode_witness :
  forward example_model (fun _ _ _ => true) "train" [ArgIds [0]] = (Ok PyNone, example_model).
Proof.
  apply forward_unknown_mode.
  rewrite !elem_of_cons, elem_of_nil. intros [H|[H|[H|[H|[]]]]]; discriminate H.
Defined.

Example example_model_init :
  KGAT_init ones_init example_args 1 2 1 None None = Ok example_model.
Proof. reflexivity. Qed.

(** ** C4: an empty similarity-neighbour list *)

(** C4.  When the similarity-neighbour list of an id is empty, the loop
    over its neighbours leaves both accumulators at the int 0 and the
    normalisation [0 / 0] raises [ZeroDivisionError], an [ArithmeticError]:
    the row of that user (of that item) is never a NaN tensor.  In a batch
    whose earlier ids are processed without exception, that exception is the
    outcome of [get_user_cf_embed] and of [get_item_embed]. *)
Theorem empty_neighbour_list_raises (m : KGAT) (embed : mat) (id : nat)
    (i_dict sim_dict : gmap nat (list nat)) (pre post : list nat) :
  sim_dict !! id = Some [] →
  Forall (fun u => is_ok (user_cf_row embed u i_dict sim_dict) = true) pre →
  Forall (fun i => is_ok (item_cf_row embed i sim_dict i_dict) = true) pre →
  is_ok (index_rows embed (pre ++ id :: post)) = true →
  user_cf_row embed id i_dict sim_dict = Err ZeroDivisionError
  ∧ item_cf_row embed id sim_dict i_dict = Err ZeroDivisionError
  ∧ get_user_cf_embed embed (pre ++ id :: post) i_dict sim_dict = Err ZeroDivisionError
  ∧ get_item_embed m embed (pre ++ id :: post) sim_dict i_dict = Err ZeroDivisionError
  ∧ classify ZeroDivisionError = ArithmeticError.
Proof.
  intros Hid Hu Hi Hrows.
  assert (user_cf_row embed id i_dict sim_dict = Err ZeroDivisionError) as Hur.
  { unfold user_cf_row. by rewrite Hid. }
  assert (item_cf_row embed id sim_dict i_dict = Err ZeroDivisionError) as Hir.
  { unfold item_cf_row. by rewrite Hid. }
  repeat split; try done.
  - unfold get_user_cf_embed.
    by rewrite (mapM_result_Err _ pre post id ZeroDivisionError Hu Hur).
  - unfold get_item_embed.
    destruct (index_rows embed (pre ++ id :: post)); [simpl|done].
    by rewrite (mapM_result_Err _ pre post id ZeroDivisionError Hi Hir).
Qed.

Lemma empty_neighbour_list_raises_witness :
  user_cf_row [[Fin 1]; [Fin 2]] 1 {[0 := [0]; 1 := [0]]} {[0 := [1]; 1 := []]}
    = Err ZeroDivisionError
  ∧ item_cf_row [[Fin 1]; [Fin 2]] 1 {[0 := [1]; 1 := []]} {[0 := [0]; 1 := [0]]}
    = Err ZeroDivisionError
  ∧ get_user_cf_embed [[Fin 1]; [Fin 2]] ([0] ++ 1 :: [0])
      {[0 := [0]; 1 := [0]]} {[0 := [1]; 1 := []]} = Err ZeroDivisionError
  ∧ get_item_embed example_model [[Fin 1]; [Fin 2]] ([0] ++ 1 :: [0])
      {[0 := [1]; 1 := []]} {[0 := [0]; 1 := [0]]} = Err ZeroDivisionError
  ∧ classify ZeroDivisionError = ArithmeticError.
Proof.
  apply empty_neighbour_list_raises.
  - reflexivity.
  - repeat constructor.
  - repeat constructor.
  - reflexivity.
Defined.

(** ** Facts about tensor elements *)

Section float_facts.
#[local] Open Scope R_scope.

Lemma sgn_pos (x : R) : 0 < x → sgn x = Pos.
Proof. intros H. unfold sgn. destruct (Rlt_dec 0 x); [done|lra]. Qed.

Lemma sgn_neg (x : R) : x < 0 → sgn x = Neg.
Proof.
  intros H. unfold sgn.
  destruct (Rlt_dec 0 x); [lra|]. destruct (Rlt_dec x 0); [done|lra].
Qed.

Lemma sgn_zero (x : R) : x = 0 → sgn x = Zero.
Proof.
  intros ->. unfold sgn.
  destruct (Rlt_dec 0 0); [lra|]. destruct (Rlt_dec 0 0); [lra|done].
Qed.

Lemma fadd_0_l (a : float) : fadd (Fin 0) a = a.
Proof. destruct a; simpl; try done. f_equal. lra. Qed.

Lemma fdiv_zero_zero (x y : R) : x = 0 → y = 0 → fdiv (Fin x) (Fin y) = NaN.
Proof. intros Hx Hy. simpl. by rewrite (sgn_zero y Hy), (sgn_zero x Hx). Qed.

Lemma fdiv_Fin_pos (x y : R) : 0 < y → fdiv (Fin x) (Fin y) = Fin (x / y).
Proof. intros Hy. simpl. by rewrite (sgn_pos y Hy). Qed.

(** Weighting by a positive finite number and dividing by it again gives
    back every value, special or not. *)
Lemma fdiv_fmul_cancel (s : R) (a : float) :
  0 < s → fdiv (fadd (Fin 0) (fmul (Fin s) a)) (fadd (Fin 0) (Fin s)) = a.
Proof.
  intros Hs. rewrite !fadd_0_l.
  destruct a as [x| | |]; simpl; rewrite ?(sgn_pos s Hs); simpl;
    rewrite ?(sgn_pos s Hs); try done.
  f_equal. field. lra.
Qed.

End float_facts.

(** ** Shapes *)

Lemma vzeros_length (d : nat) : length (vzeros d) = d.
Proof. apply length_replicate. Qed.

Lemma vadd_length (u v : vec) : length u = length v → length (vadd u v) = length u.
Proof. intros H. unfold vadd. rewrite length_zip_with. lia. Qed.

Lemma sum_rows_length (d : nat) (rows : mat) :
  Forall (fun row => length row = d) rows → length (sum_rows d rows) = d.
Proof.
  induction 1 as [|row rows Hrow _ IH]; simpl.
  - apply vzeros_length.
  - rewrite vadd_length; congruence.
Qed.

Lemma vdivs_length (v : vec) (c : float) : length (vdivs v c) = length v.
Proof. apply length_fmap. Qed.

Lemma reshape_concat (k : nat) (rows : mat) :
  Forall (fun row => length row = k) rows →
  reshape (length rows) k (concat rows) = rows.
Proof.
  induction 1 as [|row rows Hrow _ IH]; simpl; [done|].
  rewrite take_app_length', drop_app_length' by done. by rewrite IH.
Qed.

Lemma concat_length_uniform (k : nat) (rows : mat) :
  Forall (fun row => length row = k) rows →
  length (concat rows) = length rows * k.
Proof.
  induction 1 as [|row rows Hrow _ IH]; simpl; [done|].
  rewrite length_app. lia.
Qed.

(** [view(n, -1)] of the concatenation of [n] rows of one width gives the
    rows back. *)
Lemma view_rows_concat (k : nat) (rows : mat) :
  rows ≠ [] → Forall (fun row => length row = k) rows →
  view_rows (length rows) (concat rows) = Ok rows.
Proof.
  intros Hne Hall. unfold view_rows.
  rewrite (concat_length_uniform k rows Hall).
  assert (0 < length rows) by (destruct rows; [done|simpl; lia]).
  replace (length rows * k / length rows) with k
    by (rewrite Nat.mul_comm; symmetry; apply Nat.div_mul; lia).
  destruct (decide (length rows = 0)) as [Hz|_]; [lia|].
  destruct (decide (length rows * k = length rows * k)); [|done].
  by rewrite reshape_concat.
Qed.

Lemma view_rows_one (v : vec) : view_rows 1 v = Ok [v].
Proof.
  unfold view_rows.
  destruct (decide (1 = 0)) as [Hz|_]; [discriminate Hz|].
  rewrite Nat.div_1_r.
  destruct (decide (1 * length v = length v)); [|lia].
  simpl. by rewrite firstn_all.
Qed.

Lemma view_rows_one_inv (v : vec) (x : mat) : view_rows 1 v = Ok x → x = [v].
Proof. intros H. rewrite view_rows_one in H. by injection H as <-. Qed.

(** Evaluating the lookups of concrete dictionaries. *)
Ltac eval_dict_lookup :=
  match goal with
  | |- context [@lookup nat (list nat) (gmap nat (list nat)) ?inst ?k ?d] =>
      let v := eval vm_compute in (@lookup nat (list nat) (gmap nat (list nat)) inst k d) in
      change (@lookup nat (list nat) (gmap nat (list nat)) inst k d) with v
  end.

(** ** C5: a user that is absent, or has no interactions *)

Lemma vdivs_zeros_by_zero (d : nat) : vdivs (vzeros d) (of_nat 0) = replicate d NaN.
Proof.
  unfold vdivs, vzeros. rewrite fmap_replicate. f_equal.
  by apply fdiv_zero_zero.
Qed.

Lemma user_kg_row_absent (embed : mat) (user_dict : gmap nat (list nat)) (uid : nat) :
  user_dict !! uid = None → user_kg_row embed user_dict uid = Err KeyError.
Proof. intros H. unfold user_kg_row. by rewrite H. Qed.

Lemma user_kg_row_empty (embed : mat) (user_dict : gmap nat (list nat)) (uid : nat) :
  user_dict !! uid = Some [] →
  user_kg_row embed user_dict uid = Ok (replicate (width embed) NaN).
Proof.
  intros H. unfold user_kg_row. rewrite H. simpl.
  unfold mean_of_items. simpl. by rewrite vdivs_zeros_by_zero.
Qed.

(** C5, as stated, fails: for a user whose interaction list is empty the
    division by the length 0 is performed, nothing is raised, and the
    user's KG-context embedding is NaN in every position. *)
Lemma empty_interaction_list_no_LookupError :
  ({[7 := []]} : gmap nat (list nat)) !! 7 = Some []
  ∧ get_user_kg_embed [[Fin 1; Fin 2]] (IdTensor [7]) {[7 := []]} = Ok [[NaN; NaN]]
  ∧ get_user_kg_embed [[Fin 1; Fin 2]] (ScalarId 7) {[7 := []]} = Ok [[NaN; NaN]]
  ∧ ∀ e, get_user_kg_embed [[Fin 1; Fin 2]] (IdTensor [7]) {[7 := []]} ≠ Err e.
Proof.
  assert (user_kg_row [[Fin 1; Fin 2]] {[7 := []]} 7 = Ok [NaN; NaN]) as Hrow.
  { by rewrite user_kg_row_empty. }
  assert (get_user_kg_embed [[Fin 1; Fin 2]] (IdTensor [7]) {[7 := []]}
          = Ok [[NaN; NaN]]) as Hbatch.
  { unfold get_user_kg_embed. simpl. by rewrite Hrow. }
  repeat split.
  - exact Hbatch.
  - unfold get_user_kg_embed. by rewrite Hrow.
  - intros e. by rewrite Hbatch.
Qed.

(** C5, amended.  Computing a user's KG-context embedding raises
    [KeyError], a [LookupError], when the user id is absent from the
    interaction dictionary, also in a batch whose earlier users are
    processed without exception.  When the user's interaction list is empty
    nothing is raised: the sum over no rows is divided by the length 0 and
    the user's embedding is NaN in every position. *)
Theorem get_user_kg_embed_absent_or_empty (embed : mat)
    (user_dict : gmap nat (list nat)) (uid : nat) (pre post : list nat) :
  Forall (fun u => is_ok (user_kg_row embed user_dict u) = true) pre →
  0 < width embed →
  match user_dict !! uid with
  | None =>
      get_user_kg_embed embed (ScalarId uid) user_dict = Err KeyError
      ∧ get_user_kg_embed embed (IdTensor (pre ++ uid :: post)) user_dict = Err KeyError
      ∧ classify KeyError = LookupError
  | Some [] =>
      user_kg_row embed user_dict uid = Ok (replicate (width embed) NaN)
      ∧ get_user_kg_embed embed (ScalarId uid) user_dict
        = Ok [replicate (width embed) NaN]
      ∧ get_user_kg_embed embed (IdTensor [uid]) user_dict
        = Ok [replicate (width embed) NaN]
  | Some (_ :: _) => True
  end.
Proof.
  intros Hpre Hw.
  destruct (user_dict !! uid) as [[|i items]|] eqn:Hu; [|done|].
  - pose proof (user_kg_row_empty embed user_dict uid Hu) as Hrow.
    assert (replicate (width embed) NaN ≠ []) as Hne.
    { destruct (width embed); [lia|done]. }
    repeat split; [done| |].
    + unfold get_user_kg_embed. rewrite Hrow. simpl. by apply view_rows_one.
    + unfold get_user_kg_embed. simpl. rewrite Hrow. simpl.
      rewrite app_nil_r. by apply view_rows_one.
  - pose proof (user_kg_row_absent embed user_dict uid Hu) as Hrow.
    repeat split.
    + unfold get_user_kg_embed. by rewrite Hrow.
    + unfold get_user_kg_embed.
      by rewrite (mapM_result_Err _ pre post uid KeyError Hpre Hrow).
Qed.

Lemma get_user_kg_embed_absent_or_empty_witness :
  user_kg_row [[Fin 1; Fin 2]] {[3 := [0]; 7 := []]} 7
    = Ok (replicate (width [[Fin 1; Fin 2]]) NaN)
  ∧ get_user_kg_embed [[Fin 1; Fin 2]] (ScalarId 7) {[3 := [0]; 7 := []]}
    = Ok [replicate (width [[Fin 1; Fin 2]]) NaN]
  ∧ get_user_kg_embed [[Fin 1; Fin 2]] (IdTensor [7]) {[3 := [0]; 7 := []]}
    = Ok [replicate (width [[Fin 1; Fin 2]]) NaN].
Proof.
  assert (Forall (fun u => is_ok (user_kg_row [[Fin 1; Fin 2]] {[3 := [0]; 7 := []]} u) = true)
            [3]) as Hpre by repeat constructor.
  assert (0 < width [[Fin 1; Fin 2]]) as Hw by (simpl; lia).
  exact (get_user_kg_embed_absent_or_empty
           [[Fin 1; Fin 2]] {[3 := [0]; 7 := []]} 7 [3] [7] Hpre Hw).
Defined.

Example get_user_kg_embed_absent :
  get_user_kg_embed [[Fin 1; Fin 2]] (ScalarId 5) {[3 := [0]; 7 := []]} = Err KeyError
  ∧ get_user_kg_embed [[Fin 1; Fin 2]] (IdTensor ([3] ++ 5 :: [7])) {[3 := [0]; 7 := []]}
    = Err KeyError.
Proof.
  assert (user_kg_row [[Fin 1; Fin 2]] {[3 := [0]; 7 := []]} 5 = Err KeyError) as Hrow
    by (by apply user_kg_row_absent).
  split; unfold get_user_kg_embed.
  - by rewrite Hrow.
  - rewrite (mapM_result_Err (user_kg_row [[Fin 1; Fin 2]] {[3 := [0]; 7 := []]})
               [3] [7] 5 KeyError); [done|repeat constructor|exact Hrow].
Qed.

(** ** C6: a single similarity neighbour *)

#[local] Arguments get_user_kg_embed : simpl never.
#[local] Arguments user_kg_row : simpl never.
#[local] Arguments calk_sim : simpl never.
#[local] Arguments view_rows : simpl never.

Lemma mdivs_madd0_mscale_cancel (s : R) (kg : mat) :
  (0 < s)%R →
  mdivs (madd0 (mscale (Fin s) kg)) (fadd (Fin 0) (Fin s)) = kg.
Proof.
  intros Hs. unfold mdivs, madd0, mscale, vdivs, vadd0, vscale.
  rewrite <- !list_fmap_compose.
  rewrite <- (list_fmap_id kg) at 2.
  apply list_fmap_ext. intros _ row _. simpl.
  rewrite <- !list_fmap_compose.
  rewrite <- (list_fmap_id row) at 2.
  apply list_fmap_ext. intros _ a _. simpl.
  by apply fdiv_fmul_cancel.
Qed.

(** Two interaction lists with a common item have a positive Jaccard
    similarity. *)
Lemma calk_sim_common_item (idx sim_idx item : nat) (i_dict : gmap nat (list nat))
    (staffs staffs2 : list nat) :
  i_dict !! idx = Some staffs → i_dict !! sim_idx = Some staffs2 →
  item ∈ staffs → item ∈ staffs2 →
  ∃ s : R, (0 < s)%R ∧ calk_sim idx sim_idx i_dict = Ok (Fin s).
Proof.
  intros H1 H2 Hi1 Hi2. unfold calk_sim. rewrite H1, H2. simpl.
  set (union := (list_to_set staffs : gset nat) ∪ list_to_set staffs2).
  set (inter := (list_to_set staffs : gset nat) ∩ list_to_set staffs2).
  assert (item ∈ inter) as Hinter.
  { apply elem_of_intersection. by rewrite !elem_of_list_to_set. }
  assert (item ∈ union) as Hunion.
  { apply elem_of_union. left. by rewrite elem_of_list_to_set. }
  assert (size inter ≠ 0) as HIn.
  { apply size_non_empty_iff. intros HE. rewrite HE in Hinter. set_solver. }
  assert (size union ≠ 0) as HUn.
  { apply size_non_empty_iff. intros HE. rewrite HE in Hunion. set_solver. }
  destruct (decide (size union = 0)); [done|].
  eexists; split; [|reflexivity].
  apply Rdiv_lt_0_compat; apply lt_0_INR; lia.
Qed.

(** A single neighbour that shares no item with the user has Jaccard
    weight 0: the fused row is 0/0 = NaN in every position and differs from
    the neighbour's KG-context embedding. *)
Lemma single_disjoint_neighbour_gives_nan :
  ({[0 := [1]]} : gmap nat (list nat)) !! 0 = Some [1]
  ∧ user_cf_row [[Fin 1]; [Fin 2]] 0 {[0 := [0]; 1 := [1]]} {[0 := [1]]} = Ok [[NaN]]
  ∧ get_user_kg_embed [[Fin 1]; [Fin 2]] (ScalarId 1) {[0 := [0]; 1 := [1]]} = Ok [[Fin 2]]
  ∧ user_cf_row [[Fin 1]; [Fin 2]] 0 {[0 := [0]; 1 := [1]]} {[0 := [1]]}
    ≠ get_user_kg_embed [[Fin 1]; [Fin 2]] (ScalarId 1) {[0 := [0]; 1 := [1]]}.
Proof.
  assert (calk_sim 0 1 {[0 := [0]; 1 := [1]]} = Ok (Fin (INR 0 / INR 2))) as Hsim
    by reflexivity.
  assert (get_user_kg_embed [[Fin 1]; [Fin 2]] (ScalarId 1) {[0 := [0]; 1 := [1]]}
          = Ok [[Fin 2]]) as Hkg.
  { unfold get_user_kg_embed, user_kg_row, mean_of_items.
    eval_dict_lookup. simpl. rewrite (sgn_pos 1) by lra.
    rewrite view_rows_one by done. do 4 f_equal. lra. }
  assert (user_cf_row [[Fin 1]; [Fin 2]] 0 {[0 := [0]; 1 := [1]]} {[0 := [1]]}
          = Ok [[NaN]]) as Hcf.
  { unfold user_cf_row.
    eval_dict_lookup. cbn -[get_user_kg_embed calk_sim fdiv fmul fadd].
    rewrite Hsim. cbn -[get_user_kg_embed calk_sim fdiv fmul fadd].
    rewrite Hkg. cbn -[fdiv].
    rewrite fdiv_zero_zero; [done|lra|lra]. }
  repeat split; [done|done|].
  rewrite Hcf, Hkg. discriminate.
Qed.

(** A single neighbour that shares one of the three items of the user has
    weight 1/3.  In binary32 the product by the weight and the division by
    it do not cancel: from the neighbour's embedding 7 the fused row is
    7.000000476837158, the next binary32 number after 7. *)
Lemma single_neighbour_rounds :
  Binary32.calk_sim 0 1 {[0 := [0; 1; 2]; 1 := [1]]}
    = Ok (Binary32.div64 (Binary32.of_int64 1) (Binary32.of_int64 3))
  ∧ Binary32.user_cf_row Binary32.three_items 0 {[0 := [0; 1; 2]; 1 := [1]]} {[0 := [1]]}
    = Ok [[Binary32.b32 14680065 (-21)]]
  ∧ Binary32.get_user_kg_embed Binary32.three_items 1 {[0 := [0; 1; 2]; 1 := [1]]}
    = Ok [[Binary32.b32 14680064 (-21)]]
  ∧ Binary32.b32 14680064 (-21) = Binary32.b32 7 0
  ∧ Binary32.lt (Binary32.b32 7 0) (Binary32.b32 14680065 (-21)) = true.
Proof. repeat split; vm_compute; reflexivity. Qed.

(** C6, as stated, fails, for two reasons: a neighbour without a common item
    gives NaN, and a neighbour with a weight other than 1.0 gives the
    neighbour's embedding only up to rounding. *)
Lemma single_neighbour_not_exact :
  (user_cf_row [[Fin 1]; [Fin 2]] 0 {[0 := [0]; 1 := [1]]} {[0 := [1]]} = Ok [[NaN]]
   ∧ get_user_kg_embed [[Fin 1]; [Fin 2]] (ScalarId 1) {[0 := [0]; 1 := [1]]}
     = Ok [[Fin 2]])
  ∧ (Binary32.user_cf_row Binary32.three_items 0 {[0 := [0; 1; 2]; 1 := [1]]}
       {[0 := [1]]}
     = Ok [[Binary32.b32 14680065 (-21)]]
     ∧ Binary32.get_user_kg_embed Binary32.three_items 1 {[0 := [0; 1; 2]; 1 := [1]]}
       = Ok [[Binary32.b32 7 0]]
     ∧ Binary32.lt (Binary32.b32 7 0) (Binary32.b32 14680065 (-21)) = true).
Proof.
  split.
  - destruct single_disjoint_neighbour_gives_nan as (_ & Hcf & Hkg & _). by split.
  - repeat split; vm_compute; reflexivity.
Qed.

(** In the exact arithmetic of the embedding the weight of a single
    neighbour cancels whenever it is not zero, that is, whenever the
    neighbour shares an item with the user. *)
Lemma single_neighbour_shared_item (embed : mat) (uid neighbour item : nat)
    (user_dict sim_user_dict : gmap nat (list nat)) (items items' : list nat) :
  sim_user_dict !! uid = Some [neighbour] →
  user_dict !! uid = Some items →
  user_dict !! neighbour = Some items' →
  item ∈ items → item ∈ items' →
  user_cf_row embed uid user_dict sim_user_dict
    = get_user_kg_embed embed (ScalarId neighbour) user_dict
  ∧ get_user_cf_embed embed [uid] user_dict sim_user_dict
    = get_user_kg_embed embed (IdTensor [neighbour]) user_dict.
Proof.
  intros Hn Hu Hv Hi Hi'.
  destruct (calk_sim_common_item uid neighbour item user_dict items items'
              Hu Hv Hi Hi') as (s & Hs & Hsim).
  assert (user_cf_row embed uid user_dict sim_user_dict
          = get_user_kg_embed embed (ScalarId neighbour) user_dict) as Hrow.
  { unfold user_cf_row. rewrite Hn. simpl. rewrite Hsim. simpl.
    destruct (get_user_kg_embed embed (ScalarId neighbour) user_dict) as [kg|e];
      simpl; [|done].
    by rewrite mdivs_madd0_mscale_cancel. }
  split; [exact Hrow|].
  unfold get_user_cf_embed. simpl. rewrite Hrow.
  unfold get_user_kg_embed. simpl.
  destruct (user_kg_row embed user_dict neighbour) as [v|e]; simpl; [|done].
  rewrite app_nil_r.
  destruct (view_rows 1 v) as [x|e] eqn:Hview; simpl; [|done].
  apply view_rows_one_inv in Hview as ->.
  simpl. rewrite !app_nil_r. by apply view_rows_one.
Qed.

(** With the weight 1.0 the cancellation is exact in binary32 as well. *)
Lemma single_neighbour_same_items_binary32 :
  Binary32.calk_sim 0 1 {[0 := [1; 2]; 1 := [2; 1]]}
    = Ok (Binary32.of_int64 1)
  ∧ Binary32.user_cf_row Binary32.three_items 0 {[0 := [1; 2]; 1 := [2; 1]]} {[0 := [1]]}
    = Binary32.get_user_kg_embed Binary32.three_items 1 {[0 := [1; 2]; 1 := [2; 1]]}.
Proof. split; vm_compute; reflexivity. Qed.

(** C6, amended.  For a user whose similarity-neighbour list holds exactly
    one neighbour, and that neighbour has interacted with the same items as
    the user (a non-empty set, so that its Jaccard weight is exactly 1.0),
    the user's CF-context row is exactly the neighbour's KG-context
    embedding: multiplying by 1.0, adding to 0 and dividing by 1.0 change
    nothing.  An exception of the neighbour's KG-context computation is the
    exception of the CF-context computation. *)
Theorem single_neighbour_cf_embed (embed : mat) (uid neighbour : nat)
    (user_dict sim_user_dict : gmap nat (list nat)) (items items' : list nat) :
  sim_user_dict !! uid = Some [neighbour] →
  user_dict !! uid = Some items →
  user_dict !! neighbour = Some items' →
  items ≠ [] →
  (∀ i, i ∈ items ↔ i ∈ items') →
  calk_sim uid neighbour user_dict = Ok (Fin 1)
  ∧ user_cf_row embed uid user_dict sim_user_dict
    = get_user_kg_embed embed (ScalarId neighbour) user_dict
  ∧ get_user_cf_embed embed [uid] user_dict sim_user_dict
    = get_user_kg_embed embed (IdTensor [neighbour]) user_dict.
Proof.
  intros Hn Hu Hv Hne Hsame.
  destruct items as [|item items0] eqn:Hitems; [done|]. rewrite <- Hitems in *.
  assert (item ∈ items) as Hi by (rewrite Hitems; left).
  split; [|exact (single_neighbour_shared_item embed uid neighbour item user_dict
                    sim_user_dict items items' Hn Hu Hv Hi (proj1 (Hsame item) Hi))].
  unfold calk_sim. rewrite Hu, Hv. simpl.
  assert ((list_to_set items : gset nat) = list_to_set items') as Heq.
  { apply set_eq. intros i. rewrite !elem_of_list_to_set. apply Hsame. }
  rewrite <- Heq, union_idemp_L, intersection_idemp_L.
  destruct (decide (size (list_to_set items : gset nat) = 0)) as [Hz|Hz].
  { apply size_empty_iff in Hz. exfalso.
    apply (proj1 (elem_of_equiv_empty _) Hz item). by apply elem_of_list_to_set. }
  do 2 f_equal. field. by apply not_0_INR.
Qed.

Lemma single_neighbour_cf_embed_witness :
  calk_sim 0 1 {[0 := [0; 1]; 1 := [1; 0]]} = Ok (Fin 1)
  ∧ user_cf_row [[Fin 1]; [Fin 2]] 0 {[0 := [0; 1]; 1 := [1; 0]]} {[0 := [1]]}
    = get_user_kg_embed [[Fin 1]; [Fin 2]] (ScalarId 1) {[0 := [0; 1]; 1 := [1; 0]]}
  ∧ get_user_cf_embed [[Fin 1]; [Fin 2]] [0] {[0 := [0; 1]; 1 := [1; 0]]} {[0 := [1]]}
    = get_user_kg_embed [[Fin 1]; [Fin 2]] (IdTensor [1]) {[0 := [0; 1]; 1 := [1; 0]]}.
Proof.
  apply (single_neighbour_cf_embed _ 0 1 _ _ [0; 1] [1; 0]).
  - reflexivity.
  - reflexivity.
  - reflexivity.
  - discriminate.
  - intros i. rewrite !elem_of_cons, !elem_of_nil. tauto.
Defined.

(** ** C2: the raw attention score of every edge *)

Section scatter_facts.
Context (pred : edge → bool) (f : edge → float).

Lemma scatter_cons (k : nat) (idxs : list nat) (v : float) (vals col : list float) :
  scatter (k :: idxs) (v :: vals) col = scatter idxs vals (<[k := v]> col).
Proof. reflexivity. Qed.

(** Rows before the first edge of the batch are not written. *)
Lemma scatter_filter_below (es : list edge) (k0 j : nat) (col : list float) :
  j < k0 →
  scatter (filter_edges_from pred k0 es) (f <$> List.filter pred es) col !! j = col !! j.
Proof.
  revert k0 col. induction es as [|e es IH]; intros k0 col Hj; simpl; [done|].
  destruct (pred e); simpl.
  - rewrite scatter_cons, IH by lia. apply list_lookup_insert_ne. lia.
  - apply IH. lia.
Qed.

(** Row [k0 + i] receives the value of edge [i] of the batch when the
    predicate selects it, and keeps its value otherwise. *)
Lemma scatter_filter_at (es : list edge) (k0 i : nat) (e : edge) (col : list float) :
  k0 + length es ≤ length col → es !! i = Some e →
  scatter (filter_edges_from pred k0 es) (f <$> List.filter pred es) col !! (k0 + i)
    = if pred e then Some (f e) else col !! (k0 + i).
Proof.
  revert k0 i col. induction es as [|e0 es IH]; intros k0 i col Hlen Hi; [done|].
  simpl in Hlen. destruct i as [|i]; simpl in Hi.
  - injection Hi as ->. rewrite Nat.add_0_r. simpl.
    destruct (pred e); simpl.
    + rewrite scatter_cons, scatter_filter_below by lia.
      apply list_lookup_insert_eq. lia.
    + apply scatter_filter_below. lia.
  - replace (k0 + S i) with (S k0 + i) by lia.
    cbn [filter_edges_from List.filter]. destruct (pred e0).
    + rewrite fmap_cons, scatter_cons, IH; [|rewrite length_insert; lia|done].
      destruct (pred e); [done|]. apply list_lookup_insert_ne. lia.
    + apply IH; [lia|done].
Qed.

Lemma scatter_filter_length (es : list edge) (k0 : nat) (col : list float) :
  length (scatter (filter_edges_from pred k0 es) (f <$> List.filter pred es) col)
    = length col.
Proof.
  revert k0 col. induction es as [|e es IH]; intros k0 col; simpl; [done|].
  destruct (pred e); simpl; [|done].
  by rewrite scatter_cons, IH, length_insert.
Qed.

(** The batch [apply_edges] hands to the edge function consists of the
    selected edges, in order. *)
Lemma batch_of_filter (pre es : list edge) :
  mapM_result (fun k => of_option IndexError ((pre ++ es) !! k))
    (filter_edges_from pred (length pre) es) = Ok (List.filter pred es).
Proof.
  revert pre. induction es as [|e es IH]; intros pre; simpl; [done|].
  specialize (IH (pre ++ [e])).
  rewrite <- app_assoc, length_app in IH. simpl in IH.
  rewrite Nat.add_1_r in IH.
  destruct (pred e); simpl; [|done].
  rewrite list_lookup_middle by done. simpl. by rewrite IH.
Qed.

End scatter_facts.

Lemma apply_edges_filter (g : DGLGraph) (func : list edge → result (list float))
    (pred : edge → bool) (f : edge → float) :
  length (col_of g) = length (edges g) →
  func (List.filter pred (edges g)) = Ok (f <$> List.filter pred (edges g)) →
  ∃ g', apply_edges g func (filter_edges g pred) = Ok g'
    ∧ ndata_id g' = ndata_id g ∧ edges g' = edges g
    ∧ is_Some (edata_att g')
    ∧ length (col_of g') = length (edges g)
    ∧ ∀ k e, edges g !! k = Some e →
        col_of g' !! k = if pred e then Some (f e) else col_of g !! k.
Proof.
  intros Hlen Hfunc. unfold apply_edges, filter_edges.
  pose proof (batch_of_filter pred [] (edges g)) as Hbatch. simpl in Hbatch.
  rewrite Hbatch. simpl. rewrite Hfunc. simpl.
  eexists; split; [reflexivity|]. simpl.
  repeat split; [by eexists| |].
  - unfold col_of at 1. simpl. fold (col_of g).
    by rewrite scatter_filter_length.
  - intros k e Hk. unfold col_of at 1. simpl. fold (col_of g).
    apply (scatter_filter_at pred f (edges g) 0 k e); [lia|done].
Qed.

Lemma edge_in_range_lookups (m : KGAT) (g : DGLGraph) (e : edge) :
  edge_in_range m g e →
  (id ← node_id g (src e); entity_embed_lookup m id)
    = Ok (entity_embed m !!! (ndata_id g !!! src e))
  ∧ (id ← node_id g (dst e); entity_embed_lookup m id)
    = Ok (entity_embed m !!! (ndata_id g !!! dst e)).
Proof.
  intros (tid & hid & Hs & Hd & Ht & Hh).
  unfold node_id, entity_embed_lookup.
  rewrite (list_lookup_total_correct _ _ _ Hs), (list_lookup_total_correct _ _ _ Hd).
  rewrite Hs, Hd. simpl.
  by rewrite !list_lookup_lookup_total_lt.
Qed.

(** On a batch of edges of relation [i], with [self.W_r = W_R[i]],
    [att_score] returns the score of every edge of the batch. *)
Lemma att_score_batch (m : KGAT) (g : DGLGraph) (w : mat) (i : nat) (batch : list edge) :
  W_r m = Some w → W_R m !! i = Some w → i < length (relation_embed m) →
  Forall (fun e => etype e = i ∧ edge_in_range m g e) batch →
  att_score m g batch = Ok (edge_score m g <$> batch).
Proof.
  intros HW HWR Hi Hbatch. unfold att_score. rewrite HW. simpl.
  rewrite (mapM_result_Ok (fun e => id ← node_id g (src e); entity_embed_lookup m id)
             (fun e => entity_embed m !!! (ndata_id g !!! src e)) batch).
  2:{ eapply Forall_impl; [exact Hbatch|]. intros e [_ He].
      by apply (edge_in_range_lookups m g e). }
  simpl.
  rewrite (mapM_result_Ok (fun e => id ← node_id g (dst e); entity_embed_lookup m id)
             (fun e => entity_embed m !!! (ndata_id g !!! dst e)) batch).
  2:{ eapply Forall_impl; [exact Hbatch|]. intros e [_ He].
      by apply (edge_in_range_lookups m g e). }
  simpl.
  rewrite (mapM_result_Ok (fun e => relation_embed_lookup m (etype e))
             (fun e => relation_embed m !!! etype e) batch).
  2:{ eapply Forall_impl; [exact Hbatch|]. intros e [-> _].
      unfold relation_embed_lookup. by rewrite list_lookup_lookup_total_lt. }
  simpl. f_equal.
  induction Hbatch as [|e batch [He _] _ IH]; [done|].
  rewrite !fmap_cons. simpl. f_equal; [|exact IH].
  unfold edge_score, spec_att_score, project.
  rewrite He. by rewrite (list_lookup_total_correct _ _ _ HWR).
Qed.

(** The invariant of the relation loop: after the rounds for the relations
    [start, ..., start + count - 1] the field holds the score of every edge
    with such a relation and is otherwise unchanged. *)
Lemma attention_loop_spec (count : nat) : ∀ (m : KGAT) (g : DGLGraph) (start : nat),
  start + count ≤ length (W_R m) →
  start + count ≤ length (relation_embed m) →
  Forall (fun e => etype e < start + count → edge_in_range m g e) (edges g) →
  length (col_of g) = length (edges g) →
  ∃ g' m',
    attention_loop m g start count = (Ok g', m')
    ∧ ndata_id g' = ndata_id g ∧ edges g' = edges g
    ∧ (0 < count → is_Some (edata_att g'))
    ∧ (count = 0 → g' = g)
    ∧ length (col_of g') = length (edges g)
    ∧ ∀ k e, edges g !! k = Some e →
        col_of g' !! k =
          if decide (start ≤ etype e < start + count)
          then Some (edge_score m g e) else col_of g !! k.
Proof.
  induction count as [|count IH]; intros m g start HWR HRl Hrange Hcol.
  - exists g, m. simpl. repeat split; try done; [lia|].
    intros k e _. destruct (decide (start ≤ etype e < start + 0)); [lia|done].
  - simpl.
    destruct (W_R m !! start) as [w|] eqn:Hw.
    2:{ apply lookup_ge_None in Hw. lia. }
    set (m1 := set_W_r m (Some w)).
    destruct (apply_edges_filter g (att_score m1 g)
                (fun e => Nat.eqb (etype e) start) (edge_score m g) Hcol)
      as (g1 & Happ & Hn1 & He1 & Hsome1 & Hlen1 & Hcol1).
    { apply (att_score_batch m1 g w start); [done|done|simpl; lia|].
      apply Forall_forall. intros e He.
      apply list_elem_of_In, filter_In in He as [He Heq].
      apply Nat.eqb_eq in Heq. split; [done|].
      rewrite Forall_forall in Hrange.
      destruct (Hrange e) as (tid & hid & ?); [by apply list_elem_of_In|lia|].
      by exists tid, hid. }
    rewrite Happ.
    destruct (IH m1 g1 (S start))
      as (g' & m' & Hloop & Hn & He & Hsome & _ & Hlen & Hfinal).
    { simpl. lia. }
    { simpl. lia. }
    { rewrite He1. eapply Forall_impl; [exact Hrange|].
      intros e He Hlt. destruct He as (tid & hid & H1 & H2 & H3); [lia|].
      exists tid, hid. by rewrite Hn1. }
    { by rewrite He1. }
    exists g', m'. rewrite Hloop.
    repeat split; [congruence|congruence| |lia|congruence|].
    + intros _. destruct count; [|apply Hsome; lia].
      simpl in Hloop. by injection Hloop as <- _.
    + intros k e Hk. rewrite (Hfinal k e) by (by rewrite He1).
      rewrite (Hcol1 k e Hk).
      assert (edge_score m1 g1 e = edge_score m g e) as ->.
      { unfold edge_score. simpl. by rewrite Hn1. }
      destruct (decide (S start ≤ etype e < S start + count)) as [H1|H1].
      * destruct (decide (start ≤ etype e < start + S count)); [done|lia].
      * destruct (Nat.eqb (etype e) start) eqn:Heq.
        -- apply Nat.eqb_eq in Heq.
           destruct (decide (start ≤ etype e < start + S count)); [done|lia].
        -- apply Nat.eqb_neq in Heq.
           destruct (decide (start ≤ etype e < start + S count)); [lia|done].
Qed.

Lemma col_of_length (m : KGAT) (g : DGLGraph) :
  attention_input_ok m g → length (col_of g) = length (edges g).
Proof.
  intros Hok. unfold col_of. destruct (edata_att g) as [col|] eqn:Hcol; simpl.
  - by apply (att_length m g Hok).
  - apply length_replicate.
Qed.

(** The relation loop of [compute_attention] succeeds on a well-formed
    input and leaves in the edge field the score of every edge that has a
    relation of the model. *)
Lemma raw_attention_spec (m : KGAT) (g : DGLGraph) :
  attention_input_ok m g → 0 < n_relations m →
  ∃ raw m',
    raw_attention m g = (Ok raw, m')
    ∧ length raw = length (edges g)
    ∧ ∀ k e, edges g !! k = Some e →
        raw !! k = if decide (etype e < n_relations m)
                   then Some (edge_score m g e) else col_of g !! k.
Proof.
  intros Hok Hpos.
  destruct (attention_loop_spec (n_relations m) m g 0)
    as (g' & m' & Hloop & _ & _ & Hsome & _ & Hlen & Hfinal).
  { rewrite (W_R_length m g Hok). lia. }
  { rewrite (relation_embed_length m g Hok). lia. }
  { exact (edges_in_range m g Hok). }
  { by apply (col_of_length m). }
  destruct (Hsome Hpos) as [raw Hraw].
  exists raw, m'. unfold raw_attention. rewrite Hloop, Hraw. simpl.
  assert (col_of g' = raw) as Hcol by (unfold col_of; by rewrite Hraw).
  rewrite Hcol in Hlen, Hfinal.
  repeat split; [done|].
  intros k e Hk. rewrite (Hfinal k e Hk).
  destruct (decide (0 ≤ etype e < 0 + n_relations m));
    destruct (decide (etype e < n_relations m)); try done; lia.
Qed.

(** C2.  For every edge with relation label r (a relation of the model),
    the relation loop of [compute_attention] leaves in the edge field 'att',
    before the per-destination softmax, the score
    dot(W_r tail, tanh(W_r head + relation_embedding_r)), where tail is the
    embedding of the edge's source node and head that of its destination
    node; [compute_attention] returns the softmax of that field. *)
Theorem raw_attention_score (m : KGAT) (g : DGLGraph) (k : nat) (e : edge) :
  attention_input_ok m g →
  edges g !! k = Some e →
  etype e < n_relations m →
  ∃ raw m' W_r relation_embedding tail_id head_id tail head,
    raw_attention m g = (Ok raw, m')
    ∧ compute_attention m g = (Ok (edge_softmax_fix g raw), m')
    ∧ W_R m !! etype e = Some W_r
    ∧ relation_embed m !! etype e = Some relation_embedding
    ∧ ndata_id g !! src e = Some tail_id
    ∧ ndata_id g !! dst e = Some head_id
    ∧ entity_embed m !! tail_id = Some tail
    ∧ entity_embed m !! head_id = Some head
    ∧ raw !! k = Some (spec_att_score (relation_dim m) W_r relation_embedding tail head).
Proof.
  intros Hok Hk Hr.
  destruct (raw_attention_spec m g Hok) as (raw & m' & Hraw & _ & Hscore); [lia|].
  pose proof (edges_in_range m g Hok) as Hrange.
  rewrite Forall_forall in Hrange.
  destruct (Hrange e) as (tid & hid & Hs & Hd & Ht & Hh);
    [by eapply list_elem_of_lookup_2|done|].
  exists raw, m', (W_R m !!! etype e), (relation_embed m !!! etype e), tid, hid,
    (entity_embed m !!! tid), (entity_embed m !!! hid).
  repeat split; try done.
  - unfold compute_attention. by rewrite Hraw.
  - apply list_lookup_lookup_total_lt. rewrite (W_R_length m g Hok). lia.
  - apply list_lookup_lookup_total_lt. rewrite (relation_embed_length m g Hok). lia.
  - by apply list_lookup_lookup_total_lt.
  - by apply list_lookup_lookup_total_lt.
  - rewrite (Hscore k e Hk).
    destruct (decide (etype e < n_relations m)); [|lia].
    unfold edge_score.
    by rewrite (list_lookup_total_correct _ _ _ Hs), (list_lookup_total_correct _ _ _ Hd).
Qed.

Lemma scenario_input_ok : attention_input_ok scenario_model scenario_graph.
Proof.
  split; [reflexivity|reflexivity| |discriminate].
  repeat constructor.
  - exists 0, 2. simpl. repeat split; lia.
  - exists 1, 2. simpl. repeat split; lia.
Defined.

Lemma raw_attention_score_witness :
  ∃ raw m' W_r relation_embedding tail_id head_id tail head,
    raw_attention scenario_model scenario_graph = (Ok raw, m')
    ∧ compute_attention scenario_model scenario_graph
      = (Ok (edge_softmax_fix scenario_graph raw), m')
    ∧ W_R scenario_model !! 0 = Some W_r
    ∧ relation_embed scenario_model !! 0 = Some relation_embedding
    ∧ ndata_id scenario_graph !! 1 = Some tail_id
    ∧ ndata_id scenario_graph !! 2 = Some head_id
    ∧ entity_embed scenario_model !! tail_id = Some tail
    ∧ entity_embed scenario_model !! head_id = Some head
    ∧ raw !! 1 = Some (spec_att_score (relation_dim scenario_model)
                         W_r relation_embedding tail head).
Proof.
  apply (raw_attention_score scenario_model scenario_graph 1 (mkEdge 1 2 0)).
  - exact scenario_input_ok.
  - reflexivity.
  - simpl. lia.
Defined.

(** ** Finite values *)

Lemma is_finite_Fin (a : float) : is_finite a ↔ ∃ x, a = Fin x.
Proof.
  split.
  - destruct a; simpl; [eauto|done..].
  - by intros [x ->].
Qed.

Lemma Forall_finite_Fin (v : vec) : Forall is_finite v ↔ ∃ xs : list R, v = Fin <$> xs.
Proof.
  split.
  - induction 1 as [|a v Ha _ [xs ->]]; [by exists []|].
    apply is_finite_Fin in Ha as [x ->]. by exists (x :: xs).
  - intros [xs ->]. apply Forall_fmap, Forall_true. by intros x.
Qed.

Lemma fadd_finite (a b : float) : is_finite a → is_finite b → is_finite (fadd a b).
Proof. by destruct a, b. Qed.

Lemma fmul_finite (a b : float) : is_finite a → is_finite b → is_finite (fmul a b).
Proof. by destruct a, b. Qed.

Lemma ftanh_finite (a : float) : is_finite a → is_finite (ftanh a).
Proof. by destruct a. Qed.

Lemma zip_with_finite (f : float → float → float) (u v : vec) :
  (∀ a b, is_finite a → is_finite b → is_finite (f a b)) →
  Forall is_finite u → Forall is_finite v → Forall is_finite (zip_with f u v).
Proof.
  intros Hf Hu. revert v. induction Hu as [|a u Ha _ IH]; intros v Hv; [constructor|].
  destruct Hv as [|b v Hb Hv]; simpl; constructor; auto.
Qed.

Lemma vsum_finite (v : vec) : Forall is_finite v → is_finite (vsum v).
Proof.
  induction 1 as [|a v Ha _ IH]; simpl; [done|]. by apply fadd_finite.
Qed.

Lemma vzeros_finite (d : nat) : Forall is_finite (vzeros d).
Proof. by apply Forall_replicate. Qed.

Lemma vscale_finite (c : float) (v : vec) :
  is_finite c → Forall is_finite v → Forall is_finite (vscale c v).
Proof. intros Hc Hv. apply Forall_fmap. eapply Forall_impl; [exact Hv|]. intros a. by apply fmul_finite. Qed.

Lemma sum_rows_finite (d : nat) (rows : mat) :
  Forall (Forall is_finite) rows → Forall is_finite (sum_rows d rows).
Proof.
  induction 1 as [|row rows Hrow _ IH]; simpl; [apply vzeros_finite|].
  by apply zip_with_finite; [apply fadd_finite|..].
Qed.

Lemma vecmat_finite (d : nat) (x : vec) (M : mat) :
  Forall is_finite x → Forall (Forall is_finite) M → Forall is_finite (vecmat d x M).
Proof.
  intros Hx HM. apply sum_rows_finite. revert M HM.
  induction Hx as [|a x Ha _ IH]; intros M HM; [constructor|].
  destruct HM as [|row M Hrow HM]; simpl; constructor; [by apply vscale_finite|auto].
Qed.

Lemma dot_finite (u v : vec) :
  Forall is_finite u → Forall is_finite v → is_finite (dot u v).
Proof. intros Hu Hv. by apply vsum_finite, zip_with_finite; [apply fmul_finite|..]. Qed.

Lemma lookup_total_Forall {A} `{Inhabited A} (P : A → Prop) (l : list A) (i : nat) :
  P inhabitant → Forall P l → P (l !!! i).
Proof.
  intros Hd Hl. rewrite list_lookup_total_alt.
  destruct (l !! i) as [x|] eqn:Hx; simpl; [|done].
  by eapply Forall_lookup_1.
Qed.

Lemma edge_score_finite (m : KGAT) (g : DGLGraph) (e : edge) :
  finite_parameters m → is_finite (edge_score m g e).
Proof.
  intros [HE HR HW]. unfold edge_score, spec_att_score, project.
  assert (Forall is_finite (entity_embed m !!! (ndata_id g !!! src e))) as Ht
    by (apply lookup_total_Forall; [constructor|done]).
  assert (Forall is_finite (entity_embed m !!! (ndata_id g !!! dst e))) as Hh
    by (apply lookup_total_Forall; [constructor|done]).
  assert (Forall is_finite (relation_embed m !!! etype e)) as Hr
    by (apply lookup_total_Forall; [constructor|done]).
  assert (Forall (Forall is_finite) (W_R m !!! etype e)) as Hw
    by (apply lookup_total_Forall; [constructor|done]).
  apply dot_finite; [by apply vecmat_finite|].
  apply Forall_fmap.
  eapply Forall_impl; [|intros a; apply ftanh_finite].
  apply zip_with_finite; [apply fadd_finite|by apply vecmat_finite|done].
Qed.

(** ** C1: the attention weights that enter a node sum to one *)

Lemma filter_edges_from_elem (pred : edge → bool) (es : list edge) (k0 k : nat) :
  k ∈ filter_edges_from pred k0 es →
  ∃ e, es !! (k - k0) = Some e ∧ k0 ≤ k ∧ pred e = true.
Proof.
  revert k0. induction es as [|e0 es IH]; intros k0 Hk; simpl in Hk.
  { by apply elem_of_nil in Hk. }
  assert (k ∈ filter_edges_from pred (S k0) es →
          ∃ e, (e0 :: es) !! (k - k0) = Some e ∧ k0 ≤ k ∧ pred e = true) as Htail.
  { intros Hin. destruct (IH (S k0) Hin) as (e & He & Hle & Hp).
    exists e. replace (k - k0) with (S (k - S k0)) by lia. repeat split; [done|lia|done]. }
  destruct (pred e0) eqn:Hp0; [|by apply Htail].
  apply elem_of_cons in Hk as [->|Hin]; [|by apply Htail].
  exists e0. rewrite Nat.sub_diag. split; [done|]. split; [lia|done].
Qed.

Lemma in_edges_elem (g : DGLGraph) (v k : nat) :
  k ∈ in_edges g v → ∃ e, edges g !! k = Some e ∧ dst e = v.
Proof.
  intros Hk. apply filter_edges_from_elem in Hk as (e & He & _ & Hp).
  rewrite Nat.sub_0_r in He. apply Nat.eqb_eq in Hp. by exists e.
Qed.

Section softmax.
#[local] Open Scope R_scope.

Lemma vsum_Fin (rs : list R) : vsum (Fin <$> rs) = Fin (Rsum rs).
Proof.
  induction rs as [|r rs IH]; [done|].
  change (vsum (Fin <$> r :: rs)) with (fadd (Fin r) (vsum (Fin <$> rs))).
  by rewrite IH.
Qed.

Lemma Rsum_pos (rs : list R) : Forall (fun r => 0 < r) rs → rs ≠ [] → 0 < Rsum rs.
Proof.
  intros Hall Hne. destruct Hall as [|r rs Hr Hrs]; [done|]. clear Hne.
  simpl. revert r Hr. induction Hrs as [|r' rs Hr' _ IH]; intros r Hr; simpl.
  - lra.
  - specialize (IH r' Hr'). simpl in IH. lra.
Qed.

Lemma Rsum_div (rs : list R) (s : R) : Rsum ((fun x => x / s) <$> rs) = Rsum rs / s.
Proof.
  induction rs as [|r rs IH].
  - simpl. unfold Rdiv. lra.
  - change (Rsum ((fun x => x / s) <$> r :: rs))
      with (r / s + Rsum ((fun x => x / s) <$> rs)).
    rewrite IH. simpl. unfold Rdiv. lra.
Qed.

Lemma omap_cons {A B} (f : A → option B) (x : A) (l : list A) :
  omap f (x :: l) = match f x with Some y => y :: omap f l | None => omap f l end.
Proof. reflexivity. Qed.

Lemma omap_lookup_Fin (ex : list R) (idxs : list nat) :
  omap (fun k => (Fin <$> ex) !! k) idxs = Fin <$> omap (fun k => ex !! k) idxs.
Proof.
  induction idxs as [|k idxs IH]; [done|].
  rewrite !omap_cons, list_lookup_fmap.
  destruct (ex !! k); simpl; by rewrite IH.
Qed.

Lemma omap_lookup_exp_pos (xs : list R) (idxs : list nat) :
  Forall (fun r => 0 < r) (omap (fun k => (exp <$> xs) !! k) idxs).
Proof.
  induction idxs as [|k idxs IH]; [constructor|].
  rewrite omap_cons, list_lookup_fmap.
  destruct (xs !! k); simpl; [|done]. constructor; [apply exp_pos|done].
Qed.

Lemma omap_lookup_nonempty {A} (l : list A) (idxs : list nat) :
  idxs ≠ [] → Forall (fun k => (k < length l)%nat) idxs →
  omap (fun k => l !! k) idxs ≠ [].
Proof.
  intros Hne Hlt. destruct Hlt as [|k idxs Hk _]; [done|].
  rewrite omap_cons. destruct (lookup_lt_is_Some_2 l k Hk) as [x ->]. done.
Qed.

(** The weights of the edges that enter [v], given the sum [s] of the
    exponentials over those edges. *)
Lemma softmax_weights (g : DGLGraph) (ex : list R) (v : nat) (s : R) (idxs : list nat) :
  length ex = length (edges g) → 0 < s →
  vsum (omap (fun k => (Fin <$> ex) !! k) (in_edges g v)) = Fin s →
  Forall (fun k => ∃ e, edges g !! k = Some e ∧ dst e = v) idxs →
  omap (fun k =>
          zip_with (fun ed x => fdiv x (vsum (omap (fun k => (Fin <$> ex) !! k)
                                                   (in_edges g (dst ed)))))
            (edges g) (Fin <$> ex) !! k) idxs
  = Fin <$> ((fun x => x / s) <$> omap (fun k => ex !! k) idxs).
Proof.
  intros Hlen Hs Hsum. induction 1 as [|k idxs (e & He & Hv) _ IH]; [done|].
  rewrite !omap_cons, lookup_zip_with, He, list_lookup_fmap.
  assert (k < length ex)%nat as Hk
    by (rewrite Hlen; by eapply lookup_lt_Some).
  destruct (lookup_lt_is_Some_2 ex k Hk) as [x Hx]. rewrite Hx.
  cbn [mbind option_bind fmap option_fmap option_map].
  rewrite Hv, Hsum, IH, !fmap_cons. by rewrite fdiv_Fin_pos.
Qed.

(** Per destination node, the softmax weights of finite scores sum to 1. *)
Lemma edge_softmax_fix_sums_to_one (g : DGLGraph) (xs : list R) (v : nat) :
  length xs = length (edges g) → in_edges g v ≠ [] →
  incoming_attention g (edge_softmax_fix g (Fin <$> xs)) v = Fin 1.
Proof.
  intros Hlen Hne. unfold incoming_attention, edge_softmax_fix.
  rewrite <- list_fmap_compose.
  change (fexp ∘ Fin) with (Fin ∘ exp). rewrite list_fmap_compose.
  set (ex := exp <$> xs).
  assert (length ex = length (edges g)) as Hlen' by (unfold ex; by rewrite length_fmap).
  assert (Forall (fun k => ∃ e, edges g !! k = Some e ∧ dst e = v) (in_edges g v)) as Hin.
  { apply Forall_forall. intros k Hk. by apply in_edges_elem. }
  set (rs := omap (fun k => ex !! k) (in_edges g v)).
  assert (0 < Rsum rs) as Hpos.
  { apply Rsum_pos; [apply omap_lookup_exp_pos|].
    apply omap_lookup_nonempty; [done|].
    eapply Forall_impl; [exact Hin|]. intros k (e & He & _).
    rewrite Hlen'. by eapply lookup_lt_Some. }
  assert (vsum (omap (fun k => (Fin <$> ex) !! k) (in_edges g v)) = Fin (Rsum rs)) as Hsum.
  { by rewrite omap_lookup_Fin, vsum_Fin. }
  rewrite (softmax_weights g ex v (Rsum rs) (in_edges g v) Hlen' Hpos Hsum Hin).
  fold rs. rewrite vsum_Fin, Rsum_div. f_equal. field. lra.
Qed.

End softmax.

(** C1.  After [compute_attention] has run on a graph (whose edges carry
    relations of the model, with finite parameters), the attention weights
    on the incoming edges of every destination node that has at least one
    incoming edge sum to 1, within the tolerance 1e-6: exactly, in the exact
    arithmetic of the embedding. *)
Theorem attention_sums_to_one (m : KGAT) (g : DGLGraph) (v : nat) :
  attention_input_ok m g →
  finite_parameters m →
  Forall (fun e => etype e < n_relations m) (edges g) →
  in_edges g v ≠ [] →
  ∃ att m' s,
    compute_attention m g = (Ok att, m')
    ∧ incoming_attention g att v = Fin s
    ∧ (Rabs (s - 1) <= 1 / 10 ^ 6)%R.
Proof.
  intros Hok Hfin Htypes Hne.
  assert (0 < n_relations m) as Hpos.
  { destruct (in_edges g v) as [|k idxs] eqn:Hin; [done|].
    destruct (in_edges_elem g v k) as (e & He & _); [rewrite Hin; left|].
    rewrite Forall_forall in Htypes.
    specialize (Htypes e (list_elem_of_lookup_2 _ _ _ He)). lia. }
  destruct (raw_attention_spec m g Hok Hpos) as (raw & m' & Hraw & Hlen & Hscore).
  assert (Forall is_finite raw) as Hrawfin.
  { apply Forall_lookup. intros k x Hx.
    assert (k < length (edges g)) as Hk by (rewrite <- Hlen; by eapply lookup_lt_Some).
    destruct (lookup_lt_is_Some_2 _ _ Hk) as [e He].
    rewrite (Hscore k e He) in Hx.
    rewrite Forall_forall in Htypes.
    specialize (Htypes e (list_elem_of_lookup_2 _ _ _ He)).
    destruct (decide (etype e < n_relations m)); [|lia].
    injection Hx as <-. by apply edge_score_finite. }
  apply Forall_finite_Fin in Hrawfin as [xs ->].
  rewrite length_fmap in Hlen.
  exists (edge_softmax_fix g (Fin <$> xs)), m', 1%R.
  repeat split.
  - unfold compute_attention. by rewrite Hraw.
  - by apply edge_softmax_fix_sums_to_one.
  - replace (1 - 1)%R with 0%R by lra. rewrite Rabs_R0.
    apply Rlt_le, Rdiv_lt_0_compat; [lra|]. apply pow_lt. lra.
Qed.

Lemma scenario_parameters_finite : finite_parameters scenario_model.
Proof. split; repeat constructor. Defined.

Lemma attention_sums_to_one_witness :
  ∃ att m' s,
    compute_attention scenario_model scenario_graph = (Ok att, m')
    ∧ incoming_attention scenario_graph att 2 = Fin s
    ∧ (Rabs (s - 1) <= 1 / 10 ^ 6)%R.
Proof.
  apply attention_sums_to_one.
  - exact scenario_input_ok.
  - exact scenario_parameters_finite.
  - repeat constructor.
  - discriminate.
Defined.

(** ** C7: the KG loss prefers the closer tail *)

Section kg_loss_facts.
#[local] Open Scope R_scope.



Lemma fdiv_finite_pos (a : float) (y : R) :
  is_finite a → 0 < y → is_finite (fdiv a (Fin y)).
Proof.
  intros Ha Hy. apply is_finite_Fin in Ha as [x ->].
  by rewrite fdiv_Fin_pos.
Qed.

Lemma vmean_Fin (rs : list R) :
  rs ≠ [] → vmean (Fin <$> rs) = Fin (Rsum rs / INR (length rs)).
Proof.
  intros Hne. unfold vmean, of_nat. rewrite vsum_Fin, length_fmap.
  apply fdiv_Fin_pos, lt_0_INR. destruct rs; [done|simpl; lia].
Qed.

Lemma fsquare_finite (a : float) : is_finite a → is_finite (fsquare a).
Proof. intros Ha. by apply fmul_finite. Qed.

Lemma fsub_finite (a b : float) : is_finite a → is_finite b → is_finite (fsub a b).
Proof. by destruct a, b. Qed.

Lemma sum_squares_finite (row : vec) :
  Forall is_finite row → is_finite (vsum (fsquare <$> row)).
Proof.
  intros Hrow. apply vsum_finite, Forall_fmap.
  eapply Forall_impl; [exact Hrow|]. intros a. apply fsquare_finite.
Qed.


Lemma zip_with_rows_finite (f : vec → vec → vec) (a b : mat) :
  (∀ u v, Forall is_finite u → Forall is_finite v → Forall is_finite (f u v)) →
  Forall (Forall is_finite) a → Forall (Forall is_finite) b →
  Forall (Forall is_finite) (zip_with f a b).
Proof.
  intros Hf Ha. revert b. induction Ha as [|u a Hu _ IH]; intros b Hb; [constructor|].
  destruct Hb as [|v b Hv Hb]; simpl; constructor; auto.
Qed.

Lemma transr_score_finite (r_mul_h r_embed r_mul_t : mat) :
  Forall (Forall is_finite) r_mul_h → Forall (Forall is_finite) r_embed →
  Forall (Forall is_finite) r_mul_t →
  Forall is_finite (transr_score r_mul_h r_embed r_mul_t).
Proof.
  intros Hh Hr Ht. unfold transr_score. apply Forall_fmap.
  assert (Forall (Forall is_finite)
            (zip_with vsub (zip_with vadd r_mul_h r_embed) r_mul_t)) as H.
  { apply zip_with_rows_finite; [|apply zip_with_rows_finite|]; try done.
    - intros u v Hu Hv. by apply zip_with_finite; [apply fsub_finite|..].
    - intros u v Hu Hv. by apply zip_with_finite; [apply fadd_finite|..]. }
  eapply Forall_impl; [exact H|]. intros row. apply sum_squares_finite.
Qed.

Lemma transr_score_length (r_mul_h r_embed r_mul_t : mat) :
  length (transr_score r_mul_h r_embed r_mul_t)
    = Nat.min (Nat.min (length r_mul_h) (length r_embed)) (length r_mul_t).
Proof. unfold transr_score. by rewrite length_fmap, !length_zip_with. Qed.

Lemma bmm_rows_Ok (d : nat) (x : mat) (W : list mat) (y : mat) :
  bmm_rows d x W = Ok y →
  length x = length W ∧ y = zip_with (vecmat d) x W.
Proof.
  unfold bmm_rows. destruct (decide (length x = length W)); [|done].
  by intros [= <-].
Qed.

Lemma bmm_rows_finite (d : nat) (x : mat) (W : list mat) :
  Forall (Forall is_finite) x → Forall (Forall (Forall is_finite)) W →
  Forall (Forall is_finite) (zip_with (vecmat d) x W).
Proof.
  intros Hx. revert W. induction Hx as [|u x Hu _ IH]; intros W HW; [constructor|].
  destruct HW as [|M W HM HW]; simpl; constructor; [by apply vecmat_finite|auto].
Qed.

Lemma lookups_finite {A} (P : A → Prop) (table : list A) (ids : list nat) (rows : list A) :
  Forall P table →
  mapM_result (fun i => of_option IndexError (table !! i)) ids = Ok rows →
  Forall P rows.
Proof.
  intros Htable Hrows. apply mapM_result_Forall2 in Hrows.
  induction Hrows as [|i row ids rows Hi _ IH]; constructor; [|done].
  simpl in Hi. destruct (table !! i) as [x|] eqn:Hx; simpl in Hi; [|discriminate Hi].
  injection Hi as <-. exact (Forall_lookup_1 P table i x Htable Hx).
Qed.

(** The pairwise logistic term on finite scores. *)
Lemma kg_loss_terms_Fin (xs ys : list R) :
  (fun x => fmul (Fin (-1)) (flogsigmoid x)) <$> zip_with fsub (Fin <$> ys) (Fin <$> xs)
  = Fin <$> zip_with (fun y x => -1 * logsigmoid (y + - x)) ys xs.
Proof.
  revert xs. induction ys as [|y ys IH]; intros xs; [done|].
  destruct xs as [|x xs]; [done|].
  rewrite !fmap_cons. simpl zip_with. rewrite !fmap_cons.
  f_equal. apply IH.
Qed.


End kg_loss_facts.







(** ** C9: the fixed widths of the fusion encoders *)

Lemma view_rows_Ok_rows (n : nat) (flat : vec) (x : mat) :
  view_rows n flat = Ok x → n ≠ 0.
Proof. unfold view_rows. by destruct (decide (n = 0)). Qed.

Lemma index_rows_width (embed : mat) (ids : list nat) (rows : mat) :
  has_width (width embed) embed → index_rows embed ids = Ok rows →
  has_width (width embed) rows ∧ length rows = length ids.
Proof.
  intros Hw Hrows. split.
  - exact (lookups_finite _ _ _ _ Hw Hrows).
  - exact (mapM_result_length _ _ _ Hrows).
Qed.

Lemma mean_of_items_width (embed : mat) (items : list nat) (v : vec) :
  has_width (width embed) embed → mean_of_items embed items = Ok v →
  length v = width embed.
Proof.
  intros Hw Hv. unfold mean_of_items in Hv.
  destruct (index_rows embed items) as [rows|] eqn:Hrows; [|done].
  injection Hv as <-. rewrite vdivs_length.
  apply sum_rows_length. by apply (index_rows_width embed items).
Qed.

Lemma user_kg_row_width (embed : mat) (user_dict : gmap nat (list nat)) (uid : nat) (v : vec) :
  has_width (width embed) embed → user_kg_row embed user_dict uid = Ok v →
  length v = width embed.
Proof.
  intros Hw Hv. unfold user_kg_row in Hv.
  destruct (user_dict !! uid) as [items|]; [|done].
  by apply (mean_of_items_width embed items).
Qed.

Lemma mapM_result_Forall {A B} (f : A → result B) (P : B → Prop) (l : list A) (ys : list B) :
  (∀ x y, f x = Ok y → P y) → mapM_result f l = Ok ys → Forall P ys.
Proof.
  intros Hf Hys. apply mapM_result_Forall2 in Hys.
  induction Hys; constructor; eauto.
Qed.

(** A successful [view(n, -1)] of [n] concatenated rows of one width
    returns the rows. *)
Lemma view_rows_concat_inv (d : nat) (rows x : mat) :
  has_width d rows → view_rows (length rows) (concat rows) = Ok x →
  x = rows ∧ rows ≠ [].
Proof.
  intros Hw Hx. pose proof (view_rows_Ok_rows _ _ _ Hx) as Hne.
  assert (rows ≠ []) as Hrows by (by intros ->).
  rewrite (view_rows_concat d rows Hrows Hw) in Hx. by injection Hx as <-.
Qed.

Lemma get_user_kg_embed_width (embed : mat) (ids : list nat)
    (user_dict : gmap nat (list nat)) (kg : mat) :
  has_width (width embed) embed →
  get_user_kg_embed embed (IdTensor ids) user_dict = Ok kg →
  has_width (width embed) kg ∧ length kg = length ids ∧ kg ≠ [].
Proof.
  intros Hw Hkg. unfold get_user_kg_embed in Hkg.
  destruct (mapM_result (user_kg_row embed user_dict) ids) as [rows|] eqn:Hrows; [|done].
  simpl in Hkg.
  assert (has_width (width embed) rows) as Hrw.
  { eapply mapM_result_Forall; [|exact Hrows].
    intros uid v. by apply user_kg_row_width. }
  pose proof (mapM_result_length _ _ _ Hrows) as Hlen.
  destruct rows as [|row rows]; [done|].
  rewrite <- Hlen in Hkg.
  apply (view_rows_concat_inv (width embed)) in Hkg as (-> & _); done.
Qed.

Lemma get_user_kg_embed_scalar_width (embed : mat) (uid : nat)
    (user_dict : gmap nat (list nat)) (kg : mat) :
  has_width (width embed) embed →
  get_user_kg_embed embed (ScalarId uid) user_dict = Ok kg →
  has_width (width embed) kg ∧ length kg = 1.
Proof.
  intros Hw Hkg. unfold get_user_kg_embed in Hkg.
  destruct (user_kg_row embed user_dict uid) as [v|] eqn:Hv; [|done].
  simpl in Hkg. apply view_rows_one_inv in Hkg as ->.
  split; [|done]. constructor; [|constructor].
  by apply (user_kg_row_width embed user_dict uid).
Qed.

Lemma madd_shape (d : nat) (a b : mat) :
  has_width d a → has_width d b → length a = length b →
  has_width d (madd a b) ∧ length (madd a b) = length a.
Proof.
  intros Ha. revert b. induction Ha as [|u a Hu _ IH]; intros b Hb Hlen.
  - by split; [constructor|].
  - destruct Hb as [|v b Hv Hb]; [done|]. simpl in Hlen.
    destruct (IH b Hb) as [IH1 IH2]; [lia|].
    split; simpl; [|by rewrite IH2].
    constructor; [|done]. rewrite vadd_length; congruence.
Qed.

Lemma user_sim_loop_shape (embed : mat) (uid : nat) (user_dict : gmap nat (list nat))
    (neighbours : list nat) :
  has_width (width embed) embed →
  ∀ a a', user_accum_shape (width embed) a →
    user_sim_loop embed uid user_dict neighbours a = Ok a' →
    user_accum_shape (width embed) a'.
Proof.
  intros Hw. induction neighbours as [|v neighbours IH]; intros a a' Ha Hloop.
  - simpl in Hloop. by injection Hloop as <-.
  - simpl in Hloop.
    destruct (calk_sim uid v user_dict) as [sim|]; [|done]. simpl in Hloop.
    destruct (get_user_kg_embed embed (ScalarId v) user_dict) as [kg|] eqn:Hkg; [|done].
    simpl in Hloop.
    destruct (get_user_kg_embed_scalar_width embed v user_dict kg Hw Hkg) as [Hkw Hkl].
    eapply IH; [|exact Hloop].
    assert (has_width (width embed) (mscale sim kg) ∧ length (mscale sim kg) = 1)
      as [Hsw Hsl].
    { unfold mscale. rewrite length_fmap. split; [|done].
      apply Forall_fmap. eapply Forall_impl; [exact Hkw|].
      intros row Hrow. simpl. unfold vscale. by rewrite length_fmap. }
    destruct a as [|s n]; simpl.
    + unfold madd0. rewrite length_fmap. split; [|done].
      apply Forall_fmap. eapply Forall_impl; [exact Hsw|].
      intros row Hrow. simpl. unfold vadd0. by rewrite length_fmap.
    + destruct Ha as [Hs1 Hs2].
      destruct (madd_shape (width embed) s (mscale sim kg)) as [H1 H2];
        [done|done|congruence|].
      split; [done|congruence].
Qed.

Lemma user_cf_row_shape (embed : mat) (uid : nat)
    (user_dict sim_user_dict : gmap nat (list nat)) (x : mat) :
  has_width (width embed) embed →
  user_cf_row embed uid user_dict sim_user_dict = Ok x →
  has_width (width embed) x ∧ length x = 1.
Proof.
  intros Hw Hx. unfold user_cf_row in Hx.
  destruct (sim_user_dict !! uid) as [neighbours|]; [|done]. simpl in Hx.
  destruct (user_sim_loop embed uid user_dict neighbours Int0) as [a|] eqn:Hloop; [|done].
  simpl in Hx.
  pose proof (user_sim_loop_shape embed uid user_dict neighbours Hw Int0 a I Hloop) as Ha.
  destruct a as [|s n]; [done|]. simpl in Hx. injection Hx as <-.
  destruct Ha as [Hs1 Hs2]. unfold mdivs. rewrite length_fmap. split; [|done].
  apply Forall_fmap. eapply Forall_impl; [exact Hs1|].
  intros row Hrow. simpl. by rewrite vdivs_length.
Qed.

Lemma concat_shape (d : nat) (blocks : list mat) :
  Forall (fun x => has_width d x ∧ length x = 1) blocks →
  has_width d (concat blocks) ∧ length (concat blocks) = length blocks.
Proof.
  induction 1 as [|x blocks [Hx1 Hx2] _ [IH1 IH2]]; [by split; [constructor|]|].
  simpl. rewrite length_app, IH2, Hx2. split; [|done].
  by apply Forall_app.
Qed.

Lemma get_user_cf_embed_width (embed : mat) (ids : list nat)
    (user_dict sim_user_dict : gmap nat (list nat)) (cf : mat) :
  has_width (width embed) embed →
  get_user_cf_embed embed ids user_dict sim_user_dict = Ok cf →
  has_width (width embed) cf ∧ length cf = length ids.
Proof.
  intros Hw Hcf. unfold get_user_cf_embed in Hcf.
  destruct (mapM_result (fun uid => user_cf_row embed uid user_dict sim_user_dict) ids)
    as [blocks|] eqn:Hblocks; [|done].
  simpl in Hcf.
  assert (Forall (fun x => has_width (width embed) x ∧ length x = 1) blocks) as Hshape.
  { eapply mapM_result_Forall; [|exact Hblocks].
    intros uid x. by apply user_cf_row_shape. }
  pose proof (mapM_result_length _ _ _ Hblocks) as Hlen.
  destruct (concat_shape _ _ Hshape) as [Hcw Hcl].
  destruct blocks as [|b blocks]; [done|].
  rewrite <- Hlen, <- Hcl in Hcf.
  apply (view_rows_concat_inv (width embed)) in Hcf as (-> & _); [|done].
  split; [done|congruence].
Qed.

Lemma item_sim_loop_shape (all_embed : mat) (iid : nat) (item_dict : gmap nat (list nat))
    (neighbours : list nat) :
  has_width (width all_embed) all_embed →
  ∀ a a', item_accum_shape (width all_embed) a →
    item_sim_loop all_embed iid item_dict neighbours a = Ok a' →
    item_accum_shape (width all_embed) a'.
Proof.
  intros Hw. induction neighbours as [|v neighbours IH]; intros a a' Ha Hloop.
  - simpl in Hloop. by injection Hloop as <-.
  - simpl in Hloop.
    destruct (calk_sim iid v item_dict) as [sim|]; [|done]. simpl in Hloop.
    destruct (all_embed !! v) as [row|] eqn:Hrow; [|done]. simpl in Hloop.
    eapply IH; [|exact Hloop].
    assert (length row = width all_embed) as Hr
      by exact (Forall_lookup_1 _ _ _ _ Hw Hrow).
    destruct a as [|s n]; simpl.
    + unfold vadd0, vscale. by rewrite !length_fmap.
    + simpl in Ha. rewrite vadd_length; unfold vscale; rewrite ?length_fmap; congruence.
Qed.

Lemma item_cf_row_width (all_embed : mat) (iid : nat)
    (sim_item_dict item_dict : gmap nat (list nat)) (v : vec) :
  has_width (width all_embed) all_embed →
  item_cf_row all_embed iid sim_item_dict item_dict = Ok v →
  length v = width all_embed.
Proof.
  intros Hw Hv. unfold item_cf_row in Hv.
  destruct (sim_item_dict !! iid) as [neighbours|]; [|done]. simpl in Hv.
  destruct (item_sim_loop all_embed iid item_dict neighbours Int0) as [a|] eqn:Hloop;
    [|done].
  simpl in Hv.
  pose proof (item_sim_loop_shape all_embed iid item_dict neighbours Hw Int0 a I Hloop)
    as Ha.
  destruct a as [|s n]; [done|]. simpl in Hv. injection Hv as <-.
  by rewrite vdivs_length.
Qed.

Lemma Linear_forward_shape (L : Linear) (x y : mat) :
  bias L = None → Linear_forward L x = Ok y →
  length y = length x ∧ has_width (in_features L) x ∧ has_width (length (weight L)) y.
Proof.
  intros Hb Hy. unfold Linear_forward in Hy.
  split; [exact (mapM_result_length _ _ _ Hy)|].
  apply mapM_result_Forall2 in Hy.
  induction Hy as [|row out x y Hrow _ [IH1 IH2]]; [by split; constructor|].
  unfold Linear_row in Hrow. rewrite Hb in Hrow.
  destruct (decide (length row = in_features L)) as [Hlen|]; [|done].
  injection Hrow as <-.
  split; constructor; try done. by rewrite length_fmap.
Qed.

Lemma vrelu_shape (d : nat) (x : mat) :
  has_width d x → has_width d (vrelu <$> x) ∧ length (vrelu <$> x) = length x.
Proof.
  intros Hx. rewrite length_fmap. split; [|done].
  apply Forall_fmap. eapply Forall_impl; [exact Hx|].
  intros row Hrow. simpl. unfold vrelu. by rewrite length_fmap.
Qed.

(** The encoder accepts rows of width 352 only and returns rows of width
    176. *)
Lemma encoder_forward_width (rng : initializer) (x out : mat) :
  initializer_ok rng →
  Sequential_forward (make_encoder rng) x = Ok out →
  length out = length x ∧ has_width 352 x ∧ has_width 176 out.
Proof.
  intros Hrng Hout. unfold make_encoder in Hout.
  cbn [Sequential_forward layer_forward mbind result_bind] in Hout.
  destruct (Linear_forward (nn_Linear rng "0" (176 * 2) 176 false) x) as [y1|] eqn:H1;
    [|done].
  cbn [mbind result_bind] in Hout.
  destruct (Linear_forward (nn_Linear rng "2" 176 176 false) (vrelu <$> y1)) as [y2|] eqn:H2;
    [|done].
  cbn [mbind result_bind] in Hout. injection Hout as <-.
  apply Linear_forward_shape in H1 as (L1 & W1 & _); [|done].
  apply Linear_forward_shape in H2 as (L2 & _ & W2); [|done].
  cbn [weight in_features nn_Linear] in W1, W2.
  rewrite (init_weight_rows rng Hrng) in W2.
  destruct (vrelu_shape 176 y2 W2) as [R1 R2].
  rewrite length_fmap in L2.
  split; [congruence|]. split; [exact W1|exact R1].
Qed.

Lemma cat_cols_shape (d1 d2 : nat) (a b x : mat) :
  has_width d1 a → has_width d2 b → cat_cols a b = Ok x →
  length x = length a ∧ has_width (d1 + d2) x.
Proof.
  intros Ha Hb Hx. unfold cat_cols in Hx.
  destruct (decide (length a = length b)) as [Hlen|]; [|done].
  injection Hx as <-. rewrite length_zip_with. split; [lia|].
  clear Hlen. revert b Hb. induction Ha as [|u a Hu _ IH]; intros b Hb; [constructor|].
  destruct Hb as [|v b Hv Hb]; simpl; [constructor|].
  constructor; [|by apply IH].
  rewrite length_app. congruence.
Qed.

Lemma has_width_unique (d1 d2 : nat) (x : mat) :
  x ≠ [] → has_width d1 x → has_width d2 x → d1 = d2.
Proof.
  intros Hne H1 H2. destruct x as [|row x]; [done|].
  apply Forall_cons in H1 as [H1 _]. apply Forall_cons in H2 as [H2 _]. congruence.
Qed.

(** The user side: fusion succeeds only on a table of width 176 and
    returns one row of width 176 per user. *)
Lemma get_user_embed_width (rng : initializer) (m : KGAT) (embed : mat) (ids : list nat)
    (user_dict sim_user_dict : gmap nat (list nat)) (out : mat) :
  initializer_ok rng → user_encoder m = make_encoder rng →
  has_width (width embed) embed →
  get_user_embed m embed ids user_dict sim_user_dict = Ok out →
  width embed = 176 ∧ length out = length ids ∧ has_width 176 out.
Proof.
  intros Hrng Henc Hw Hout. unfold get_user_embed in Hout. rewrite Henc in Hout.
  destruct (get_user_kg_embed embed (IdTensor ids) user_dict) as [kg|] eqn:Hkg; [|done].
  cbn [mbind result_bind] in Hout.
  destruct (get_user_cf_embed embed ids user_dict sim_user_dict) as [cf|] eqn:Hcf; [|done].
  cbn [mbind result_bind] in Hout.
  destruct (cat_cols kg cf) as [final_embed|] eqn:Hcat; [|done].
  cbn [mbind result_bind] in Hout.
  apply get_user_kg_embed_width in Hkg as (Hkw & Hkl & Hkne); [|done].
  apply get_user_cf_embed_width in Hcf as (Hcw & Hcl); [|done].
  apply (cat_cols_shape (width embed) (width embed)) in Hcat as (Hfl & Hfw); [|done..].
  apply encoder_forward_width in Hout as (Hol & Hxw & How); [|done].
  assert (final_embed ≠ []) as Hfne.
  { intros ->. simpl in Hfl. destruct kg; [done|discriminate Hfl]. }
  pose proof (has_width_unique _ _ _ Hfne Hfw Hxw).
  repeat split; [lia|congruence|done].
Qed.

(** The item side. *)
Lemma get_item_embed_width (rng : initializer) (m : KGAT) (all_embed : mat)
    (ids : list nat) (sim_item_dict item_dict : gmap nat (list nat)) (out : mat) :
  initializer_ok rng → item_encoder m = make_encoder rng →
  has_width (width all_embed) all_embed →
  get_item_embed m all_embed ids sim_item_dict item_dict = Ok out →
  width all_embed = 176 ∧ length out = length ids ∧ has_width 176 out.
Proof.
  intros Hrng Henc Hw Hout. unfold get_item_embed in Hout. rewrite Henc in Hout.
  destruct (index_rows all_embed ids) as [kg|] eqn:Hkg; [|done].
  cbn [mbind result_bind] in Hout.
  destruct (mapM_result (fun iid => item_cf_row all_embed iid sim_item_dict item_dict) ids)
    as [rows|] eqn:Hrows; [|done].
  cbn [mbind result_bind] in Hout.
  assert (has_width (width all_embed) rows) as Hrw.
  { eapply mapM_result_Forall; [|exact Hrows].
    intros iid v. by apply item_cf_row_width. }
  pose proof (mapM_result_length _ _ _ Hrows) as Hrl.
  destruct rows as [|row rows]; [done|].
  rewrite <- Hrl in Hout.
  destruct (view_rows (length (row :: rows)) (concat (row :: rows))) as [cf|] eqn:Hcf;
    [|done].
  cbn [mbind result_bind] in Hout.
  apply (view_rows_concat_inv (width all_embed)) in Hcf as (-> & _); [|done].
  destruct (cat_cols kg (row :: rows)) as [final_embed|] eqn:Hcat; [|done].
  cbn [mbind result_bind] in Hout.
  apply index_rows_width in Hkg as (Hkw & Hkl); [|done].
  apply (cat_cols_shape (width all_embed) (width all_embed)) in Hcat as (Hfl & Hfw);
    [|done..].
  apply encoder_forward_width in Hout as (Hol & Hxw & How); [|done].
  assert (final_embed ≠ []) as Hfne.
  { intros ->. simpl in Hfl, Hrl. lia. }
  pose proof (has_width_unique _ _ _ Hfne Hfw Hxw).
  repeat split; [lia|congruence|done].
Qed.

(** *** The width of the multi-scale embedding *)

Lemma has_width_width (d : nat) (x : mat) : has_width d x → has_width (width x) x.
Proof.
  intros Hx. destruct x as [|row x]; [constructor|].
  simpl. pose proof (Forall_inv Hx) as Hrow. simpl in Hrow. by rewrite Hrow.
Qed.

Lemma scope_ok (prefix : string) (rng : initializer) :
  initializer_ok rng → initializer_ok (scope prefix rng).
Proof.
  intros Hrng. split; simpl; intros name.
  - apply (init_weight_rows rng Hrng).
  - apply (init_weight_cols rng Hrng).
  - apply (init_bias_length rng Hrng).
Qed.

Lemma nn_Linear_out_width (rng : initializer) (name : string) (inf outf : nat)
    (with_bias : bool) :
  initializer_ok rng → linear_out_width outf (nn_Linear rng name inf outf with_bias).
Proof.
  intros Hrng. split; simpl; [apply (init_weight_rows rng Hrng)|].
  destruct with_bias; [apply (init_bias_length rng Hrng)|done].
Qed.

Lemma Aggregator_init_out_width (rng : initializer) (d_in d_out : nat) (p : R)
    (scheme : string) (a : Aggregator) :
  initializer_ok rng → Aggregator_init rng d_in d_out p scheme = Ok a →
  aggregator_out_width a d_out.
Proof.
  intros Hrng Ha. unfold Aggregator_init in Ha.
  destruct (nn_Dropout p) as [drop|]; [|done]. cbn [mbind result_bind] in Ha.
  destruct (String.eqb scheme "gcn");
    [|destruct (String.eqb scheme "graphsage");
      [|destruct (String.eqb scheme "bi-interaction"); [|done]]];
    injection Ha as <-; repeat split; simpl; try done;
    try apply (init_weight_rows rng Hrng); try apply (init_bias_length rng Hrng).
Qed.

Lemma build_aggregators_widths (rng : initializer) (dims : list nat) (drops : list R)
    (scheme : string) (count : nat) :
  initializer_ok rng →
  ∀ start layers,
    build_aggregators rng dims drops scheme start count = Ok layers →
    Forall2 aggregator_out_width layers (take count (drop (S start) dims)).
Proof.
  intros Hrng. induction count as [|count IH]; intros start layers Hb; simpl in Hb.
  - injection Hb as <-. rewrite take_0. constructor.
  - destruct (dims !! start) as [d_in|]; [|done]. cbn [of_option mbind result_bind] in Hb.
    destruct (dims !! S start) as [d_out|] eqn:Hout; [|done].
    cbn [of_option mbind result_bind] in Hb.
    destruct (drops !! start) as [p|]; [|done]. cbn [of_option mbind result_bind] in Hb.
    destruct (Aggregator_init (scope (String.append (pretty start) ".") rng)
                d_in d_out p scheme) as [a|] eqn:Ha; [|done].
    cbn [mbind result_bind] in Hb.
    destruct (build_aggregators rng dims drops scheme (S start) count) as [rest|] eqn:Hr;
      [|done].
    cbn [mbind result_bind] in Hb. injection Hb as <-.
    rewrite (drop_S _ _ _ Hout). simpl. constructor; [|by apply IH].
    apply (Aggregator_init_out_width (scope (String.append (pretty start) ".") rng)
             d_in d_out p scheme); [by apply scope_ok|done].
Qed.

Lemma Linear_forward_out_width (d : nat) (L : Linear) (x y : mat) :
  linear_out_width d L → Linear_forward L x = Ok y → has_width d y.
Proof.
  intros [Hw Hb] Hy. unfold Linear_forward in Hy.
  eapply mapM_result_Forall; [|exact Hy].
  intros row out Hrow. unfold Linear_row in Hrow.
  destruct (decide (length row = in_features L)); [|done].
  injection Hrow as <-.
  destruct (bias L) as [b|].
  - rewrite vadd_length; rewrite length_fmap; congruence.
  - by rewrite length_fmap.
Qed.

Lemma activation_width (d : nat) (x : mat) : has_width d x → has_width d (activation x).
Proof.
  intros Hx. unfold activation. apply Forall_fmap.
  eapply Forall_impl; [exact Hx|]. intros row Hrow. simpl. by rewrite length_fmap.
Qed.

Lemma madd_width (d : nat) (a b : mat) :
  has_width d a → has_width d b → has_width d (madd a b).
Proof.
  intros Ha. revert b. induction Ha as [|u a Hu _ IH]; intros b Hb; [constructor|].
  destruct Hb as [|v b Hv Hb]; simpl; [constructor|].
  constructor; [|by apply IH]. rewrite vadd_length; congruence.
Qed.

Lemma Dropout_forward_width (d : nat) (drop : Dropout) (training : bool)
    (keep : nat → nat → bool) (x : mat) :
  has_width d x → has_width d (Dropout_forward drop training keep x).
Proof.
  intros Hx. unfold Dropout_forward. destruct training; [|done].
  apply Forall_lookup. intros i row Hrow.
  rewrite list_lookup_imap in Hrow.
  destruct (x !! i) as [r|] eqn:Hr; [|done]. injection Hrow as <-.
  rewrite length_imap. exact (Forall_lookup_1 _ _ _ _ Hx Hr).
Qed.

Lemma F_normalize_width (d : nat) (x : mat) : has_width d x → has_width d (F_normalize x).
Proof.
  intros Hx. unfold F_normalize. apply Forall_fmap.
  eapply Forall_impl; [exact Hx|]. intros row Hrow. simpl.
  unfold normalize_row. by rewrite vdivs_length.
Qed.

Lemma Aggregator_forward_width (a : Aggregator) (d : nat) (training : bool)
    (keep : nat → nat → bool) (mode : string) (g : DGLGraph) (x y : mat) :
  aggregator_out_width a d →
  Aggregator_forward a training keep mode g x = Ok y → has_width d y.
Proof.
  intros (HW & HW1 & HW2) Hy. unfold Aggregator_forward in Hy.
  destruct (decide (length x = number_of_nodes g)); [|done].
  cbn [mbind result_bind] in Hy.
  destruct (if String.eqb mode "predict" then update_all_mailbox_sum g x
            else update_all_builtin_sum g x) as [N_h|]; [|done].
  cbn [mbind result_bind] in Hy.
  destruct (String.eqb (aggregator_type a) "gcn").
  { destruct (W a) as [L|]; [|done]. cbn [of_option mbind result_bind] in Hy.
    destruct (Linear_forward L (madd x N_h)) as [z|] eqn:Hz; [|done].
    cbn [mbind result_bind] in Hy. injection Hy as <-.
    apply Dropout_forward_width, activation_width.
    by apply (Linear_forward_out_width d L (madd x N_h)). }
  destruct (String.eqb (aggregator_type a) "graphsage").
  { destruct (W a) as [L|]; [|done]. cbn [of_option mbind result_bind] in Hy.
    destruct (Linear_forward L (zip_with app x N_h)) as [z|] eqn:Hz; [|done].
    cbn [mbind result_bind] in Hy. injection Hy as <-.
    apply Dropout_forward_width, activation_width.
    by apply (Linear_forward_out_width d L (zip_with app x N_h)). }
  destruct (String.eqb (aggregator_type a) "bi-interaction"); [|done].
  destruct (W1 a) as [L1|]; [|done]. cbn [of_option mbind result_bind] in Hy.
  destruct (Linear_forward L1 (madd x N_h)) as [z1|] eqn:Hz1; [|done].
  cbn [mbind result_bind] in Hy.
  destruct (W2 a) as [L2|]; [|done]. cbn [of_option mbind result_bind] in Hy.
  destruct (Linear_forward L2 (mmul x N_h)) as [z2|] eqn:Hz2; [|done].
  cbn [mbind result_bind] in Hy. injection Hy as <-.
  apply Dropout_forward_width, madd_width; apply activation_width.
  - by apply (Linear_forward_out_width d L1 (madd x N_h)).
  - by apply (Linear_forward_out_width d L2 (mmul x N_h)).
Qed.

Lemma cf_layers_widths (training : bool) (keep : nat → nat → nat → bool) (mode : string)
    (g : DGLGraph) (layers : list Aggregator) (ds : list nat) :
  Forall2 aggregator_out_width layers ds →
  ∀ i ego_embed embeds,
    cf_layers training keep mode g layers i ego_embed = Ok embeds →
    Forall2 has_width ds embeds.
Proof.
  induction 1 as [|a d layers ds Ha _ IH]; intros i ego embeds Hl; simpl in Hl.
  - injection Hl as <-. constructor.
  - destruct (Aggregator_forward a training (keep i) mode g ego) as [ego'|] eqn:Hf;
      [|done].
    cbn [mbind result_bind] in Hl.
    destruct (cf_layers training keep mode g layers (S i) ego') as [rest|] eqn:Hr; [|done].
    cbn [mbind result_bind] in Hl. injection Hl as <-.
    constructor; [|by eapply IH].
    apply F_normalize_width.
    by apply (Aggregator_forward_width a d training (keep i) mode g ego).
Qed.

Lemma zip_with_app_width (d1 d2 : nat) (a b : mat) :
  has_width d1 a → has_width d2 b → has_width (d1 + d2) (zip_with app a b).
Proof.
  intros Ha. revert b. induction Ha as [|u a Hu _ IH]; intros b Hb; [constructor|].
  destruct Hb as [|v b Hv Hb]; simpl; [constructor|].
  constructor; [|by apply IH]. rewrite length_app. congruence.
Qed.

Lemma cat_dim1_width (ds : list nat) (rest : list mat) :
  Forall2 has_width ds rest →
  ∀ d0 m0, has_width d0 m0 → has_width (d0 + sum_list ds) (cat_dim1 (m0 :: rest)).
Proof.
  unfold cat_dim1.
  induction 1 as [|d m1 ds rest Hm1 _ IH]; intros d0 m0 Hm0; simpl.
  - by rewrite Nat.add_0_r.
  - replace (d0 + (d + sum_list ds)) with (d0 + d + sum_list ds) by lia.
    apply IH. by apply zip_with_app_width.
Qed.

(** What [KGAT.__init__] fixes, whatever the configuration: the two
    encoders; and what it derives from the configuration: the width of the
    entity embeddings and the output widths of the layers. *)
(** What a successful call of the constructor has done. *)
Lemma KGAT_init_Ok (rng : initializer) (args : Args) (users entities relations : nat)
    (user_pre_embed item_pre_embed : option mat) (m : KGAT) :
  KGAT_init rng args users entities relations user_pre_embed item_pre_embed = Ok m →
  (entity_embed m = init_weight rng "entity_embed.weight" entities (args_entity_dim args)
   ∨ ∃ u item_pre,
       user_pre_embed = Some u ∧ item_pre_embed = Some item_pre
       ∧ args_use_pretrain args = 1
       ∧ length item_pre ≤ entities
       ∧ has_width (args_entity_dim args) item_pre
       ∧ entity_embed m
         = item_pre ++ init_weight rng "other_entity_embed"
                         (entities - length item_pre) (args_entity_dim args))
  ∧ args_entity_dim args * args_relation_dim args
    + relations * args_relation_dim args ≠ 0
  ∧ build_aggregators (scope "aggregator_layers." rng)
      (args_entity_dim args :: args_conv_dim_list args)
      (args_mess_dropout args) (args_aggregation_type args) 0
      (length (args_conv_dim_list args)) = Ok (aggregator_layers m)
  ∧ relation_embed m
    = init_weight rng "relation_embed.weight" relations (args_relation_dim args)
  ∧ W_R m = init_weight3 rng "W_R" relations (args_entity_dim args) (args_relation_dim args)
  ∧ user_encoder m = make_encoder (scope "user_encoder." rng)
  ∧ item_encoder m = make_encoder (scope "item_encoder." rng)
  ∧ n_relations m = relations
  ∧ n_layers m = length (args_conv_dim_list args)
  ∧ W_r m = None
  ∧ training m = true.
Proof.
  intros Hm. unfold KGAT_init in Hm.
  match type of Hm with
  | (?E ≫= _) = _ => destruct E as [table|] eqn:HE; [|done]
  end.
  cbn [mbind result_bind] in Hm.
  unfold xavier_uniform_ in Hm.
  destruct (decide (args_entity_dim args * args_relation_dim args
                    + relations * args_relation_dim args = 0)) as [|Hfan]; [done|].
  cbn [mbind result_bind] in Hm.
  destruct (build_aggregators (scope "aggregator_layers." rng)
              (args_entity_dim args :: args_conv_dim_list args)
              (args_mess_dropout args) (args_aggregation_type args) 0
              (length (args_conv_dim_list args))) as [layers|] eqn:Hl; [|done].
  cbn [mbind result_bind] in Hm. injection Hm as <-. simpl.
  split; [|done].
  destruct user_pre_embed as [u|]; [|left; by injection HE as <-].
  destruct item_pre_embed as [item_pre|]; [|left; by injection HE as <-].
  destruct (decide (args_use_pretrain args = 1)) as [Hpre|];
    [|left; by injection HE as <-].
  destruct (decide (length item_pre ≤ entities)) as [Hle|]; [|done].
  destruct (xavier_uniform_ _ _); [|done]. cbn [mbind result_bind] in HE.
  destruct (decide (Forall (fun row => length row = args_entity_dim args) item_pre))
    as [Hw|]; [|done].
  injection HE as <-. right. by exists u, item_pre.
Qed.

Lemma KGAT_init_shapes (rng : initializer) (args : Args) (n_users n_entities n_relations : nat)
    (user_pre_embed item_pre_embed : option mat) (m : KGAT) :
  initializer_ok rng →
  KGAT_init rng args n_users n_entities n_relations user_pre_embed item_pre_embed = Ok m →
  user_encoder m = make_encoder (scope "user_encoder." rng)
  ∧ item_encoder m = make_encoder (scope "item_encoder." rng)
  ∧ has_width (args_entity_dim args) (entity_embed m)
  ∧ Forall2 aggregator_out_width (aggregator_layers m) (args_conv_dim_list args).
Proof.
  intros Hrng Hm.
  destruct (KGAT_init_Ok _ _ _ _ _ _ _ _ Hm)
    as (HE & _ & Hl & _ & _ & Hu & Hi & _).
  split; [exact Hu|]. split; [exact Hi|]. split.
  - destruct HE as [->|(u & item_pre & _ & _ & _ & _ & Hpre & ->)].
    + apply (init_weight_cols rng Hrng).
    + apply Forall_app. split; [done|]. apply (init_weight_cols rng Hrng).
  - apply (build_aggregators_widths (scope "aggregator_layers." rng)) in Hl;
      [|by apply scope_ok].
    simpl in Hl. by rewrite drop_0, firstn_all in Hl.
Qed.

Lemma cf_embedding_width (m : KGAT) (keep : nat → nat → nat → bool) (mode : string)
    (g : DGLGraph) (all_embed : mat) (d0 : nat) (ds : list nat) :
  has_width d0 (entity_embed m) →
  Forall2 aggregator_out_width (aggregator_layers m) ds →
  cf_embedding m keep mode g = Ok all_embed →
  has_width (d0 + sum_list ds) all_embed.
Proof.
  intros HE Hlayers Hall. unfold cf_embedding in Hall.
  destruct (mapM_result (entity_embed_lookup m) (ndata_id g)) as [ego|] eqn:Hego; [|done].
  cbn [mbind result_bind] in Hall.
  destruct (cf_layers (training m) keep mode g (aggregator_layers m) 0 ego)
    as [embeds|] eqn:Hl; [|done].
  cbn [mbind result_bind] in Hall. injection Hall as <-.
  apply cat_dim1_width.
  - by apply (cf_layers_widths (training m) keep mode g (aggregator_layers m) ds Hlayers 0 ego).
  - exact (lookups_finite _ _ _ _ HE Hego).
Qed.

(** C9.  Whatever the configured entity_dim and layer dimensions, the
    constructor gives both fusion encoders the input width 352 and the
    output width 176.  Hence, on the multi-scale embedding that
    [cf_embedding] returns, whose width is entity_dim plus all layer output
    dimensions, [get_user_embed] and [get_item_embed] succeed only when that
    width is exactly 176; and when they succeed they return one embedding of
    dimension 176 per id. *)
Theorem fusion_encoder_widths (rng : initializer) (args : Args)
    (n_users n_entities n_relations : nat) (user_pre_embed item_pre_embed : option mat)
    (m : KGAT) (keep : nat → nat → nat → bool) (mode : string) (g : DGLGraph)
    (all_embed : mat) (ids : list nat) (i_dict sim_dict : gmap nat (list nat))
    (out : mat) :
  initializer_ok rng →
  KGAT_init rng args n_users n_entities n_relations user_pre_embed item_pre_embed = Ok m →
  cf_embedding m keep mode g = Ok all_embed →
  get_user_embed m all_embed ids i_dict sim_dict = Ok out
  ∨ get_item_embed m all_embed ids sim_dict i_dict = Ok out →
  user_encoder m
    = [ LinearLayer (nn_Linear (scope "user_encoder." rng) "0" 352 176 false); ReLULayer;
        LinearLayer (nn_Linear (scope "user_encoder." rng) "2" 176 176 false); ReLULayer ]
  ∧ item_encoder m
    = [ LinearLayer (nn_Linear (scope "item_encoder." rng) "0" 352 176 false); ReLULayer;
        LinearLayer (nn_Linear (scope "item_encoder." rng) "2" 176 176 false); ReLULayer ]
  ∧ has_width (args_entity_dim args + sum_list (args_conv_dim_list args)) all_embed
  ∧ args_entity_dim args + sum_list (args_conv_dim_list args) = 176
  ∧ length out = length ids
  ∧ has_width 176 out.
Proof.
  intros Hrng Hm Hall Hout.
  destruct (KGAT_init_shapes rng args n_users n_entities n_relations
              user_pre_embed item_pre_embed m Hrng Hm) as (Hu & Hi & HE & Hlayers).
  pose proof (cf_embedding_width m keep mode g all_embed _ _ HE Hlayers Hall) as Hw.
  pose proof (has_width_width _ _ Hw) as Hww.
  assert (width all_embed = 176 ∧ length out = length ids ∧ has_width 176 out)
    as (H176 & Hlen & How).
  { destruct Hout as [Hout|Hout].
    - apply (get_user_embed_width (scope "user_encoder." rng) m all_embed ids
               i_dict sim_dict); [by apply scope_ok|done..].
    - apply (get_item_embed_width (scope "item_encoder." rng) m all_embed ids
               sim_dict i_dict); [by apply scope_ok|done..]. }
  assert (all_embed ≠ []) as Hne by (intros ->; discriminate H176).
  pose proof (has_width_unique _ _ _ Hne Hw Hww) as HD.
  split; [exact Hu|]. split; [exact Hi|]. split; [exact Hw|].
  split; [lia|]. by split.
Qed.

Lemma ones_init_ok : initializer_ok ones_init.
Proof.
  split; simpl.
  - intros _ r c. apply length_replicate.
  - intros _ r c. apply Forall_replicate, length_replicate.
  - intros _ n. apply length_replicate.
Defined.

Lemma layered_model_init :
  KGAT_init ones_init layered_args 1 2 1 None None = Ok layered_model.
Proof.
  unfold KGAT_init, layered_args. simpl.
  unfold Aggregator_init, nn_Dropout.
  destruct (Rlt_dec (1 / 10) 0) as [H|_]; [exfalso; lra|].
  destruct (Rlt_dec 1 (1 / 10)) as [H|_]; [exfalso; lra|].
  reflexivity.
Defined.

Lemma fusion_encoder_widths_witness :
  ∃ all_embed out : mat,
    user_encoder layered_model
      = [ LinearLayer (nn_Linear (scope "user_encoder." ones_init) "0" 352 176 false);
          ReLULayer;
          LinearLayer (nn_Linear (scope "user_encoder." ones_init) "2" 176 176 false);
          ReLULayer ]
    ∧ item_encoder layered_model
      = [ LinearLayer (nn_Linear (scope "item_encoder." ones_init) "0" 352 176 false);
          ReLULayer;
          LinearLayer (nn_Linear (scope "item_encoder." ones_init) "2" 176 176 false);
          ReLULayer ]
    ∧ has_width (args_entity_dim layered_args + sum_list (args_conv_dim_list layered_args))
        all_embed
    ∧ args_entity_dim layered_args + sum_list (args_conv_dim_list layered_args) = 176
    ∧ length out = length [0]
    ∧ has_width 176 out.
Proof.
  eexists _, _.
  eapply (fusion_encoder_widths ones_init layered_args 1 2 1 None None layered_model
            (fun _ _ _ => true) "predict" two_node_graph _ [0]
            {[0 := [0; 1]; 1 := [1]]} {[0 := [1]]}).
  - exact ones_init_ok.
  - exact layered_model_init.
  - reflexivity.
  - left. reflexivity.
Defined.

(** * Further properties of the code *)

(** ** [calk_sim]: the Jaccard similarity *)

Lemma list_to_set_empty_nil (l : list nat) : (list_to_set l : gset nat) = ∅ → l = [].
Proof.
  destruct l as [|x l]; [done|]. intros H.
  assert (x ∈ (list_to_set (x :: l) : gset nat)) as Hx
    by (apply elem_of_list_to_set; left).
  rewrite H in Hx. by apply elem_of_empty in Hx.
Qed.

Lemma size_list_to_set_zero (l : list nat) : size (list_to_set l : gset nat) = 0 → l = [].
Proof. intros H. apply list_to_set_empty_nil. by apply size_empty_iff, leibniz_equiv in H. Qed.

(** [calk_sim] is symmetric in its two ids, the exceptions included. *)
Theorem calk_sim_symmetric (idx sim_idx : nat) (i_dict : gmap nat (list nat)) :
  calk_sim idx sim_idx i_dict = calk_sim sim_idx idx i_dict.
Proof.
  unfold calk_sim.
  destruct (i_dict !! idx) as [staffs|], (i_dict !! sim_idx) as [staffs2|]; simpl;
    try done.
  by rewrite (union_comm_L (list_to_set staffs2)),
             (intersection_comm_L (list_to_set staffs2)).
Qed.

(** The similarity of an id with itself is 1, provided its interaction list
    is not empty. *)
Theorem calk_sim_self (idx : nat) (i_dict : gmap nat (list nat)) (staffs : list nat) :
  i_dict !! idx = Some staffs → staffs ≠ [] →
  calk_sim idx idx i_dict = Ok (Fin 1).
Proof.
  intros Hs Hne. unfold calk_sim. rewrite Hs. simpl.
  rewrite union_idemp_L, intersection_idemp_L.
  destruct (decide (size (list_to_set staffs : gset nat) = 0)) as [Hz|Hz].
  { by apply size_list_to_set_zero in Hz. }
  do 2 f_equal. field. apply not_0_INR. exact Hz.
Qed.

Lemma calk_sim_self_witness :
  calk_sim 4 4 {[4 := [7; 7; 9]]} = Ok (Fin 1).
Proof. apply (calk_sim_self 4 _ [7; 7; 9]); [reflexivity|discriminate]. Defined.

(** The exceptions of [calk_sim]: [KeyError] exactly when one of the two ids
    is missing from the dictionary, [ZeroDivisionError] exactly when both
    interaction lists are empty. *)
Theorem calk_sim_exceptions (idx sim_idx : nat) (i_dict : gmap nat (list nat)) (e : exn) :
  calk_sim idx sim_idx i_dict = Err e ↔
    (e = KeyError ∧ (i_dict !! idx = None ∨ i_dict !! sim_idx = None))
    ∨ (e = ZeroDivisionError ∧ i_dict !! idx = Some [] ∧ i_dict !! sim_idx = Some []).
Proof.
  unfold calk_sim.
  destruct (i_dict !! idx) as [staffs|] eqn:H1; simpl.
  2:{ split; [intros [= <-]; left; eauto|].
      intros [[-> _]|[_ [? _]]]; done. }
  destruct (i_dict !! sim_idx) as [staffs2|] eqn:H2; simpl.
  2:{ split; [intros [= <-]; left; eauto|].
      intros [[-> _]|[_ [_ ?]]]; done. }
  destruct (decide (size ((list_to_set staffs : gset nat) ∪ list_to_set staffs2) = 0))
    as [Hz|Hz].
  - apply size_empty_iff, leibniz_equiv, empty_union_L in Hz as [Hz1 Hz2].
    apply list_to_set_empty_nil in Hz1, Hz2. subst.
    split; [intros [= <-]; right; eauto|].
    intros [[_ [?|?]]|[-> _]]; done.
  - split; [done|].
    intros [[_ [?|?]]|[_ [[= ->] [= ->]]]]; done.
Qed.

(** When it returns, [calk_sim] returns a number between 0 and 1: 0 exactly
    when the two lists have no common item, 1 exactly when they hold the
    same items. *)
Theorem calk_sim_range (idx sim_idx : nat) (i_dict : gmap nat (list nat))
    (staffs staffs2 : list nat) (x : float) :
  i_dict !! idx = Some staffs → i_dict !! sim_idx = Some staffs2 →
  calk_sim idx sim_idx i_dict = Ok x →
  ∃ s : R, x = Fin s ∧ (0 <= s <= 1)%R
    ∧ (s = 0%R ↔ ∀ i, i ∈ staffs → i ∉ staffs2)
    ∧ (s = 1%R ↔ ∀ i, i ∈ staffs ↔ i ∈ staffs2).
Proof.
  intros H1 H2. unfold calk_sim. rewrite H1, H2. simpl.
  set (A := (list_to_set staffs : gset nat)).
  set (B := (list_to_set staffs2 : gset nat)).
  destruct (decide (size (A ∪ B) = 0)) as [Hz|Hz]; [done|].
  intros [= <-]. eexists; split; [reflexivity|].
  assert (A ∩ B ⊆ A ∪ B) as Hsub.
  { intros i [Hi _]%elem_of_intersection. apply elem_of_union. by left. }
  pose proof (subseteq_size _ _ Hsub) as Hle.
  assert (0 < INR (size (A ∪ B)))%R as Hpos by (apply lt_0_INR; lia).
  assert (0 <= INR (size (A ∩ B)) <= INR (size (A ∪ B)))%R as [Hi0 Hi1]
    by (split; [apply pos_INR|by apply le_INR]).
  split; [|split].
  - split.
    + apply Rmult_le_pos; [done|]. by apply Rlt_le, Rinv_0_lt_compat.
    + apply (Rmult_le_reg_r (INR (size (A ∪ B)))); [done|].
      unfold Rdiv. rewrite Rmult_assoc, Rinv_l by lra. lra.
  - split.
    + intros Hs i Hi Hi2.
      assert (INR (size (A ∩ B)) = 0%R) as H0.
      { apply (Rmult_eq_reg_r (/ INR (size (A ∪ B)))); [|by apply Rinv_neq_0_compat, Rgt_not_eq].
        unfold Rdiv in Hs. lra. }
      change 0%R with (INR 0) in H0. apply INR_eq in H0. apply size_empty_iff in H0.
      assert (i ∈ A ∩ B) as Hin
        by (apply elem_of_intersection; unfold A, B; by rewrite !elem_of_list_to_set).
      rewrite H0 in Hin. by apply elem_of_empty in Hin.
    + intros Hdis.
      assert (A ∩ B ≡ ∅) as H0.
      { apply elem_of_equiv_empty. intros i [Hi Hi2]%elem_of_intersection.
        unfold A, B in Hi, Hi2. rewrite elem_of_list_to_set in Hi, Hi2.
        by apply (Hdis i). }
      apply size_empty_iff in H0. rewrite H0. simpl. unfold Rdiv. lra.
  - split.
    + intros Hs.
      assert (INR (size (A ∩ B)) = INR (size (A ∪ B))) as Heq.
      { apply (Rmult_eq_reg_r (/ INR (size (A ∪ B)))); [|by apply Rinv_neq_0_compat, Rgt_not_eq].
        unfold Rdiv in Hs. rewrite Hs, Rinv_r; [done|by apply Rgt_not_eq]. }
      apply INR_eq in Heq.
      assert (A ∩ B ≡ A ∪ B) as Hsets
        by (apply set_subseteq_size_equiv; [done|lia]).
      intros i. pose proof (Hsets i) as Hi.
      unfold A, B in Hi.
      rewrite elem_of_intersection, elem_of_union, !elem_of_list_to_set in Hi. tauto.
    + intros Hsame.
      assert (A ∩ B ≡ A ∪ B) as Hsets.
      { unfold A, B. apply set_equiv. intros i.
        rewrite elem_of_intersection, elem_of_union, !elem_of_list_to_set.
        specialize (Hsame i). tauto. }
      apply leibniz_equiv in Hsets. rewrite Hsets.
      unfold Rdiv. apply Rinv_r. by apply Rgt_not_eq.
Qed.

Lemma calk_sim_range_witness :
  ∃ s : R, Fin (INR 1 / INR 3) = Fin s ∧ (0 <= s <= 1)%R
    ∧ (s = 0%R ↔ ∀ i, i ∈ [1; 2] → i ∉ [2; 3])
    ∧ (s = 1%R ↔ ∀ i, i ∈ [1; 2] ↔ i ∈ [2; 3]).
Proof.
  apply (calk_sim_range 0 1 {[0 := [1; 2]; 1 := [2; 3]]} [1; 2] [2; 3]);
    reflexivity.
Defined.

(** ** [compute_attention] and [forward]: what happens to the model *)

Lemma set_W_r_same (m : KGAT) : set_W_r m (W_r m) = m.
Proof. by destruct m. Qed.

(** Whatever the relation loop returns, it has changed at most the
    attribute [W_r]; when it succeeds after at least one round, [W_r] is the
    matrix of the last relation. *)
Lemma attention_loop_model (count : nat) : ∀ (m : KGAT) (g : DGLGraph) (start : nat),
  (attention_loop m g start count).2 = set_W_r m (W_r (attention_loop m g start count).2)
  ∧ (is_ok (attention_loop m g start count).1 = true → 0 < count →
     W_r (attention_loop m g start count).2 = W_R m !! (start + count - 1)
     ∧ is_Some (W_R m !! (start + count - 1))).
Proof.
  induction count as [|count IH]; intros m g start; simpl.
  - split; [by rewrite set_W_r_same|lia].
  - destruct (W_R m !! start) as [w|] eqn:Hw; simpl.
    2:{ split; [by rewrite set_W_r_same|done]. }
    destruct (apply_edges g (att_score (set_W_r m (Some w)) g)
                (filter_edges g (fun e => Nat.eqb (etype e) start))) as [g'|] eqn:Ha;
      simpl.
    2:{ split; [done|done]. }
    destruct (IH (set_W_r m (Some w)) g' (S start)) as [IH1 IH2].
    split.
    + rewrite IH1 at 1. done.
    + intros Hok _. destruct count as [|count].
      * simpl. replace (start + 1 - 1) with start by lia. rewrite Hw. by split.
      * destruct (IH2 Hok) as [H1 H2]; [lia|].
        simpl in H1, H2.
        replace (start + S (S count) - 1) with (S start + S count - 1) by lia.
        by split.
Qed.

Lemma compute_attention_model (m : KGAT) (g : DGLGraph) :
  (compute_attention m g).2 = set_W_r m (W_r (compute_attention m g).2).
Proof.
  unfold compute_attention, raw_attention.
  pose proof (attention_loop_model (n_relations m) m g 0) as [H _].
  destruct (attention_loop m g 0 (n_relations m)) as [[g'|e] m']; simpl in *.
  - destruct (edata_att g'); simpl; exact H.
  - exact H.
Qed.

(** [compute_attention] never changes a parameter of the model: the model it
    leaves behind differs from the one it was called on in the attribute
    [W_r] at most, also when it raises. *)
Theorem compute_attention_keeps_parameters (m : KGAT) (g : DGLGraph) :
  (compute_attention m g).2 = set_W_r m (W_r (compute_attention m g).2).
Proof. apply compute_attention_model. Qed.

(** After a successful [compute_attention] on a model with at least one
    relation, the shared attribute [W_r] holds the projection matrix of the
    last relation. *)
Theorem compute_attention_leaves_last_W_r (m : KGAT) (g : DGLGraph) :
  is_ok (compute_attention m g).1 = true → 0 < n_relations m →
  ∃ w, W_R m !! (n_relations m - 1) = Some w
       ∧ W_r (compute_attention m g).2 = Some w.
Proof.
  unfold compute_attention, raw_attention. intros Hok Hpos.
  pose proof (attention_loop_model (n_relations m) m g 0) as [_ H].
  destruct (attention_loop m g 0 (n_relations m)) as [[g'|e] m']; simpl in *.
  - destruct H as [H1 [w Hw]]; [done|done|].
    exists w. split; [done|].
    destruct (edata_att g'); simpl; congruence.
  - done.
Qed.

Lemma compute_attention_leaves_last_W_r_witness :
  ∃ w, W_R scenario_model !! (n_relations scenario_model - 1) = Some w
       ∧ W_r (compute_attention scenario_model scenario_graph).2 = Some w.
Proof.
  apply compute_attention_leaves_last_W_r; [reflexivity|simpl; lia].
Defined.

(** [forward] leaves the model as it is in every mode but 'calc_att', where
    it changes the attribute [W_r] at most. *)
Theorem forward_keeps_parameters (m : KGAT) (keep : nat → nat → nat → bool)
    (mode : string) (input : list pyarg) :
  (forward m keep mode input).2 =
    if String.eqb mode "calc_att"
    then set_W_r m (W_r (forward m keep mode input).2)
    else m.
Proof.
  unfold forward. destruct (String.eqb mode "calc_att").
  - destruct (arity 1 input); [|by rewrite set_W_r_same].
    destruct (graph_arg input 0) as [g|]; [|by rewrite set_W_r_same].
    pose proof (compute_attention_model m g) as H.
    destruct (compute_attention m g) as [[att|e] m']; exact H.
  - destruct (String.eqb mode "calc_cf_loss"); [done|].
    destruct (String.eqb mode "calc_kg_loss"); [done|].
    by destruct (String.eqb mode "predict").
Qed.

(** ** [compute_attention]: what the edge field holds *)

(** An edge whose label is not a relation of the model is never scored: the
    loop leaves its entry of the edge field as it was, and 0 when the field
    did not exist. *)
Theorem unlabelled_edge_keeps_attention (m : KGAT) (g : DGLGraph) (k : nat) (e : edge) :
  attention_input_ok m g → 0 < n_relations m →
  edges g !! k = Some e → n_relations m ≤ etype e →
  ∃ raw m',
    raw_attention m g = (Ok raw, m')
    ∧ raw !! k = match edata_att g with
                 | Some col => col !! k
                 | None => Some (Fin 0)
                 end.
Proof.
  intros Hok Hpos Hk Hr.
  destruct (raw_attention_spec m g Hok Hpos) as (raw & m' & Hraw & _ & Hscore).
  exists raw, m'. split; [done|].
  rewrite (Hscore k e Hk). destruct (decide (etype e < n_relations m)); [lia|].
  unfold col_of. destruct (edata_att g) as [col|]; simpl; [done|].
  apply lookup_replicate_2. by eapply lookup_lt_Some.
Qed.

Lemma stale_graph_ok : attention_input_ok scenario_model stale_graph.
Proof.
  split; [reflexivity|reflexivity| |by intros col [= <-]].
  repeat constructor.
  - exists 0, 2. simpl. repeat split; lia.
  - exists 1, 2. simpl. repeat split; lia.
  - simpl. lia.
Defined.

Lemma unlabelled_edge_keeps_attention_witness :
  ∃ raw m',
    raw_attention scenario_model stale_graph = (Ok raw, m')
    ∧ raw !! 2 = Some (Fin 5).
Proof.
  apply (unlabelled_edge_keeps_attention scenario_model stale_graph 2 (mkEdge 0 1 5)).
  - exact stale_graph_ok.
  - simpl. lia.
  - reflexivity.
  - simpl. lia.
Defined.

Lemma without_att_ok (m : KGAT) (g : DGLGraph) :
  attention_input_ok m g → attention_input_ok m (without_att g).
Proof.
  intros [H1 H2 H3 H4]. split; [done|done| |done].
  eapply Forall_impl; [exact H3|]. intros e He Hlt. exact (He Hlt).
Qed.

(** When every edge carries a relation of the model, [compute_attention]
    recomputes every weight: an edge field left by an earlier pass has no
    influence on the result. *)
Theorem compute_attention_ignores_old_field (m : KGAT) (g : DGLGraph) :
  attention_input_ok m g → 0 < n_relations m →
  Forall (fun e => etype e < n_relations m) (edges g) →
  (compute_attention m g).1 = (compute_attention m (without_att g)).1.
Proof.
  intros Hok Hpos Htypes.
  destruct (raw_attention_spec m g Hok Hpos) as (raw & m1 & Hraw & Hlen & Hscore).
  destruct (raw_attention_spec m (without_att g) (without_att_ok m g Hok) Hpos)
    as (raw' & m2 & Hraw' & Hlen' & Hscore').
  unfold compute_attention. rewrite Hraw, Hraw'. simpl.
  assert (raw = raw') as ->.
  { apply list_eq. intros k.
    destruct (edges g !! k) as [e|] eqn:He.
    - rewrite (Hscore k e He), (Hscore' k e He).
      rewrite Forall_forall in Htypes.
      specialize (Htypes e (list_elem_of_lookup_2 _ _ _ He)).
      by destruct (decide (etype e < n_relations m)); [|lia].
    - apply lookup_ge_None in He.
      rewrite (lookup_ge_None_2 raw), (lookup_ge_None_2 raw'); [done|..];
        simpl in *; lia. }
  done.
Qed.

Lemma compute_attention_ignores_old_field_witness :
  (compute_attention scenario_model
     (mkGraph [0; 1; 2] [mkEdge 0 2 0; mkEdge 1 2 0] (Some [Fin 3; Fin 4]))).1
  = (compute_attention scenario_model
       (without_att (mkGraph [0; 1; 2] [mkEdge 0 2 0; mkEdge 1 2 0]
                       (Some [Fin 3; Fin 4])))).1.
Proof.
  apply compute_attention_ignores_old_field.
  - split; [reflexivity|reflexivity| |by intros col [= <-]].
    repeat constructor.
    + exists 0, 2. simpl. repeat split; lia.
    + exists 1, 2. simpl. repeat split; lia.
  - simpl. lia.
  - repeat constructor.
Defined.

(** ** [calc_kg_loss]: exceptions, the empty batch, positivity *)

(** Indexing a table with a list of ids either returns one row per id, all
    ids being in range, or raises [IndexError], some id being out of
    range. *)
Lemma lookups_cases {A} (table : list A) (ids : list nat) :
  (∃ rows, mapM_result (fun i => of_option IndexError (table !! i)) ids = Ok rows
           ∧ length rows = length ids
           ∧ Forall (fun i => i < length table) ids)
  ∨ (mapM_result (fun i => of_option IndexError (table !! i)) ids = Err IndexError
     ∧ Exists (fun i => length table ≤ i) ids).
Proof.
  induction ids as [|i ids IH]; simpl.
  - left. by exists [].
  - destruct (table !! i) as [x|] eqn:Hx; simpl.
    + destruct IH as [(rows & -> & Hlen & Hall)|[-> Hex]]; simpl.
      * left. exists (x :: rows). simpl. repeat split; [by rewrite Hlen|].
        constructor; [by eapply lookup_lt_Some|done].
      * right. split; [done|by right].
    + right. split; [done|]. left. by apply lookup_ge_None.
Qed.

Lemma Exists_not_Forall_lt (n : nat) (ids : list nat) :
  Exists (fun i => n ≤ i) ids → Forall (fun i => i < n) ids → False.
Proof.
  intros Hex Hall. rewrite Exists_exists in Hex. destruct Hex as (i & Hi & Hle).
  rewrite Forall_forall in Hall. specialize (Hall i Hi). lia.
Qed.

(** An id that is out of range, in any of the four arguments, makes
    [calc_kg_loss] raise [IndexError], whatever the batch sizes are: all
    embeddings are looked up before any product is formed. *)
Theorem calc_kg_loss_IndexError (m : KGAT) (h r pos_t neg_t : list nat) :
  Exists (fun i => length (relation_embed m) ≤ i) r
  ∨ Exists (fun i => length (W_R m) ≤ i) r
  ∨ Exists (fun i => length (entity_embed m) ≤ i) h
  ∨ Exists (fun i => length (entity_embed m) ≤ i) pos_t
  ∨ Exists (fun i => length (entity_embed m) ≤ i) neg_t →
  calc_kg_loss m h r pos_t neg_t = Err IndexError.
Proof.
  intros Hbad. unfold calc_kg_loss, relation_embed_lookup, entity_embed_lookup.
  destruct (lookups_cases (relation_embed m) r) as [(x1 & -> & _ & F1)|[-> _]]; [|done].
  cbn [mbind result_bind].
  destruct (lookups_cases (W_R m) r) as [(x2 & -> & _ & F2)|[-> _]]; [|done].
  cbn [mbind result_bind].
  destruct (lookups_cases (entity_embed m) h) as [(x3 & -> & _ & F3)|[-> _]]; [|done].
  cbn [mbind result_bind].
  destruct (lookups_cases (entity_embed m) pos_t) as [(x4 & -> & _ & F4)|[-> _]]; [|done].
  cbn [mbind result_bind].
  destruct (lookups_cases (entity_embed m) neg_t) as [(x5 & -> & _ & F5)|[-> _]]; [|done].
  exfalso.
  destruct Hbad as [H|[H|[H|[H|H]]]]; eapply Exists_not_Forall_lt; eauto.
Qed.

Lemma calc_kg_loss_IndexError_witness :
  calc_kg_loss scenario_model [0; 1] [0] [2; 7] [1] = Err IndexError.
Proof.
  apply calc_kg_loss_IndexError.
  right. right. right. left. apply Exists_cons_tl, Exists_cons_hd. simpl. lia.
Defined.

(** With all ids in range, [calc_kg_loss] returns a loss exactly when the
    four arguments have the same length, and raises [RuntimeError]
    otherwise. *)
Theorem calc_kg_loss_batch_sizes (m : KGAT) (h r pos_t neg_t : list nat) :
  Forall (fun i => i < length (relation_embed m)) r →
  Forall (fun i => i < length (W_R m)) r →
  Forall (fun i => i < length (entity_embed m)) (h ++ pos_t ++ neg_t) →
  if decide (length h = length r ∧ length pos_t = length r ∧ length neg_t = length r)
  then is_ok (calc_kg_loss m h r pos_t neg_t) = true
  else calc_kg_loss m h r pos_t neg_t = Err RuntimeError.
Proof.
  intros G1 G2 G3.
  apply Forall_app in G3 as [G3 G45]. apply Forall_app in G45 as [G4 G5].
  unfold calc_kg_loss, relation_embed_lookup, entity_embed_lookup.
  destruct (lookups_cases (relation_embed m) r) as [(x1 & -> & L1 & _)|[_ E]];
    [|destruct (Exists_not_Forall_lt _ _ E G1)].
  cbn [mbind result_bind].
  destruct (lookups_cases (W_R m) r) as [(x2 & -> & L2 & _)|[_ E]];
    [|destruct (Exists_not_Forall_lt _ _ E G2)].
  cbn [mbind result_bind].
  destruct (lookups_cases (entity_embed m) h) as [(x3 & -> & L3 & _)|[_ E]];
    [|destruct (Exists_not_Forall_lt _ _ E G3)].
  cbn [mbind result_bind].
  destruct (lookups_cases (entity_embed m) pos_t) as [(x4 & -> & L4 & _)|[_ E]];
    [|destruct (Exists_not_Forall_lt _ _ E G4)].
  cbn [mbind result_bind].
  destruct (lookups_cases (entity_embed m) neg_t) as [(x5 & -> & L5 & _)|[_ E]];
    [|destruct (Exists_not_Forall_lt _ _ E G5)].
  cbn [mbind result_bind]. unfold bmm_rows.
  destruct (decide (length h = length r ∧ length pos_t = length r ∧ length neg_t = length r))
    as [(E1 & E2 & E3)|Hne].
  - destruct (decide (length x3 = length x2)); [|lia]. cbn [mbind result_bind].
    destruct (decide (length x4 = length x2)); [|lia]. cbn [mbind result_bind].
    destruct (decide (length x5 = length x2)); [|lia]. done.
  - destruct (decide (length x3 = length x2)); [|done]. cbn [mbind result_bind].
    destruct (decide (length x4 = length x2)); [|done]. cbn [mbind result_bind].
    destruct (decide (length x5 = length x2)); [|done].
    exfalso. apply Hne. lia.
Qed.

Lemma calc_kg_loss_batch_sizes_witness :
  calc_kg_loss scenario_model [0; 1] [0] [2; 2] [1; 0] = Err RuntimeError.
Proof.
  assert (Forall (fun i => i < length (relation_embed scenario_model)) [0]) as G1
    by (repeat constructor).
  assert (Forall (fun i => i < length (W_R scenario_model)) [0]) as G2
    by (repeat constructor).
  assert (Forall (fun i => i < length (entity_embed scenario_model))
            ([0; 1] ++ [2; 2] ++ [1; 0])) as G3 by (simpl; repeat constructor).
  exact (calc_kg_loss_batch_sizes scenario_model [0; 1] [0] [2; 2] [1; 0] G1 G2 G3).
Defined.

Section kg_loss_value.
#[local] Open Scope R_scope.

Lemma sum_squares_nonneg (row : vec) :
  Forall is_finite row → ∃ q, vsum (fsquare <$> row) = Fin q ∧ 0 <= q.
Proof.
  induction 1 as [|a row Ha _ (q & Hq & Hq0)].
  - exists 0. split; [done|lra].
  - apply is_finite_Fin in Ha as [x ->].
    exists (x * x + q). rewrite fmap_cons.
    change (vsum (fsquare (Fin x) :: (fsquare <$> row)))
      with (fadd (fsquare (Fin x)) (vsum (fsquare <$> row))).
    rewrite Hq. split; [done|nra].
Qed.

Lemma Rsum_nonneg (rs : list R) : Forall (fun r => 0 <= r) rs → 0 <= Rsum rs.
Proof. induction 1 as [|r rs Hr _ IH]; simpl; lra. Qed.

Lemma Forall_nonneg_Fin (v : vec) :
  Forall (fun a => ∃ y, a = Fin y ∧ 0 <= y) v →
  ∃ ys, v = Fin <$> ys ∧ Forall (fun y => 0 <= y) ys.
Proof.
  induction 1 as [|a v (y & -> & Hy) _ (ys & -> & Hys)].
  - by exists [].
  - exists (y :: ys). split; [done|by constructor].
Qed.

(** [_L2_loss_mean] of a non-empty tensor of finite numbers is a finite,
    non-negative number. *)
Lemma L2_loss_mean_nonneg (x : mat) :
  x ≠ [] → Forall (Forall is_finite) x → ∃ a, _L2_loss_mean x = Fin a ∧ 0 <= a.
Proof.
  intros Hne Hx. unfold _L2_loss_mean.
  assert (Forall (fun a => ∃ y, a = Fin y ∧ 0 <= y)
            ((fun row : vec => fdiv (vsum (fsquare <$> row)) (Fin 2)) <$> x)) as Hrows.
  { apply Forall_fmap. eapply Forall_impl; [exact Hx|].
    intros row Hrow. simpl.
    destruct (sum_squares_nonneg row Hrow) as (q & -> & Hq).
    exists (q / 2). rewrite fdiv_Fin_pos by lra. split; [done|lra]. }
  apply Forall_nonneg_Fin in Hrows as (ys & Hys & Hpos). rewrite Hys.
  assert (ys ≠ []) as Hne' by (intros ->; destruct x; [done|discriminate Hys]).
  rewrite vmean_Fin by done.
  eexists; split; [reflexivity|].
  apply Rmult_le_pos; [by apply Rsum_nonneg|].
  apply Rlt_le, Rinv_0_lt_compat, lt_0_INR. destruct ys; [done|simpl; lia].
Qed.

(** The pairwise logistic term is positive. *)
Lemma logistic_term_pos (z : R) : 0 < -1 * logsigmoid z.
Proof.
  unfold logsigmoid.
  assert (ln 1 < ln (1 + exp (- z))) as H.
  { apply ln_increasing; [lra|]. pose proof (exp_pos (- z)). lra. }
  rewrite ln_1 in H. lra.
Qed.

Lemma kg_loss_terms_pos (xs ys : list R) :
  Forall (fun t => 0 < t) (zip_with (fun y x => -1 * logsigmoid (y + - x)) ys xs).
Proof.
  revert xs. induction ys as [|y ys IH]; intros xs; [constructor|].
  destruct xs as [|x xs]; simpl; constructor; [apply logistic_term_pos|apply IH].
Qed.

End kg_loss_value.

Lemma calc_kg_loss_value_positive (m : KGAT) (h r pos_t neg_t : list nat)
    (lam : R) (loss : float) :
  finite_parameters m →
  kg_l2loss_lambda m = Fin lam → (0 <= lam)%R →
  r ≠ [] →
  calc_kg_loss m h r pos_t neg_t = Ok loss →
  ∃ l : R, loss = Fin l ∧ (0 < l)%R.
Proof.
  intros [HE HR HW] Hlam Hlam0 Hrne Hloss. unfold calc_kg_loss in Hloss.
  destruct (mapM_result (relation_embed_lookup m) r) as [r_embed|] eqn:Hre; [|done].
  destruct (mapM_result (fun i => of_option IndexError (W_R m !! i)) r)
    as [Ws|] eqn:HWs; [|done].
  destruct (mapM_result (entity_embed_lookup m) h) as [h_embed|] eqn:Hhe; [|done].
  destruct (mapM_result (entity_embed_lookup m) pos_t) as [p_embed|] eqn:Hpe; [|done].
  destruct (mapM_result (entity_embed_lookup m) neg_t) as [n_embed|] eqn:Hne'; [|done].
  cbn [mbind result_bind] in Hloss.
  destruct (bmm_rows (relation_dim m) h_embed Ws) as [r_mul_h|] eqn:Hbh; [|done].
  destruct (bmm_rows (relation_dim m) p_embed Ws) as [r_mul_p|] eqn:Hbp; [|done].
  destruct (bmm_rows (relation_dim m) n_embed Ws) as [r_mul_n|] eqn:Hbn; [|done].
  cbn [mbind result_bind] in Hloss. injection Hloss as <-.
  apply bmm_rows_Ok in Hbh as [Hlh ->], Hbp as [Hlp ->], Hbn as [Hln ->].
  pose proof (mapM_result_length _ _ _ Hre) as Hlre.
  pose proof (mapM_result_length _ _ _ HWs) as HlWs.
  assert (0 < length r) as Hn by (destruct r; [done|simpl; lia]).
  assert (Forall (Forall is_finite) r_embed) as Fre
    by exact (lookups_finite _ _ _ _ HR Hre).
  assert (Forall (Forall (Forall is_finite)) Ws) as FWs
    by exact (lookups_finite _ _ _ _ HW HWs).
  assert (Forall (Forall is_finite) h_embed) as Fhe
    by exact (lookups_finite _ _ _ _ HE Hhe).
  assert (Forall (Forall is_finite) p_embed) as Fpe
    by exact (lookups_finite _ _ _ _ HE Hpe).
  assert (Forall (Forall is_finite) n_embed) as Fne
    by exact (lookups_finite _ _ _ _ HE Hne').
  pose proof (bmm_rows_finite (relation_dim m) _ _ Fhe FWs) as Fh.
  pose proof (bmm_rows_finite (relation_dim m) _ _ Fpe FWs) as Fp.
  pose proof (bmm_rows_finite (relation_dim m) _ _ Fne FWs) as Fn.
  set (r_mul_h := zip_with (vecmat (relation_dim m)) h_embed Ws) in *.
  set (r_mul_p := zip_with (vecmat (relation_dim m)) p_embed Ws) in *.
  set (r_mul_n := zip_with (vecmat (relation_dim m)) n_embed Ws) in *.
  assert (length r_mul_h = length r ∧ length r_mul_p = length r
          ∧ length r_mul_n = length r) as (Lh & Lp & Ln).
  { unfold r_mul_h, r_mul_p, r_mul_n. rewrite !length_zip_with. lia. }
  assert (∀ x : mat, length x = length r → x ≠ []) as Hnonempty.
  { intros x Hx ->. simpl in Hx. lia. }
  destruct (L2_loss_mean_nonneg r_mul_h (Hnonempty _ Lh) Fh) as (a & -> & Ha).
  destruct (L2_loss_mean_nonneg r_embed (Hnonempty _ Hlre) Fre) as (b & -> & Hb).
  destruct (L2_loss_mean_nonneg r_mul_p (Hnonempty _ Lp) Fp) as (p & -> & Hp).
  destruct (L2_loss_mean_nonneg r_mul_n (Hnonempty _ Ln) Fn) as (q & -> & Hq).
  rewrite Hlam.
  pose proof (transr_score_finite _ _ _ Fh Fre Fp) as Fps.
  pose proof (transr_score_finite _ _ _ Fh Fre Fn) as Fns.
  pose proof (transr_score_length r_mul_h r_embed r_mul_p) as Lps.
  pose proof (transr_score_length r_mul_h r_embed r_mul_n) as Lns.
  apply Forall_finite_Fin in Fps as [xs Hxs], Fns as [ys Hys].
  rewrite Hxs in Lps |- *. rewrite Hys in Lns |- *.
  rewrite length_fmap in Lps, Lns.
  rewrite kg_loss_terms_Fin.
  pose proof (kg_loss_terms_pos xs ys) as Hterms.
  set (T := zip_with (fun y x => (-1 * logsigmoid (y + - x))%R) ys xs) in *.
  assert (T ≠ []) as HT.
  { intros HT. apply (f_equal length) in HT. unfold T in HT.
    rewrite length_zip_with in HT. simpl in HT. lia. }
  rewrite vmean_Fin by done. simpl.
  eexists; split; [reflexivity|].
  assert (0 < INR (length T))%R as HlenT.
  { apply lt_0_INR. destruct T; [done|simpl; lia]. }
  pose proof (Rsum_pos T Hterms HT) as Hsum.
  assert (0 < Rsum T / INR (length T))%R by (by apply Rdiv_lt_0_compat).
  nra.
Qed.

Lemma calc_kg_loss_nil (m : KGAT) (h pos_t neg_t : list nat) :
  is_ok (calc_kg_loss m h [] pos_t neg_t) = true →
  calc_kg_loss m h [] pos_t neg_t = Ok NaN ∧ h = [] ∧ pos_t = [] ∧ neg_t = [].
Proof.
  unfold calc_kg_loss. cbn [mapM_result mbind result_bind].
  destruct (mapM_result (entity_embed_lookup m) h) as [h_embed|] eqn:Hhe; [|done].
  destruct (mapM_result (entity_embed_lookup m) pos_t) as [p_embed|] eqn:Hpe; [|done].
  destruct (mapM_result (entity_embed_lookup m) neg_t) as [n_embed|] eqn:Hne; [|done].
  cbn [mbind result_bind].
  destruct (bmm_rows (relation_dim m) h_embed []) as [x1|] eqn:H1; [|done].
  destruct (bmm_rows (relation_dim m) p_embed []) as [x2|] eqn:H2; [|done].
  destruct (bmm_rows (relation_dim m) n_embed []) as [x3|] eqn:H3; [|done].
  cbn [mbind result_bind]. intros _.
  apply bmm_rows_Ok in H1 as [L1 ->], H2 as [L2 ->], H3 as [L3 ->].
  apply mapM_result_length in Hhe, Hpe, Hne. simpl in L1, L2, L3.
  destruct h_embed; [|done]. destruct p_embed; [|done]. destruct n_embed; [|done].
  simpl in Hhe, Hpe, Hne.
  repeat split; try (by apply length_zero_iff_nil).
  assert (vmean [] = NaN) as Hmean by (by apply fdiv_zero_zero).
  cbn [zip_with transr_score fmap list_fmap]. by rewrite Hmean.
Qed.

(** With finite parameters and a non-negative regularisation weight, a
    loss that [calc_kg_loss] returns as a number is never negative. *)
Theorem calc_kg_loss_not_negative (m : KGAT) (h r pos_t neg_t : list nat) (lam l : R) :
  finite_parameters m →
  kg_l2loss_lambda m = Fin lam → (0 <= lam)%R →
  calc_kg_loss m h r pos_t neg_t = Ok (Fin l) →
  (0 <= l)%R.
Proof.
  intros Hfin Hlam Hlam0 Hloss.
  destruct r as [|r0 r].
  - assert (is_ok (calc_kg_loss m h [] pos_t neg_t) = true) as Hok by (by rewrite Hloss).
    destruct (calc_kg_loss_nil m h pos_t neg_t Hok) as [Hnan _].
    rewrite Hnan in Hloss. discriminate Hloss.
  - destruct (calc_kg_loss_value_positive m h (r0 :: r) pos_t neg_t lam (Fin l)
                Hfin Hlam Hlam0 ltac:(done) Hloss) as (l' & [= ->] & Hl).
    lra.
Qed.

Lemma calc_kg_loss_not_negative_witness :
  ∃ l : R, calc_kg_loss scenario_model [0] [0] [2] [1] = Ok (Fin l) ∧ (0 <= l)%R.
Proof.
  assert (is_ok (calc_kg_loss scenario_model [0] [0] [2] [1]) = true) as Hok
    by reflexivity.
  destruct (calc_kg_loss scenario_model [0] [0] [2] [1]) as [loss|] eqn:Hloss;
    [|discriminate Hok].
  destruct (calc_kg_loss_value_positive scenario_model [0] [0] [2] [1] 0%R loss
              scenario_parameters_finite eq_refl ltac:(lra) ltac:(discriminate) Hloss)
    as (l & -> & _).
  exists l. split; [reflexivity|].
  apply (calc_kg_loss_not_negative scenario_model [0] [0] [2] [1] 0%R l).
  - exact scenario_parameters_finite.
  - reflexivity.
  - lra.
  - exact Hloss.
Defined.

(** On an empty list of relations [calc_kg_loss] never returns a number:
    when it returns at all, the other three arguments are empty too and the
    loss, a mean over the empty batch, is NaN. *)
Theorem calc_kg_loss_empty_batch (m : KGAT) (h pos_t neg_t : list nat) :
  is_ok (calc_kg_loss m h [] pos_t neg_t) = true →
  calc_kg_loss m h [] pos_t neg_t = Ok NaN ∧ h = [] ∧ pos_t = [] ∧ neg_t = [].
Proof. apply calc_kg_loss_nil. Qed.

Lemma calc_kg_loss_empty_batch_witness :
  calc_kg_loss scenario_model [] [] [] [] = Ok NaN
  ∧ ([] : list nat) = [] ∧ ([] : list nat) = [] ∧ ([] : list nat) = [].
Proof. apply calc_kg_loss_empty_batch. reflexivity. Defined.

(** ** [Aggregator]: the constructor and [forward] together *)

Lemma mapM_result_Err_inv {A B} (f : A → result B) (l : list A) (e : exn) :
  mapM_result f l = Err e → ∃ x, x ∈ l ∧ f x = Err e.
Proof.
  induction l as [|x l IH]; simpl; [done|].
  destruct (f x) as [y|e'] eqn:Hx; simpl.
  - destruct (mapM_result f l) as [ys|e'']; simpl; [done|].
    intros [= ->]. destruct IH as (x' & Hin & Hx'); [done|].
    exists x'. split; [by right|done].
  - intros [= ->]. exists x. split; [left|done].
Qed.

Lemma mapM_result_total {A B} (f : A → result B) (l : list A) :
  Forall (fun x => is_ok (f x) = true) l → ∃ ys, mapM_result f l = Ok ys.
Proof.
  induction 1 as [|x l Hx _ [ys IH]]; simpl; [by exists []|].
  destruct (f x) as [y|]; [|done]. simpl. rewrite IH. simpl. by eexists.
Qed.

(** A linear layer raises nothing but the shape error. *)
Lemma Linear_forward_Err (L : Linear) (x : mat) (e : exn) :
  Linear_forward L x = Err e → e = RuntimeError.
Proof.
  intros H. apply mapM_result_Err_inv in H as (row & _ & Hrow).
  unfold Linear_row in Hrow.
  destruct (decide (length row = in_features L)); [done|]. by injection Hrow as <-.
Qed.

Lemma Linear_forward_total (L : Linear) (x : mat) :
  has_width (in_features L) x → ∃ y, Linear_forward L x = Ok y ∧ length y = length x.
Proof.
  intros Hx.
  destruct (mapM_result_total (Linear_row L) x) as [y Hy].
  { eapply Forall_impl; [exact Hx|]. intros row Hrow. unfold Linear_row.
    by destruct (decide (length row = in_features L)). }
  exists y. split; [exact Hy|]. exact (mapM_result_length _ _ _ Hy).
Qed.

Lemma activation_length (x : mat) : length (activation x) = length x.
Proof. unfold activation. by rewrite length_fmap. Qed.

Lemma Dropout_forward_length (d : Dropout) (training : bool) (keep : nat → nat → bool)
    (x : mat) : length (Dropout_forward d training keep x) = length x.
Proof. unfold Dropout_forward. destruct training; [by rewrite length_imap|done]. Qed.

Lemma mmul_shape (d : nat) (a b : mat) :
  has_width d a → has_width d b → length a = length b →
  has_width d (mmul a b) ∧ length (mmul a b) = length a.
Proof.
  intros Ha. revert b. induction Ha as [|u a Hu _ IH]; intros b Hb Hlen.
  - by split; [constructor|].
  - destruct Hb as [|v b Hv Hb]; [done|]. simpl in Hlen.
    destruct (IH b Hb) as [IH1 IH2]; [lia|].
    split; simpl; [|by rewrite IH2].
    constructor; [|done]. unfold vmul. rewrite length_zip_with. lia.
Qed.

Lemma zip_with_app_length (a b : mat) :
  length a = length b → length (zip_with app a b) = length a.
Proof. intros H. rewrite length_zip_with. lia. Qed.

(** The neighbourhood sums have the shape of the node embeddings. *)
Lemma update_all_shape (g : DGLGraph) (d : nat) (node N_h : mat) :
  has_width d node → length node = number_of_nodes g →
  update_all_mailbox_sum g node = Ok N_h →
  has_width d N_h ∧ length N_h = number_of_nodes g.
Proof.
  intros Hnode Hlen HN. unfold update_all_mailbox_sum in HN.
  destruct (edata_att g) as [att|]; [|done]. simpl in HN.
  destruct (decide (edges g = [])); [done|]. injection HN as <-.
  rewrite length_fmap, length_seq. split; [|done].
  destruct node as [|row0 node'] eqn:Hn.
  { simpl in Hlen. rewrite <- Hlen. constructor. }
  rewrite <- Hn in *.
  assert (width node = d) as Hw.
  { rewrite Hn. simpl. rewrite Hn in Hnode. by apply Forall_inv in Hnode. }
  apply Forall_fmap, Forall_forall. intros v _. simpl.
  rewrite Hw. apply sum_rows_length.
  induction (in_edges g v) as [|k ks IH]; [constructor|].
  rewrite omap_cons. unfold u_mul_e at 1.
  destruct (edges g !! k) as [e|]; [|exact IH].
  destruct (node !! src e) as [x|] eqn:Hx; [|exact IH].
  destruct (att !! k) as [a|]; [|exact IH].
  constructor; [|exact IH].
  rewrite length_fmap. exact (Forall_lookup_1 _ _ _ _ Hnode Hx).
Qed.

Lemma Dropout_forward_shape (d : nat) (drop : Dropout) (training : bool)
    (keep : nat → nat → bool) (x : mat) (n : nat) :
  has_width d x → length x = n →
  length (Dropout_forward drop training keep x) = n
  ∧ has_width d (Dropout_forward drop training keep x).
Proof.
  intros Hx Hn. split; [by rewrite Dropout_forward_length|].
  by apply Dropout_forward_width.
Qed.

Lemma Aggregator_forward_ok (rng : initializer) (in_dim out_dim : nat) (p : R)
    (scheme : string) (a : Aggregator) (training : bool) (keep : nat → nat → bool)
    (mode : string) (g : DGLGraph) (entity_embed : mat) :
  initializer_ok rng →
  Aggregator_init rng in_dim out_dim p scheme = Ok a →
  length entity_embed = number_of_nodes g →
  has_width in_dim entity_embed →
  is_Some (edata_att g) →
  edges g ≠ [] →
  ∃ out, Aggregator_forward a training keep mode g entity_embed = Ok out
         ∧ length out = number_of_nodes g
         ∧ has_width out_dim out.
Proof.
  intros Hrng Ha Hlen Hw [att Hatt] Hedges.
  pose proof (Aggregator_init_out_width rng in_dim out_dim p scheme a Hrng Ha)
    as (HW & HW1 & HW2).
  unfold Aggregator_forward.
  destruct (decide (length entity_embed = number_of_nodes g)); [|done].
  cbn [mbind result_bind].
  assert (∃ N_h, (if String.eqb mode "predict"
                  then update_all_mailbox_sum g entity_embed
                  else update_all_builtin_sum g entity_embed) = Ok N_h
                 ∧ update_all_mailbox_sum g entity_embed = Ok N_h) as (N_h & -> & HN).
  { unfold update_all_builtin_sum, update_all_mailbox_sum. rewrite Hatt. simpl.
    destruct (decide (edges g = [])); [done|].
    eexists. split; [by destruct (String.eqb mode "predict")|done]. }
  cbn [mbind result_bind].
  destruct (update_all_shape g in_dim entity_embed N_h Hw Hlen HN) as [HNw HNl].
  assert (length entity_embed = length N_h) as Hll by congruence.
  destruct (madd_shape in_dim entity_embed N_h Hw HNw Hll) as [Haw Hal].
  destruct (mmul_shape in_dim entity_embed N_h Hw HNw Hll) as [Hmw Hml].
  pose proof (zip_with_app_width in_dim in_dim entity_embed N_h Hw HNw) as Hcw.
  pose proof (zip_with_app_length entity_embed N_h Hll) as Hcl.
  unfold Aggregator_init in Ha.
  destruct (nn_Dropout p) as [drop|]; [|done]. cbn [mbind result_bind] in Ha.
  destruct (String.eqb scheme "gcn") eqn:E1.
  { injection Ha as <-. simpl in *. rewrite E1. cbn [mbind result_bind].
    destruct (Linear_forward_total (nn_Linear rng "W" in_dim out_dim true)
                (madd entity_embed N_h) Haw) as (y & Hy & Hyl).
    rewrite Hy. cbn [mbind result_bind]. eexists. split; [reflexivity|].
    apply Dropout_forward_shape.
    - apply activation_width.
      eapply Linear_forward_out_width; [exact HW|exact Hy].
    - rewrite activation_length. congruence. }
  destruct (String.eqb scheme "graphsage") eqn:E2.
  { injection Ha as <-. simpl in *. rewrite E1, E2. cbn [mbind result_bind].
    destruct (Linear_forward_total (nn_Linear rng "W" (in_dim * 2) out_dim true)
                (zip_with app entity_embed N_h)) as (y & Hy & Hyl).
    { simpl. by replace (in_dim * 2) with (in_dim + in_dim) by lia. }
    rewrite Hy. cbn [mbind result_bind]. eexists. split; [reflexivity|].
    apply Dropout_forward_shape.
    - apply activation_width.
      eapply Linear_forward_out_width; [exact HW|exact Hy].
    - rewrite activation_length. congruence. }
  destruct (String.eqb scheme "bi-interaction") eqn:E3; [|done].
  injection Ha as <-. simpl in *. rewrite E1, E2, E3. cbn [mbind result_bind].
  destruct (Linear_forward_total (nn_Linear rng "W1" in_dim out_dim true)
              (madd entity_embed N_h) Haw) as (y1 & Hy1e & Hy1).
  rewrite Hy1e. cbn [mbind result_bind].
  destruct (Linear_forward_total (nn_Linear rng "W2" in_dim out_dim true)
              (mmul entity_embed N_h) Hmw) as (y2 & Hy2e & Hy2).
  rewrite Hy2e. cbn [mbind result_bind]. eexists. split; [reflexivity|].
  assert (has_width out_dim (activation y1)) as A1.
  { apply activation_width.
    eapply Linear_forward_out_width; [exact HW1|exact Hy1e]. }
  assert (has_width out_dim (activation y2)) as A2.
  { apply activation_width.
    eapply Linear_forward_out_width; [exact HW2|exact Hy2e]. }
  destruct (madd_shape out_dim (activation y1) (activation y2) A1 A2) as [Ow Ol].
  { rewrite !activation_length. congruence. }
  apply Dropout_forward_shape; [done|].
  rewrite Ol, activation_length. congruence.
Qed.

(** An aggregator that its constructor has built accepts the embeddings of
    the width it was built for, one row per node of a graph that has at
    least one edge and carries attention weights, and returns one row of
    the output width per node: the linear layers of the three schemes fit
    what [forward] feeds them. *)
Theorem Aggregator_forward_shape (rng : initializer) (in_dim out_dim : nat) (p : R)
    (scheme : string) (a : Aggregator) (training : bool) (keep : nat → nat → bool)
    (mode : string) (g : DGLGraph) (entity_embed : mat) :
  initializer_ok rng →
  Aggregator_init rng in_dim out_dim p scheme = Ok a →
  length entity_embed = number_of_nodes g →
  has_width in_dim entity_embed →
  is_Some (edata_att g) →
  edges g ≠ [] →
  ∃ out, Aggregator_forward a training keep mode g entity_embed = Ok out
         ∧ length out = number_of_nodes g
         ∧ has_width out_dim out.
Proof. apply Aggregator_forward_ok. Qed.

Lemma graphsage_init :
  Aggregator_init ones_init 2 3 (1 / 10)%R "graphsage"
  = Ok (mkAggregator 2 3 (1 / 10)%R "graphsage" (mkDropout (1 / 10)%R)
          (Some (nn_Linear ones_init "W" (2 * 2) 3 true)) None None).
Proof.
  unfold Aggregator_init, nn_Dropout.
  destruct (Rlt_dec (1 / 10) 0) as [H|_]; [exfalso; lra|].
  destruct (Rlt_dec 1 (1 / 10)) as [H|_]; [exfalso; lra|].
  reflexivity.
Defined.

Lemma Aggregator_forward_shape_witness :
  ∃ out,
    Aggregator_forward
      (mkAggregator 2 3 (1 / 10)%R "graphsage" (mkDropout (1 / 10)%R)
         (Some (nn_Linear ones_init "W" (2 * 2) 3 true)) None None)
      true (fun _ _ => true) "train" two_node_graph
      [[Fin 1; Fin 2]; [Fin 3; Fin 4]] = Ok out
    ∧ length out = number_of_nodes two_node_graph
    ∧ has_width 3 out.
Proof.
  apply (Aggregator_forward_shape ones_init 2 3 (1 / 10)%R "graphsage").
  - exact ones_init_ok.
  - exact graphsage_init.
  - reflexivity.
  - repeat constructor.
  - by eexists.
  - discriminate.
Defined.

(** An aggregator that its constructor has built never reaches the
    [NotImplementedError] branch of [forward] and never misses an attribute:
    [forward] raises only when the embeddings do not have one row per node
    ([DGLError]), when the graph has no attention weights or no edge, so
    that a field is missing ([KeyError]), or when the embeddings do not have
    the width the aggregator was built for ([RuntimeError]). *)
Theorem Aggregator_forward_exceptions (rng : initializer) (in_dim out_dim : nat) (p : R)
    (scheme : string) (a : Aggregator) (training : bool) (keep : nat → nat → bool)
    (mode : string) (g : DGLGraph) (entity_embed : mat) (e : exn) :
  initializer_ok rng →
  Aggregator_init rng in_dim out_dim p scheme = Ok a →
  Aggregator_forward a training keep mode g entity_embed = Err e →
  (e = DGLError ∧ length entity_embed ≠ number_of_nodes g)
  ∨ (e = KeyError ∧ (edata_att g = None ∨ edges g = []))
  ∨ (e = RuntimeError ∧ ¬ has_width in_dim entity_embed).
Proof.
  intros Hrng Ha He.
  destruct (decide (length entity_embed = number_of_nodes g)) as [Hlen|Hlen].
  2:{ left. unfold Aggregator_forward in He.
      destruct (decide (length entity_embed = number_of_nodes g)); [done|].
      by injection He as <-. }
  destruct (edata_att g) as [att|] eqn:Hatt.
  2:{ right. left. unfold Aggregator_forward in He.
      destruct (decide (length entity_embed = number_of_nodes g)); [|done].
      cbn [mbind result_bind] in He.
      unfold update_all_builtin_sum, update_all_mailbox_sum in He. rewrite Hatt in He.
      split; [|by left].
      destruct (String.eqb mode "predict"); simpl in He; by injection He as <-. }
  destruct (decide (edges g = [])) as [Hedges|Hedges].
  { right. left. unfold Aggregator_forward in He.
    destruct (decide (length entity_embed = number_of_nodes g)); [|done].
    cbn [mbind result_bind] in He.
    unfold update_all_builtin_sum, update_all_mailbox_sum in He. rewrite Hatt in He.
    cbn [of_option mbind result_bind] in He.
    destruct (decide (edges g = [])); [|done].
    split; [|by right].
    destruct (String.eqb mode "predict"); simpl in He; by injection He as <-. }
  right. right. split.
  - unfold Aggregator_forward in He.
    destruct (decide (length entity_embed = number_of_nodes g)); [|done].
    cbn [mbind result_bind] in He.
    destruct (if String.eqb mode "predict"
              then update_all_mailbox_sum g entity_embed
              else update_all_builtin_sum g entity_embed) as [N_h|] eqn:HN.
    2:{ unfold update_all_builtin_sum, update_all_mailbox_sum in HN. rewrite Hatt in HN.
        cbn [of_option mbind result_bind] in HN.
        destruct (decide (edges g = [])); [done|].
        by destruct (String.eqb mode "predict"). }
    cbn [mbind result_bind] in He.
    unfold Aggregator_init in Ha.
    destruct (nn_Dropout p) as [drop|]; [|done]. cbn [mbind result_bind] in Ha.
    destruct (String.eqb scheme "gcn") eqn:E1.
    { injection Ha as <-. simpl in He. rewrite E1 in He. cbn [mbind result_bind] in He.
      destruct (Linear_forward _ _) as [y|e'] eqn:Hy in He; [done|].
      injection He as <-. by apply Linear_forward_Err in Hy. }
    destruct (String.eqb scheme "graphsage") eqn:E2.
    { injection Ha as <-. simpl in He. rewrite E1, E2 in He. cbn [mbind result_bind] in He.
      destruct (Linear_forward _ _) as [y|e'] eqn:Hy in He; [done|].
      injection He as <-. by apply Linear_forward_Err in Hy. }
    destruct (String.eqb scheme "bi-interaction") eqn:E3; [|done].
    injection Ha as <-. simpl in He. rewrite E1, E2, E3 in He.
    cbn [mbind result_bind] in He.
    destruct (Linear_forward (nn_Linear rng "W1" in_dim out_dim true) _)
      as [y1|e1] eqn:Hy1 in He.
    2:{ injection He as <-. by apply Linear_forward_Err in Hy1. }
    cbn [mbind result_bind] in He.
    destruct (Linear_forward (nn_Linear rng "W2" in_dim out_dim true) _)
      as [y2|e2] eqn:Hy2 in He; [done|].
    injection He as <-. by apply Linear_forward_Err in Hy2.
  - intros Hw.
    destruct (Aggregator_forward_ok rng in_dim out_dim p scheme a training keep mode g
                entity_embed Hrng Ha Hlen Hw) as (out & Hout & _); [by eexists|done|].
    by rewrite Hout in He.
Qed.

Lemma Aggregator_forward_exceptions_witness :
  Aggregator_forward
    (mkAggregator 2 3 (1 / 10)%R "graphsage" (mkDropout (1 / 10)%R)
       (Some (nn_Linear ones_init "W" (2 * 2) 3 true)) None None)
    true (fun _ _ => true) "train" two_node_graph [[Fin 1]; [Fin 3]]
  = Err RuntimeError
  ∧ ¬ has_width 2 [[Fin 1]; [Fin 3]].
Proof.
  assert (Aggregator_forward
            (mkAggregator 2 3 (1 / 10)%R "graphsage" (mkDropout (1 / 10)%R)
               (Some (nn_Linear ones_init "W" (2 * 2) 3 true)) None None)
            true (fun _ _ => true) "train" two_node_graph [[Fin 1]; [Fin 3]]
          = Err RuntimeError) as He by reflexivity.
  split; [exact He|].
  destruct (Aggregator_forward_exceptions ones_init 2 3 (1 / 10)%R "graphsage"
              _ true (fun _ _ => true) "train" two_node_graph [[Fin 1]; [Fin 3]]
              RuntimeError ones_init_ok graphsage_init He)
    as [[H _]|[[H _]|[_ H]]]; [discriminate H|discriminate H|exact H].
Defined.

(** ** [KGAT.__init__] *)

Lemma build_aggregators_length (rng : initializer) (dims : list nat) (drops : list R)
    (scheme : string) (count : nat) :
  ∀ start layers,
    build_aggregators rng dims drops scheme start count = Ok layers →
    length layers = count.
Proof.
  induction count as [|count IH]; intros start layers Hb; simpl in Hb.
  - by injection Hb as <-.
  - destruct (dims !! start) as [d_in|]; [|done]. cbn [of_option mbind result_bind] in Hb.
    destruct (dims !! S start) as [d_out|]; [|done].
    cbn [of_option mbind result_bind] in Hb.
    destruct (drops !! start) as [p|]; [|done]. cbn [of_option mbind result_bind] in Hb.
    destruct (Aggregator_init _ d_in d_out p scheme) as [a|]; [|done].
    cbn [mbind result_bind] in Hb.
    destruct (build_aggregators rng dims drops scheme (S start) count) as [rest|] eqn:Hr;
      [|done].
    cbn [mbind result_bind] in Hb. injection Hb as <-. simpl. f_equal. by eapply IH.
Qed.

Lemma KGAT_init_rows (rng : initializer) (args : Args)
    (users entities relations : nat) (user_pre_embed item_pre_embed : option mat)
    (m : KGAT) :
  initializer_ok rng → init_weight3_ok rng →
  KGAT_init rng args users entities relations user_pre_embed item_pre_embed = Ok m →
  length (entity_embed m) = entities
  ∧ length (relation_embed m) = n_relations m
  ∧ length (W_R m) = n_relations m
  ∧ n_relations m = relations
  ∧ length (aggregator_layers m) = length (args_conv_dim_list args)
  ∧ n_layers m = length (aggregator_layers m)
  ∧ W_r m = None.
Proof.
  intros Hrng Hrng3 Hm.
  destruct (KGAT_init_Ok _ _ _ _ _ _ _ _ Hm)
    as (HE & _ & Hl & Hrel & HWR & _ & _ & Hn & Hlayers & HWr & _).
  apply build_aggregators_length in Hl.
  split.
  { destruct HE as [->|(u & item_pre & _ & _ & _ & Hle & _ & ->)].
    - apply (init_weight_rows rng Hrng).
    - rewrite length_app, (init_weight_rows rng Hrng). lia. }
  rewrite Hrel, HWR, Hn, (init_weight_rows rng Hrng), Hrng3, Hl, Hlayers.
  done.
Qed.

(** A model that the constructor has built has one embedding row per entity,
    one embedding row and one projection matrix per relation, one aggregator
    per configured layer, and no attribute [W_r] yet. *)
Theorem KGAT_init_tables (rng : initializer) (args : Args)
    (users entities relations : nat) (user_pre_embed item_pre_embed : option mat)
    (m : KGAT) :
  initializer_ok rng → init_weight3_ok rng →
  KGAT_init rng args users entities relations user_pre_embed item_pre_embed = Ok m →
  length (entity_embed m) = entities
  ∧ length (relation_embed m) = n_relations m
  ∧ length (W_R m) = n_relations m
  ∧ n_relations m = relations
  ∧ length (aggregator_layers m) = length (args_conv_dim_list args)
  ∧ n_layers m = length (aggregator_layers m)
  ∧ W_r m = None.
Proof. apply KGAT_init_rows. Qed.

Lemma ones_init3_ok : init_weight3_ok ones_init.
Proof. intros name k r c. apply length_replicate. Defined.

Lemma KGAT_init_tables_witness :
  length (entity_embed layered_model) = 2
  ∧ length (relation_embed layered_model) = n_relations layered_model
  ∧ length (W_R layered_model) = n_relations layered_model
  ∧ n_relations layered_model = 1
  ∧ length (aggregator_layers layered_model) = length (args_conv_dim_list layered_args)
  ∧ n_layers layered_model = length (aggregator_layers layered_model)
  ∧ W_r layered_model = None.
Proof.
  apply (KGAT_init_tables ones_init layered_args 1 2 1 None None).
  - exact ones_init_ok.
  - exact ones_init3_ok.
  - exact layered_model_init.
Defined.

(** With pretraining switched on, the pretrained item embeddings become the
    first rows of the entity table, unchanged and in order; the remaining
    rows are freshly initialised. *)
Theorem KGAT_init_pretrained_rows (rng : initializer) (args : Args)
    (n_users n_entities n_relations : nat) (user_pre_embed item_pre_embed : mat)
    (m : KGAT) :
  args_use_pretrain args = 1 →
  KGAT_init rng args n_users n_entities n_relations
    (Some user_pre_embed) (Some item_pre_embed) = Ok m →
  entity_embed m
    = item_pre_embed ++ init_weight rng "other_entity_embed"
                          (n_entities - length item_pre_embed) (args_entity_dim args)
  ∧ length item_pre_embed ≤ n_entities
  ∧ has_width (args_entity_dim args) item_pre_embed.
Proof.
  intros Hpre Hm. unfold KGAT_init in Hm.
  destruct (decide (args_use_pretrain args = 1)); [|done].
  destruct (decide (length item_pre_embed ≤ n_entities)) as [Hle|]; [|done].
  destruct (xavier_uniform_ (args_entity_dim args) _); [|done].
  cbn [mbind result_bind] in Hm.
  destruct (decide (Forall (fun row => length row = args_entity_dim args) item_pre_embed))
    as [Hw|]; [|done].
  cbn [mbind result_bind] in Hm.
  destruct (xavier_uniform_ _ _); [|done]. cbn [mbind result_bind] in Hm.
  destruct (build_aggregators _ _ _ _ _ _) as [layers|]; [|done].
  cbn [mbind result_bind] in Hm. by injection Hm as <-.
Qed.

Lemma KGAT_init_pretrained_rows_witness :
  ∃ m, KGAT_init ones_init
         (mkArgs 1 2 2 "gcn" [] [] (Fin 0) (Fin 0)) 1 3 1
         (Some [[Fin 9; Fin 9]]) (Some [[Fin 5; Fin 6]; [Fin 7; Fin 8]]) = Ok m
    ∧ entity_embed m = [[Fin 5; Fin 6]; [Fin 7; Fin 8]] ++ [[Fin 1; Fin 1]].
Proof.
  eexists. split; [reflexivity|].
  apply (KGAT_init_pretrained_rows ones_init (mkArgs 1 2 2 "gcn" [] [] (Fin 0) (Fin 0))
           1 3 1 [[Fin 9; Fin 9]] [[Fin 5; Fin 6]; [Fin 7; Fin 8]]);
    reflexivity.
Defined.

Lemma Aggregator_init_valid (rng : initializer) (d_in d_out : nat) (p : R)
    (scheme : string) :
  valid_scheme scheme → valid_rate p →
  is_ok (Aggregator_init rng d_in d_out p scheme) = true.
Proof.
  intros Hs [Hp0 Hp1]. unfold Aggregator_init, nn_Dropout.
  destruct (Rlt_dec p 0) as [H|_]; [exfalso; lra|].
  destruct (Rlt_dec 1 p) as [H|_]; [exfalso; lra|].
  cbn [mbind result_bind]. unfold valid_scheme in Hs.
  rewrite !elem_of_cons in Hs.
  destruct Hs as [->|[->|[->|Hs]]]; [reflexivity..|].
  by apply elem_of_nil in Hs.
Qed.

Lemma build_aggregators_outcome (rng : initializer) (dims : list nat) (drops : list R)
    (scheme : string) (count : nat) :
  ∀ start,
    valid_scheme scheme →
    (∀ k p, k < start + count → drops !! k = Some p → valid_rate p) →
    S (start + count) ≤ length dims →
    start ≤ length drops →
    if decide (start + count ≤ length drops)
    then is_ok (build_aggregators rng dims drops scheme start count) = true
    else build_aggregators rng dims drops scheme start count = Err IndexError.
Proof.
  induction count as [|count IH]; intros start Hs Hrates Hdims Hstart.
  - rewrite Nat.add_0_r. by destruct (decide (start ≤ length drops)).
  - simpl.
    destruct (lookup_lt_is_Some_2 dims start ltac:(lia)) as [d_in ->].
    destruct (lookup_lt_is_Some_2 dims (S start) ltac:(lia)) as [d_out ->].
    cbn [of_option mbind result_bind].
    destruct (drops !! start) as [p|] eqn:Hp.
    + cbn [of_option mbind result_bind].
      pose proof (Aggregator_init_valid (scope (String.append (pretty start) ".") rng)
                    d_in d_out p scheme Hs (Hrates start p ltac:(lia) Hp)) as Ha.
      destruct (Aggregator_init _ d_in d_out p scheme) as [a|]; [|done].
      cbn [mbind result_bind].
      apply lookup_lt_Some in Hp.
      specialize (IH (S start) Hs).
      replace (S start + count) with (start + S count) in IH by lia.
      specialize (IH Hrates Hdims ltac:(lia)).
      destruct (decide (start + S count ≤ length drops)).
      * by destruct (build_aggregators rng dims drops scheme (S start) count).
      * by rewrite IH.
    + cbn [of_option mbind result_bind].
      apply lookup_ge_None in Hp.
      destruct (decide (start + S count ≤ length drops)); [lia|done].
Qed.

(** Without pretrained embeddings, with positive dimensions, a known
    aggregation scheme and dropout rates in [0, 1] for the configured
    layers, the constructor succeeds exactly when [mess_dropout] has at
    least one rate per layer; with fewer rates it raises [IndexError].
    Rates beyond the last layer are never looked at. *)
Theorem KGAT_init_mess_dropout (rng : initializer) (args : Args)
    (users entities relations : nat) (user_pre_embed : option mat) :
  0 < args_entity_dim args → 0 < args_relation_dim args →
  Forall (fun d => 0 < d) (args_conv_dim_list args) →
  valid_scheme (args_aggregation_type args) →
  Forall valid_rate (take (length (args_conv_dim_list args)) (args_mess_dropout args)) →
  if decide (length (args_conv_dim_list args) ≤ length (args_mess_dropout args))
  then is_ok (KGAT_init rng args users entities relations user_pre_embed None) = true
  else KGAT_init rng args users entities relations user_pre_embed None = Err IndexError.
Proof.
  intros Hdim Hrel _ Hs Hrates. unfold KGAT_init.
  assert ((match user_pre_embed, @None mat with
           | Some _, Some item_pre =>
               if decide (args_use_pretrain args = 1) then
                 if decide (length item_pre ≤ entities) then
                   _ ← xavier_uniform_ (args_entity_dim args) (entities - length item_pre);
                   if decide (Forall (fun row => length row = args_entity_dim args) item_pre)
                   then Ok (item_pre ++ init_weight rng "other_entity_embed"
                                            (entities - length item_pre)
                                            (args_entity_dim args))
                   else Err RuntimeError
                 else Err RuntimeError
               else Ok (init_weight rng "entity_embed.weight" entities (args_entity_dim args))
           | _, _ => Ok (init_weight rng "entity_embed.weight" entities (args_entity_dim args))
           end) = Ok (init_weight rng "entity_embed.weight" entities (args_entity_dim args)))
    as -> by (by destruct user_pre_embed).
  cbn [mbind result_bind]. unfold xavier_uniform_.
  destruct (decide (args_entity_dim args * args_relation_dim args
                    + relations * args_relation_dim args = 0)) as [Hz|_]; [nia|].
  cbn [mbind result_bind].
  pose proof (build_aggregators_outcome (scope "aggregator_layers." rng)
                (args_entity_dim args :: args_conv_dim_list args)
                (args_mess_dropout args) (args_aggregation_type args)
                (length (args_conv_dim_list args)) 0 Hs) as Hb.
  simpl in Hb.
  assert (∀ k p, k < length (args_conv_dim_list args) →
                 args_mess_dropout args !! k = Some p → valid_rate p) as Hall.
  { intros k p Hk Hp. rewrite Forall_lookup in Hrates. apply (Hrates k).
    by rewrite lookup_take_lt. }
  specialize (Hb Hall ltac:(lia) ltac:(lia)).
  destruct (decide (length (args_conv_dim_list args) ≤ length (args_mess_dropout args))).
  - by destruct (build_aggregators _ _ _ _ _ _).
  - by rewrite Hb.
Qed.

Lemma valid_rate_tenth : valid_rate (1 / 10).
Proof. unfold valid_rate. lra. Defined.

Lemma KGAT_init_mess_dropout_witness :
  KGAT_init ones_init (mkArgs 0 2 2 "gcn" [2; 2] [(1 / 10)%R] (Fin 0) (Fin 0)) 1 3 1
    None None = Err IndexError.
Proof.
  apply (KGAT_init_mess_dropout ones_init
           (mkArgs 0 2 2 "gcn" [2; 2] [(1 / 10)%R] (Fin 0) (Fin 0)) 1 3 1 None).
  - simpl. lia.
  - simpl. lia.
  - simpl. repeat (apply Forall_cons_2; [lia|]). apply Forall_nil_2.
  - unfold valid_scheme. simpl. constructor.
  - simpl. apply Forall_cons_2; [exact valid_rate_tenth|apply Forall_nil_2].
Defined.

(** ** [get_item_embed]: the similarity-weighted mean of the neighbours *)

Lemma calk_sim_value (idx sim_idx : nat) (i_dict : gmap nat (list nat))
    (staffs staffs2 : list nat) :
  i_dict !! idx = Some staffs → i_dict !! sim_idx = Some staffs2 →
  staffs ≠ [] ∨ staffs2 ≠ [] →
  ∃ s : R, calk_sim idx sim_idx i_dict = Ok (Fin s) ∧ (0 <= s)%R
    ∧ ((0 < s)%R ↔ common_entry i_dict idx sim_idx).
Proof.
  intros H1 H2 Hne. unfold calk_sim. rewrite H1, H2. simpl.
  set (A := (list_to_set staffs : gset nat)).
  set (B := (list_to_set staffs2 : gset nat)).
  destruct (decide (size (A ∪ B) = 0)) as [Hz|Hz].
  { apply size_empty_iff, leibniz_equiv, empty_union_L in Hz as [Hz1 Hz2].
    apply list_to_set_empty_nil in Hz1, Hz2. by destruct Hne. }
  eexists; split; [reflexivity|].
  assert (0 < INR (size (A ∪ B)))%R as Hpos by (apply lt_0_INR; lia).
  assert (0 < / INR (size (A ∪ B)))%R as Hinv by (by apply Rinv_0_lt_compat).
  pose proof (pos_INR (size (A ∩ B))) as Hi0.
  split; [apply Rmult_le_pos; lra|].
  split.
  - intros Hs.
    destruct (decide (size (A ∩ B) = 0)) as [H0|H0].
    { rewrite H0 in Hs. simpl in Hs. unfold Rdiv in Hs. lra. }
    apply size_non_empty_iff, set_choose in H0 as [x Hx].
    apply elem_of_intersection in Hx as [Hx1 Hx2].
    unfold A, B in Hx1, Hx2. rewrite elem_of_list_to_set in Hx1, Hx2.
    by exists staffs, staffs2, x.
  - intros (la & lb & x & Ha & Hb & Hx1 & Hx2).
    rewrite H1 in Ha. rewrite H2 in Hb. injection Ha as <-. injection Hb as <-.
    assert (x ∈ A ∩ B) as Hx
      by (apply elem_of_intersection; unfold A, B; by rewrite !elem_of_list_to_set).
    assert (size (A ∩ B) ≠ 0) as Hn.
    { intros H0. apply size_empty_iff in H0. rewrite H0 in Hx.
      by apply elem_of_empty in Hx. }
    assert (0 < INR (size (A ∩ B)))%R by (apply lt_0_INR; lia).
    by apply Rmult_lt_0_compat.
Qed.

Lemma vscale_zero_finite (row : vec) :
  Forall is_finite row → vscale (Fin 0) row = replicate (length row) (Fin 0).
Proof.
  induction 1 as [|a row Ha _ IH]; [done|].
  apply is_finite_Fin in Ha as [x ->].
  change (vscale (Fin 0) (Fin x :: row)) with (Fin (0 * x) :: vscale (Fin 0) row).
  rewrite IH. simpl. do 2 f_equal. lra.
Qed.

Lemma vadd0_zeros (d : nat) : vadd0 (replicate d (Fin 0)) = replicate d (Fin 0).
Proof.
  unfold vadd0. rewrite fmap_replicate. simpl. do 2 f_equal. lra.
Qed.

Lemma vadd_zeros (d : nat) :
  vadd (replicate d (Fin 0)) (replicate d (Fin 0)) = replicate d (Fin 0).
Proof.
  unfold vadd. rewrite zip_with_replicate. simpl. do 2 f_equal. lra.
Qed.

Lemma vdivs_finite_pos (v : vec) (x : R) :
  Forall is_finite v → (0 < x)%R → Forall is_finite (vdivs v (Fin x)).
Proof.
  intros Hv Hx. unfold vdivs. apply Forall_fmap.
  eapply Forall_impl; [exact Hv|]. intros a Ha. by apply fdiv_finite_pos.
Qed.

Lemma vdivs_zero_zero (d : nat) : vdivs (replicate d (Fin 0)) (Fin 0) = replicate d NaN.
Proof.
  unfold vdivs. rewrite fmap_replicate. f_equal. by apply fdiv_zero_zero.
Qed.

Lemma accumulate_ok (d : nat) (a : accum vec) (row : vec) (s : R) :
  accum_ok d a → length row = d → Forall is_finite row → (0 <= s)%R →
  accum_ok d (accumulate vadd vadd0 a (vscale (Fin s) row) (Fin s))
  ∧ (accum_pos (accumulate vadd vadd0 a (vscale (Fin s) row) (Fin s))
     ↔ accum_pos a ∨ (0 < s)%R).
Proof.
  intros Ha Hlen Hrow Hs.
  assert (Forall is_finite (vscale (Fin s) row)) as Hterm.
  { unfold vscale. apply Forall_fmap. eapply Forall_impl; [exact Hrow|].
    intros b Hb. by apply fmul_finite. }
  assert (length (vscale (Fin s) row) = d) as Htlen
    by (unfold vscale; by rewrite length_fmap).
  destruct a as [|acc n]; simpl.
  - split.
    + split; [unfold vadd0; by rewrite length_fmap|].
      split.
      { unfold vadd0. apply Forall_fmap. eapply Forall_impl; [exact Hterm|].
        intros b Hb. by apply fadd_finite. }
      exists (0 + s)%R. split; [done|]. split; [lra|].
      intros H0. assert (s = 0%R) as -> by lra.
      rewrite (vscale_zero_finite row Hrow), Hlen. apply vadd0_zeros.
    + split.
      * intros (x & [= <-] & Hx). right. lra.
      * intros [[]|Hpos]. exists (0 + s)%R. split; [done|lra].
  - destruct Ha as (Halen & Hafin & x & -> & Hx & Hzero). simpl.
    split.
    + split; [unfold vadd; rewrite length_zip_with; lia|].
      split; [apply zip_with_finite; [apply fadd_finite|done..]|].
      exists (x + s)%R. split; [done|]. split; [lra|].
      intros H0. assert (x = 0%R) as Hx0 by lra. assert (s = 0%R) as -> by lra.
      rewrite (Hzero Hx0), (vscale_zero_finite row Hrow), Hlen. apply vadd_zeros.
    + split.
      * intros (y & [= <-] & Hy).
        destruct (Rle_lt_or_eq_dec 0 x Hx) as [Hlt|Heq].
        -- left. by exists x.
        -- right. lra.
      * intros [(y & [= <-] & Hy)|Hpos]; exists (x + s)%R; (split; [done|lra]).
Qed.

Lemma item_sim_loop_ok (all_embed : mat) (d : nat) (item_dict : gmap nat (list nat))
    (iid : nat) (users : list nat) (neighbours : list nat) :
  Forall (Forall is_finite) all_embed → has_width d all_embed →
  item_dict !! iid = Some users →
  ∀ a,
    Forall (fun nb => nb < length all_embed
                      ∧ ∃ us, item_dict !! nb = Some us ∧ (users ≠ [] ∨ us ≠ []))
           neighbours →
    accum_ok d a →
    ∃ a', item_sim_loop all_embed iid item_dict neighbours a = Ok a'
      ∧ accum_ok d a'
      ∧ (a' = Int0 → a = Int0 ∧ neighbours = [])
      ∧ (accum_pos a' ↔ accum_pos a ∨ Exists (common_entry item_dict iid) neighbours).
Proof.
  intros Hfinite Hwidth Hiid.
  induction neighbours as [|nb rest IH]; intros a Hnbs Ha.
  - exists a. simpl. split; [done|]. split; [done|]. split; [done|].
    split; [by left|]. intros [H|H]; [done|]. by apply Exists_nil in H.
  - apply Forall_cons in Hnbs as [(Hlt & us & Hus & Hne) Hrest].
    destruct (calk_sim_value iid nb item_dict users us Hiid Hus Hne)
      as (s & Hsim & Hs & Hpos).
    destruct (lookup_lt_is_Some_2 all_embed nb Hlt) as [row Hrow].
    simpl. rewrite Hsim. cbn [mbind result_bind]. rewrite Hrow.
    cbn [of_option mbind result_bind].
    assert (length row = d) as Hlen
      by (unfold has_width in Hwidth; rewrite Forall_lookup in Hwidth;
          exact (Hwidth nb row Hrow)).
    assert (Forall is_finite row) as Hrfin
      by (rewrite Forall_lookup in Hfinite; exact (Hfinite nb row Hrow)).
    destruct (accumulate_ok d a row s Ha Hlen Hrfin Hs) as [Hok Hp].
    destruct (IH _ Hrest Hok) as (a' & Hloop & Hok' & Hint & Hp').
    exists a'. split; [exact Hloop|]. split; [exact Hok'|]. split.
    + intros Ha'. destruct (Hint Ha') as [Hacc _]. by destruct a.
    + rewrite Hp', Hp, Exists_cons, Hpos. tauto.
Qed.

(** For an item with a non-empty neighbour list, when the embedding table is
    finite and every neighbour is a row of the table and has an entry in the
    item dictionary (not both lists of a pair being empty), [get_item_embed]'s
    similarity-weighted row is computed without an exception: it holds no
    NaN if at least one neighbour shares a user with the item, and NaN in
    every position if none does. *)
Theorem item_cf_row_value (all_embed : mat) (d : nat)
    (sim_item_dict item_dict : gmap nat (list nat)) (iid : nat)
    (users neighbours : list nat) :
  Forall (Forall is_finite) all_embed → has_width d all_embed →
  sim_item_dict !! iid = Some neighbours → neighbours ≠ [] →
  item_dict !! iid = Some users →
  Forall (fun nb => nb < length all_embed
                    ∧ ∃ us, item_dict !! nb = Some us ∧ (users ≠ [] ∨ us ≠ []))
         neighbours →
  ∃ row, item_cf_row all_embed iid sim_item_dict item_dict = Ok row
    ∧ length row = d
    ∧ ((Exists (common_entry item_dict iid) neighbours ∧ Forall (fun a => a ≠ NaN) row)
       ∨ (¬ Exists (common_entry item_dict iid) neighbours ∧ row = replicate d NaN)).
Proof.
  intros Hfin Hw Hsim Hne Hiid Hnbs.
  destruct (item_sim_loop_ok all_embed d item_dict iid users neighbours Hfin Hw Hiid
              Int0 Hnbs I) as (a & Hloop & Hok & Hint & Hpos).
  unfold item_cf_row. rewrite Hsim. cbn [of_option mbind result_bind].
  rewrite Hloop. cbn [mbind result_bind].
  destruct a as [|s n]; [by destruct (Hint eq_refl)|].
  destruct Hok as (Hlen & Hsfin & x & -> & Hx & Hzero). simpl.
  eexists. split; [reflexivity|]. split; [by rewrite vdivs_length|].
  destruct (Rle_lt_or_eq_dec 0 x Hx) as [Hlt|Heq].
  - left. split.
    + assert (accum_pos (Acc s (Fin x))) as Hp by (by exists x).
      apply Hpos in Hp as [[]|Hp]. exact Hp.
    + eapply Forall_impl; [by apply vdivs_finite_pos|].
      intros a Ha ->. exact Ha.
  - right. split.
    + intros Hex. assert (accum_pos (Acc s (Fin x))) as (y & [= <-] & Hy)
        by (apply Hpos; by right).
      lra.
    + rewrite (Hzero (eq_sym Heq)). rewrite <- Heq. apply vdivs_zero_zero.
Qed.

Lemma item_cf_row_value_witness :
  ∃ row, item_cf_row [[Fin 1; Fin 2]; [Fin 3; Fin 4]] 0 {[0 := [1]]}
           {[0 := [7]; 1 := [8]]} = Ok row
    ∧ length row = 2
    ∧ ((Exists (common_entry {[0 := [7]; 1 := [8]]} 0) [1]
        ∧ Forall (fun a => a ≠ NaN) row)
       ∨ (¬ Exists (common_entry {[0 := [7]; 1 := [8]]} 0) [1]
          ∧ row = replicate 2 NaN)).
Proof.
  apply (item_cf_row_value [[Fin 1; Fin 2]; [Fin 3; Fin 4]] 2 {[0 := [1]]}
           {[0 := [7]; 1 := [8]]} 0 [7] [1]).
  - repeat constructor.
  - repeat constructor.
  - reflexivity.
  - discriminate.
  - reflexivity.
  - apply Forall_cons_2; [|apply Forall_nil_2].
    split; [simpl; lia|]. exists [8]. split; [reflexivity|]. left. discriminate.
Defined.

(** ** [get_user_cf_embed]: the similarity-weighted mean of the neighbours *)

Lemma user_kg_row_finite (embed : mat) (d : nat) (user_dict : gmap nat (list nat))
    (uid : nat) (items : list nat) :
  Forall (Forall is_finite) embed → has_width d embed →
  user_dict !! uid = Some items → items ≠ [] →
  Forall (fun i => i < length embed) items →
  ∃ v, user_kg_row embed user_dict uid = Ok v ∧ length v = d ∧ Forall is_finite v.
Proof.
  intros Hfin Hw Hitems Hne Hrange.
  unfold user_kg_row. rewrite Hitems. cbn [of_option mbind result_bind].
  unfold mean_of_items.
  destruct (mapM_result_total (fun i => of_option IndexError (embed !! i)) items)
    as [rows Hrows].
  { eapply Forall_impl; [exact Hrange|]. intros i Hi. simpl in Hi.
    by destruct (lookup_lt_is_Some_2 embed i Hi) as [row ->]. }
  unfold index_rows. rewrite Hrows. cbn [mbind result_bind].
  assert (embed ≠ []) as Hembed.
  { intros ->. destruct items as [|i items]; [done|].
    apply Forall_cons in Hrange as [Hi _]. simpl in Hi. lia. }
  pose proof (has_width_unique _ _ _ Hembed Hw (has_width_width _ _ Hw)) as Hd.
  destruct (index_rows_width embed items rows (has_width_width _ _ Hw) Hrows)
    as [Hrw _].
  pose proof (lookups_finite _ _ _ _ Hfin Hrows) as Hrfin.
  eexists. split; [reflexivity|]. split.
  - rewrite vdivs_length, sum_rows_length; [by symmetry|exact Hrw].
  - unfold of_nat. apply vdivs_finite_pos; [by apply sum_rows_finite|].
    apply lt_0_INR. destruct items; [done|simpl; lia].
Qed.

Lemma user_sim_loop_ok (embed : mat) (d : nat) (user_dict : gmap nat (list nat))
    (uid : nat) (items : list nat) (neighbours : list nat) :
  Forall (Forall is_finite) embed → has_width d embed →
  user_dict !! uid = Some items →
  ∀ a,
    Forall (fun nb => ∃ its, user_dict !! nb = Some its ∧ its ≠ []
                             ∧ Forall (fun i => i < length embed) its)
           neighbours →
    accum_ok d a →
    ∃ a', user_sim_loop embed uid user_dict neighbours (row_accum a) = Ok (row_accum a')
      ∧ accum_ok d a'
      ∧ (a' = Int0 → a = Int0 ∧ neighbours = [])
      ∧ (accum_pos a' ↔ accum_pos a ∨ Exists (common_entry user_dict uid) neighbours).
Proof.
  intros Hfinite Hwidth Huid.
  induction neighbours as [|nb rest IH]; intros a Hnbs Ha.
  - exists a. simpl. split; [done|]. split; [done|]. split; [done|].
    split; [by left|]. intros [H|H]; [done|]. by apply Exists_nil in H.
  - apply Forall_cons in Hnbs as [(its & Hits & Hne & Hrange) Hrest].
    destruct (calk_sim_value uid nb user_dict items its Huid Hits (or_intror Hne))
      as (s & Hsim & Hs & Hpos).
    destruct (user_kg_row_finite embed d user_dict nb its Hfinite Hwidth Hits Hne Hrange)
      as (v & Hv & Hlen & Hvfin).
    assert (get_user_kg_embed embed (ScalarId nb) user_dict = Ok [v]) as Hkg.
    { unfold get_user_kg_embed. rewrite Hv. cbn [mbind result_bind].
      apply view_rows_one. }
    cbn [user_sim_loop]. rewrite Hsim. cbn [mbind result_bind]. rewrite Hkg.
    cbn [mbind result_bind].
    destruct (accumulate_ok d a v s Ha Hlen Hvfin Hs) as [Hok Hp].
    destruct (IH _ Hrest Hok) as (a' & Hloop & Hok' & Hint & Hp').
    exists a'. split; [|split; [exact Hok'|split]].
    + rewrite <- Hloop. f_equal. by destruct a.
    + intros Ha'. destruct (Hint Ha') as [Hacc _]. by destruct a.
    + rewrite Hp', Hp, Exists_cons, Hpos. tauto.
Qed.

(** For a user with a non-empty neighbour list, when the embedding table is
    finite and every neighbour has a non-empty list of interacted items
    that are rows of the table, the user's CF-context row is computed
    without an exception and is a (1, d) tensor; when no neighbour shares an
    item with the user it is NaN in every position. *)
Theorem user_cf_row_value (embed : mat) (d : nat)
    (user_dict sim_user_dict : gmap nat (list nat)) (uid : nat)
    (items neighbours : list nat) :
  Forall (Forall is_finite) embed → has_width d embed →
  sim_user_dict !! uid = Some neighbours → neighbours ≠ [] →
  user_dict !! uid = Some items →
  Forall (fun nb => ∃ its, user_dict !! nb = Some its ∧ its ≠ []
                           ∧ Forall (fun i => i < length embed) its)
         neighbours →
  ∃ row, user_cf_row embed uid user_dict sim_user_dict = Ok [row]
    ∧ length row = d
    ∧ (¬ Exists (common_entry user_dict uid) neighbours → row = replicate d NaN).
Proof.
  intros Hfin Hw Hsim Hne Huid Hnbs.
  destruct (user_sim_loop_ok embed d user_dict uid items neighbours Hfin Hw Huid
              Int0 Hnbs I) as (a & Hloop & Hok & Hint & Hpos).
  unfold user_cf_row. rewrite Hsim. cbn [of_option mbind result_bind].
  change (@Int0 mat) with (row_accum Int0). rewrite Hloop. cbn [mbind result_bind].
  destruct a as [|s n]; [by destruct (Hint eq_refl)|].
  destruct Hok as (Hlen & Hsfin & x & -> & Hx & Hzero). simpl.
  eexists. split; [reflexivity|]. split; [by rewrite vdivs_length|].
  intros Hnone.
  destruct (Rle_lt_or_eq_dec 0 x Hx) as [Hlt|Heq].
  - exfalso. apply Hnone.
    assert (accum_pos (Acc s (Fin x))) as Hp by (by exists x).
    apply Hpos in Hp as [[]|Hp]. exact Hp.
  - rewrite (Hzero (eq_sym Heq)). rewrite <- Heq. apply vdivs_zero_zero.
Qed.

Lemma user_cf_row_value_witness :
  ∃ row, user_cf_row [[Fin 1; Fin 2]; [Fin 3; Fin 4]] 0
           {[0 := [0]; 1 := [1]; 2 := [1]]} {[0 := [1; 2]]} = Ok [row]
    ∧ length row = 2
    ∧ (¬ Exists (common_entry {[0 := [0]; 1 := [1]; 2 := [1]]} 0) [1; 2]
       → row = replicate 2 NaN).
Proof.
  apply (user_cf_row_value [[Fin 1; Fin 2]; [Fin 3; Fin 4]] 2
           {[0 := [0]; 1 := [1]; 2 := [1]]} {[0 := [1; 2]]} 0 [0] [1; 2]).
  - repeat constructor.
  - repeat constructor.
  - reflexivity.
  - discriminate.
  - reflexivity.
  - apply Forall_cons_2; [|apply Forall_cons_2; [|apply Forall_nil_2]].
    + exists [1]. split; [reflexivity|]. split; [discriminate|]. repeat constructor.
    + exists [1]. split; [reflexivity|]. split; [discriminate|]. repeat constructor.
Defined.

(** ** [cf_score]: the shape of the score matrix *)

Lemma reshape_length (n k : nat) (flat : vec) : length (reshape n k flat) = n.
Proof. revert flat. induction n as [|n IH]; intros flat; simpl; [done|]. by rewrite IH. Qed.

Lemma view_rows_length (n : nat) (flat : vec) (x : mat) :
  view_rows n flat = Ok x → length x = n.
Proof.
  unfold view_rows. destruct (decide (n = 0)); [done|].
  destruct (decide (n * (length flat / n) = length flat)); [|done].
  intros [= <-]. apply reshape_length.
Qed.

Lemma Sequential_forward_length (layers : list layer) :
  ∀ x out, Sequential_forward layers x = Ok out → length out = length x.
Proof.
  induction layers as [|l layers IH]; intros x out Hout; simpl in Hout.
  - by injection Hout as <-.
  - destruct (layer_forward l x) as [y|] eqn:Hy; [|done].
    cbn [mbind result_bind] in Hout. rewrite (IH _ _ Hout).
    destruct l as [L|]; simpl in Hy.
    + by apply mapM_result_length in Hy.
    + injection Hy as <-. by rewrite length_fmap.
Qed.

Lemma get_user_embed_rows (m : KGAT) (embed : mat) (user_ids : list nat)
    (user_dict sim_user_dict : gmap nat (list nat)) (out : mat) :
  get_user_embed m embed user_ids user_dict sim_user_dict = Ok out →
  length out = length user_ids ∧ user_ids ≠ [].
Proof.
  unfold get_user_embed, get_user_kg_embed. intros Hout.
  destruct (mapM_result (user_kg_row embed user_dict) user_ids) as [rows|] eqn:Hrows;
    [|done].
  cbn [mbind result_bind] in Hout.
  apply mapM_result_length in Hrows.
  destruct rows as [|row rows]; [done|].
  destruct (view_rows _ _) as [kg|] eqn:Hkg; [|done].
  cbn [mbind result_bind] in Hout.
  destruct (get_user_cf_embed _ _ _ _) as [cf|]; [|done].
  cbn [mbind result_bind] in Hout.
  unfold cat_cols in Hout. destruct (decide (length kg = length cf)) as [Heq|]; [|done].
  cbn [mbind result_bind] in Hout.
  apply Sequential_forward_length in Hout.
  apply view_rows_length in Hkg.
  split.
  - rewrite Hout, length_zip_with. lia.
  - intros ->. discriminate Hrows.
Qed.

Lemma get_item_embed_rows (m : KGAT) (all_embed : mat) (item_ids : list nat)
    (sim_item_dict item_dict : gmap nat (list nat)) (out : mat) :
  get_item_embed m all_embed item_ids sim_item_dict item_dict = Ok out →
  length out = length item_ids ∧ item_ids ≠ [].
Proof.
  unfold get_item_embed. intros Hout.
  destruct (index_rows all_embed item_ids) as [kg|] eqn:Hkg; [|done].
  cbn [mbind result_bind] in Hout.
  destruct (mapM_result _ item_ids) as [rows|] eqn:Hrows; [|done].
  cbn [mbind result_bind] in Hout.
  apply mapM_result_length in Hrows. apply mapM_result_length in Hkg.
  destruct rows as [|row rows]; [done|].
  destruct (view_rows _ _) as [cf|] eqn:Hcf; [|done].
  cbn [mbind result_bind] in Hout.
  unfold cat_cols in Hout. destruct (decide (length kg = length cf)) as [Heq|]; [|done].
  cbn [mbind result_bind] in Hout.
  apply Sequential_forward_length in Hout.
  split.
  - rewrite Hout, length_zip_with. lia.
  - intros ->. discriminate Hrows.
Qed.

Lemma cf_score_rows (m : KGAT) (keep : nat → nat → nat → bool) (mode : string)
    (g : DGLGraph) (user_ids item_ids : list nat)
    (user_dict sim_user_dict sim_item_dict item_dict : gmap nat (list nat))
    (score : mat) :
  cf_score m keep mode g user_ids item_ids user_dict sim_user_dict sim_item_dict item_dict
    = Ok score →
  length score = length user_ids
  ∧ has_width (length item_ids) score
  ∧ user_ids ≠ [] ∧ item_ids ≠ [].
Proof.
  unfold cf_score. intros Hs.
  destruct (cf_embedding m keep mode g) as [all_embed|]; [|done].
  cbn [mbind result_bind] in Hs.
  destruct (get_user_embed _ _ _ _ _) as [user_embed|] eqn:Hu; [|done].
  cbn [mbind result_bind] in Hs.
  destruct (get_item_embed _ _ _ _ _) as [item_embed|] eqn:Hi; [|done].
  cbn [mbind result_bind] in Hs. injection Hs as <-.
  apply get_user_embed_rows in Hu as [Hu Hune].
  apply get_item_embed_rows in Hi as [Hi Hine].
  unfold matmul_transpose.
  split; [by rewrite length_fmap|]. split; [|done].
  unfold has_width. apply Forall_fmap, Forall_forall. intros u _. simpl.
  by rewrite length_fmap.
Qed.

(** When [cf_score] succeeds, the score matrix it returns has one row per
    user id and one column per item id, and neither batch was empty: on an
    empty batch of users or of items [cf_score] raises instead of returning
    an empty matrix. *)
Theorem cf_score_shape (m : KGAT) (keep : nat → nat → nat → bool) (mode : string)
    (g : DGLGraph) (user_ids item_ids : list nat)
    (user_dict sim_user_dict sim_item_dict item_dict : gmap nat (list nat)) :
  is_ok (cf_score m keep mode g user_ids item_ids
           user_dict sim_user_dict sim_item_dict item_dict) = true →
  ∃ score,
    cf_score m keep mode g user_ids item_ids user_dict sim_user_dict sim_item_dict item_dict
      = Ok score
    ∧ length score = length user_ids
    ∧ has_width (length item_ids) score
    ∧ user_ids ≠ [] ∧ item_ids ≠ [].
Proof.
  intros Hok.
  destruct (cf_score m keep mode g user_ids item_ids
              user_dict sim_user_dict sim_item_dict item_dict) as [score|] eqn:Hs;
    [|done].
  exists score. split; [done|]. by eapply cf_score_rows.
Qed.

Lemma cf_score_shape_witness :
  ∃ score,
    cf_score layered_model (fun _ _ _ => true) "predict" two_node_graph
      [0] [1; 0] {[0 := [0; 1]; 1 := [1]]} {[0 := [1]]}
      {[0 := [1]; 1 := [0]]} {[0 := [0; 1]; 1 := [1]]} = Ok score
    ∧ length score = 1
    ∧ has_width 2 score
    ∧ [0] ≠ [] ∧ [1; 0] ≠ [].
Proof.
  apply (cf_score_shape layered_model (fun _ _ _ => true) "predict" two_node_graph
           [0] [1; 0] {[0 := [0; 1]; 1 := [1]]} {[0 := [1]]}
           {[0 := [1]; 1 := [0]]} {[0 := [0; 1]; 1 := [1]]}).
  reflexivity.
Defined.

(** ** [get_user_kg_embed]: the batch and the single user *)

(** The rows that [get_user_kg_embed] returns for a batch of user ids are,
    one by one and in order, what it returns for each id alone. *)
Theorem get_user_kg_embed_batch_rows (embed : mat) (user_ids : list nat)
    (user_dict : gmap nat (list nat)) (kg : mat) :
  has_width (width embed) embed →
  get_user_kg_embed embed (IdTensor user_ids) user_dict = Ok kg →
  Forall2 (fun uid row => get_user_kg_embed embed (ScalarId uid) user_dict = Ok [row])
          user_ids kg.
Proof.
  intros Hw Hkg. unfold get_user_kg_embed in Hkg.
  destruct (mapM_result (user_kg_row embed user_dict) user_ids) as [rows|] eqn:Hrows;
    [|done].
  cbn [mbind result_bind] in Hkg.
  destruct rows as [|row0 rows0] eqn:Hr; [done|]. rewrite <- Hr in *.
  assert (has_width (width embed) rows) as Hrw.
  { apply (mapM_result_Forall (user_kg_row embed user_dict) _ user_ids rows); [|done].
    intros uid v Hv. by apply (user_kg_row_width embed user_dict uid). }
  rewrite <- (mapM_result_length _ _ _ Hrows) in Hkg.
  assert (view_rows (length rows) (concat rows) = Ok kg) as Hview
    by (rewrite Hr in Hkg |- *; exact Hkg).
  apply (view_rows_concat_inv (width embed)) in Hview as (-> & _); [|done].
  apply mapM_result_Forall2 in Hrows.
  clear Hr Hkg. induction Hrows as [|uid row uids rows' Hrow _ IH]; constructor.
  - unfold get_user_kg_embed. rewrite Hrow. cbn [mbind result_bind].
    apply view_rows_one.
  - apply IH. by apply Forall_cons in Hrw as [_ Hrw].
Qed.

Lemma get_user_kg_embed_batch_rows_witness :
  Forall2 (fun uid row =>
             get_user_kg_embed [[Fin 1; Fin 2]; [Fin 3; Fin 4]] (ScalarId uid)
               {[0 := [0; 1]; 1 := [1]]} = Ok [row])
          [0; 1]
          [ [fdiv (fadd (Fin 1) (fadd (Fin 3) zero)) (of_nat 2);
             fdiv (fadd (Fin 2) (fadd (Fin 4) zero)) (of_nat 2)];
            [fdiv (fadd (Fin 3) zero) (of_nat 1); fdiv (fadd (Fin 4) zero) (of_nat 1)] ].
Proof.
  apply (get_user_kg_embed_batch_rows [[Fin 1; Fin 2]; [Fin 3; Fin 4]] [0; 1]
           {[0 := [0; 1]; 1 := [1]]}).
  - repeat constructor.
  - reflexivity.
Defined.

(** ** [calc_cf_loss]: the batch sizes *)

Lemma broadcast_Ok {A B} (f : A → A → B) (a b : list A) (out : list B) :
  a ≠ [] → b ≠ [] → broadcast f a b = Ok out →
  broadcastable (length a) (length b) ∧ length out = length a `max` length b.
Proof.
  unfold broadcast, broadcastable. intros Ha Hb.
  destruct (decide (length a = length b)) as [Heq|Hne].
  { intros [= <-]. rewrite length_zip_with. split; [by left|lia]. }
  destruct a as [|x [|x' a]]; [done| |].
  - destruct b as [|y b]; [done|]. simpl.
    intros [= <-]. simpl. rewrite length_fmap. split; [tauto|lia].
  - destruct b as [|y [|y' b]]; [done| |done]. simpl.
    intros [= <-]. simpl. rewrite length_fmap. split; [tauto|lia].
Qed.

Lemma calc_cf_loss_sizes (m : KGAT) (keep : nat → nat → nat → bool)
    (mode : string) (g : DGLGraph) (user_ids item_pos_ids item_neg_ids : list nat)
    (user_dict sim_user_dict item_dict sim_item_dict : gmap nat (list nat))
    (loss : float) :
  calc_cf_loss m keep mode g user_ids item_pos_ids item_neg_ids
    user_dict sim_user_dict item_dict sim_item_dict = Ok loss →
  user_ids ≠ [] ∧ item_pos_ids ≠ [] ∧ item_neg_ids ≠ []
  ∧ broadcastable (length user_ids) (length item_pos_ids)
  ∧ broadcastable (length user_ids) (length item_neg_ids)
  ∧ broadcastable (length user_ids `max` length item_pos_ids)
                  (length user_ids `max` length item_neg_ids).
Proof.
  unfold calc_cf_loss. intros Hl.
  destruct (cf_embedding m keep mode g) as [all_embed|]; [|done].
  cbn [mbind result_bind] in Hl.
  destruct (get_user_embed _ _ _ _ _) as [user_embed|] eqn:Hu; [|done].
  cbn [mbind result_bind] in Hl.
  destruct (get_item_embed m all_embed item_pos_ids _ _) as [pos_embed|] eqn:Hp; [|done].
  cbn [mbind result_bind] in Hl.
  destruct (get_item_embed m all_embed item_neg_ids _ _) as [neg_embed|] eqn:Hn; [|done].
  cbn [mbind result_bind] in Hl.
  destruct (broadcast vmul user_embed pos_embed) as [pos_prod|] eqn:Hpp; [|done].
  cbn [mbind result_bind] in Hl.
  destruct (broadcast vmul user_embed neg_embed) as [neg_prod|] eqn:Hnp; [|done].
  cbn [mbind result_bind] in Hl.
  destruct (broadcast fsub (vsum <$> pos_prod) (vsum <$> neg_prod)) as [diff|] eqn:Hd;
    [|done].
  apply get_user_embed_rows in Hu as [Hu Hune].
  apply get_item_embed_rows in Hp as [Hp Hpne].
  apply get_item_embed_rows in Hn as [Hn Hnne].
  assert (∀ (A : Type) (l : list A) (ids : list nat),
            length l = length ids → ids ≠ [] → l ≠ []) as Hne
    by (intros A l ids Hlen Hids ->; by destruct ids).
  apply broadcast_Ok in Hpp as [Hpb Hpl]; [|by eapply Hne..].
  apply broadcast_Ok in Hnp as [Hnb Hnl]; [|by eapply Hne..].
  apply broadcast_Ok in Hd as [Hdb _].
  - rewrite !length_fmap, Hpl, Hnl in Hdb.
    rewrite Hu, Hp in Hpb. rewrite Hu, Hn in Hnb. rewrite Hu, Hp, Hn in Hdb.
    done.
  - intros Hnil%fmap_nil_inv. rewrite Hnil in Hpl. simpl in Hpl.
    rewrite Hu in Hpl. destruct user_ids; [done|simpl in Hpl; lia].
  - intros Hnil%fmap_nil_inv. rewrite Hnil in Hnl. simpl in Hnl.
    rewrite Hu in Hnl. destruct user_ids; [done|simpl in Hnl; lia].
Qed.

(** [calc_cf_loss] returns a loss only for non-empty batches whose sizes
    broadcast: the numbers of user ids and of positive (negative) item ids
    are equal or one of them is 1, and so are the sizes of the two score
    vectors.  It does not insist on three batches of one size. *)
Theorem calc_cf_loss_batch_sizes (m : KGAT) (keep : nat → nat → nat → bool)
    (mode : string) (g : DGLGraph) (user_ids item_pos_ids item_neg_ids : list nat)
    (user_dict sim_user_dict item_dict sim_item_dict : gmap nat (list nat)) :
  is_ok (calc_cf_loss m keep mode g user_ids item_pos_ids item_neg_ids
           user_dict sim_user_dict item_dict sim_item_dict) = true →
  user_ids ≠ [] ∧ item_pos_ids ≠ [] ∧ item_neg_ids ≠ []
  ∧ broadcastable (length user_ids) (length item_pos_ids)
  ∧ broadcastable (length user_ids) (length item_neg_ids)
  ∧ broadcastable (length user_ids `max` length item_pos_ids)
                  (length user_ids `max` length item_neg_ids).
Proof.
  intros Hok.
  destruct (calc_cf_loss m keep mode g user_ids item_pos_ids item_neg_ids
              user_dict sim_user_dict item_dict sim_item_dict) as [loss|] eqn:Hl;
    [|done].
  by eapply calc_cf_loss_sizes.
Qed.

Lemma calc_cf_loss_batch_sizes_witness :
  is_ok (calc_cf_loss layered_model (fun _ _ _ => true) "calc_cf_loss"
           two_node_graph [0] [1; 0] [0] {[0 := [0; 1]; 1 := [1]]} {[0 := [1]]}
           {[0 := [0; 1]; 1 := [1]]} {[0 := [1]; 1 := [0]]}) = true
  ∧ [0] ≠ [] ∧ [1; 0] ≠ [] ∧ [0] ≠ []
  ∧ broadcastable (length [0]) (length [1; 0])
  ∧ broadcastable (length [0]) (length [0])
  ∧ broadcastable (length [0] `max` length [1; 0]) (length [0] `max` length [0]).
Proof.
  split; [reflexivity|].
  apply (calc_cf_loss_batch_sizes layered_model (fun _ _ _ => true) "calc_cf_loss"
           two_node_graph [0] [1; 0] [0] {[0 := [0; 1]; 1 := [1]]} {[0 := [1]]}
           {[0 := [0; 1]; 1 := [1]]} {[0 := [1]; 1 := [0]]}).
  reflexivity.
Defined.

(** ** [cf_embedding] on a constructed model *)

Lemma build_aggregators_chain (rng : initializer) (dims : list nat) (drops : list R)
    (scheme : string) (count : nat) :
  initializer_ok rng →
  ∀ start layers d_in,
    build_aggregators rng dims drops scheme start count = Ok layers →
    dims !! start = Some d_in →
    built_chain d_in layers (take count (drop (S start) dims)).
Proof.
  intros Hrng. induction count as [|count IH]; intros start layers d_in Hb Hd; simpl in Hb.
  - injection Hb as <-. by rewrite take_0.
  - rewrite Hd in Hb. cbn [of_option mbind result_bind] in Hb.
    destruct (dims !! S start) as [d_out|] eqn:Hout; [|done].
    cbn [of_option mbind result_bind] in Hb.
    destruct (drops !! start) as [p|]; [|done]. cbn [of_option mbind result_bind] in Hb.
    destruct (Aggregator_init _ d_in d_out p scheme) as [a|] eqn:Ha; [|done].
    cbn [mbind result_bind] in Hb.
    destruct (build_aggregators rng dims drops scheme (S start) count) as [rest|] eqn:Hr;
      [|done].
    cbn [mbind result_bind] in Hb. injection Hb as <-.
    rewrite (drop_S _ _ _ Hout). simpl. split.
    + exists (scope (String.append (pretty start) ".") rng), p, scheme.
      split; [by apply scope_ok|exact Ha].
    + by apply (IH (S start)).
Qed.

Lemma cf_layers_total (training : bool) (keep : nat → nat → nat → bool) (mode : string)
    (g : DGLGraph) (layers : list Aggregator) :
  is_Some (edata_att g) → edges g ≠ [] →
  ∀ ds d_in i ego_embed,
    built_chain d_in layers ds →
    length ego_embed = number_of_nodes g → has_width d_in ego_embed →
    ∃ embeds, cf_layers training keep mode g layers i ego_embed = Ok embeds
      ∧ Forall (fun x => length x = number_of_nodes g) embeds
      ∧ Forall2 has_width ds embeds.
Proof.
  intros Hatt Hedges.
  induction layers as [|a layers IH]; intros ds d_in i ego Hchain Hlen Hw.
  - destruct ds; [|done]. exists []. by repeat split; constructor.
  - destruct ds as [|d ds]; [done|]. destruct Hchain as [(rng & p & scheme & Hrng & Ha) Hchain].
    destruct (Aggregator_forward_ok rng d_in d p scheme a training (keep i) mode g ego
                Hrng Ha Hlen Hw Hatt Hedges) as (out & Hout & Holen & Howidth).
    destruct (IH ds d (S i) out Hchain Holen Howidth) as (rest & Hrest & Hrlen & Hrw).
    exists (F_normalize out :: rest). simpl. rewrite Hout. cbn [mbind result_bind].
    rewrite Hrest. cbn [mbind result_bind]. split; [done|]. split.
    + constructor; [|done]. unfold F_normalize. by rewrite length_fmap.
    + constructor; [|done]. by apply F_normalize_width.
Qed.

Lemma cat_dim1_length (n : nat) (rest : list mat) :
  Forall (fun x => length x = n) rest →
  ∀ m0, length m0 = n → length (cat_dim1 (m0 :: rest)) = n.
Proof.
  simpl. induction 1 as [|x rest Hx _ IH]; intros m0 Hm0; simpl; [done|].
  apply IH. rewrite length_zip_with. lia.
Qed.

Lemma cf_embedding_ok (rng : initializer) (args : Args)
    (users entities relations : nat) (user_pre_embed item_pre_embed : option mat)
    (m : KGAT) (keep : nat → nat → nat → bool) (mode : string) (g : DGLGraph) :
  initializer_ok rng →
  KGAT_init rng args users entities relations user_pre_embed item_pre_embed = Ok m →
  Forall (fun id => id < entities) (ndata_id g) →
  is_Some (edata_att g) →
  edges g ≠ [] →
  ∃ all_embed, cf_embedding m keep mode g = Ok all_embed
    ∧ length all_embed = number_of_nodes g
    ∧ has_width (args_entity_dim args + sum_list (args_conv_dim_list args)) all_embed.
Proof.
  intros Hrng Hm Hids Hatt Hedges.
  destruct (KGAT_init_shapes rng args users entities relations
              user_pre_embed item_pre_embed m Hrng Hm) as (_ & _ & HE & _).
  destruct (KGAT_init_Ok _ _ _ _ _ _ _ _ Hm) as (Htable & _ & Hlayers & _).
  assert (length (entity_embed m) = entities) as Hrows.
  { destruct Htable as [->|(u & item_pre & _ & _ & _ & Hle & _ & ->)].
    - apply (init_weight_rows rng Hrng).
    - rewrite length_app, (init_weight_rows rng Hrng). lia. }
  destruct (mapM_result_total (entity_embed_lookup m) (ndata_id g)) as [ego Hego].
  { eapply Forall_impl; [exact Hids|]. intros id Hid. simpl in Hid.
    unfold entity_embed_lookup. rewrite <- Hrows in Hid.
    by destruct (lookup_lt_is_Some_2 _ _ Hid) as [row ->]. }
  pose proof (mapM_result_length _ _ _ Hego) as Hlen.
  assert (has_width (args_entity_dim args) ego) as Hw
    by exact (lookups_finite _ _ _ _ HE Hego).
  apply (build_aggregators_chain _ _ _ _ _ (scope_ok _ _ Hrng) 0 _ (args_entity_dim args))
    in Hlayers; [|done].
  simpl in Hlayers. rewrite drop_0, firstn_all in Hlayers.
  destruct (cf_layers_total (training m) keep mode g (aggregator_layers m) Hatt Hedges
              (args_conv_dim_list args) (args_entity_dim args) 0 ego Hlayers Hlen Hw)
    as (embeds & Hembeds & Helen & Hew).
  exists (cat_dim1 (ego :: embeds)). unfold cf_embedding.
  rewrite Hego. cbn [mbind result_bind]. rewrite Hembeds. cbn [mbind result_bind].
  split; [done|]. split.
  - by apply cat_dim1_length.
  - by apply cat_dim1_width.
Qed.

(** On a model that the constructor has built, for a graph with at least
    one edge whose node ids are rows of the entity table and whose edges
    carry the attention field, [cf_embedding] raises nothing, in every mode
    and for every dropout sample: it returns one row per node, of width
    entity_dim plus the sum of the layer output dimensions. *)
Theorem cf_embedding_total (rng : initializer) (args : Args)
    (users entities relations : nat) (user_pre_embed item_pre_embed : option mat)
    (m : KGAT) (keep : nat → nat → nat → bool) (mode : string) (g : DGLGraph) :
  initializer_ok rng →
  KGAT_init rng args users entities relations user_pre_embed item_pre_embed = Ok m →
  Forall (fun id => id < entities) (ndata_id g) →
  is_Some (edata_att g) →
  edges g ≠ [] →
  ∃ all_embed, cf_embedding m keep mode g = Ok all_embed
    ∧ length all_embed = number_of_nodes g
    ∧ has_width (args_entity_dim args + sum_list (args_conv_dim_list args)) all_embed.
Proof. apply cf_embedding_ok. Qed.

Lemma cf_embedding_total_witness :
  ∃ all_embed,
    cf_embedding layered_model (fun _ _ _ => true) "predict" two_node_graph = Ok all_embed
    ∧ length all_embed = number_of_nodes two_node_graph
    ∧ has_width (args_entity_dim layered_args + sum_list (args_conv_dim_list layered_args))
        all_embed.
Proof.
  apply (cf_embedding_total ones_init layered_args 1 2 1 None None).
  - exact ones_init_ok.
  - exact layered_model_init.
  - repeat constructor.
  - by eexists.
  - discriminate.
Defined.
